(** * YoY finance dashboard (src/index.tsx): model and verified properties

    The program is one TypeScript/React file.  The development embeds its
    import pipeline ([finishImport]), its persistence effects (the two
    [useEffect] hooks of [App]) and the five aggregate views
    ([SeasonalityChart], [PaceOfSpendingChart], [CategoryComparisonChart],
    [HeatmapTable], [TransactionBoxPlot]) as Rocq functions, together with
    the parts of the JavaScript host they call ([parseFloat],
    [Number.prototype.toFixed], [Array.prototype.sort], [JSON.stringify],
    [JSON.parse], [Date]).

    Conventions.
    - A JavaScript string is a [string] holding the UTF-8 bytes of its
      text; only the ASCII letters are case-mapped.
    - A JavaScript number is a [number]: [NaN], the two infinities, or a
      finite value kept as the exact decimal it denotes.  Overflow to an
      infinity is modelled (it changes what JSON can store); rounding of a
      finite result to 53 bits is not, and [-0] is identified with [0].
    - What ECMA-262 leaves to the host (how [new Date(string)] reads a
      string that is not in ISO format, the local time zone) is a [Host]
      record; theorems hold for every host, concrete runs use [utc_host]. *)

From Stdlib Require Import ZArith List String Ascii Bool Lia.
From Stdlib Require Import Sorted Permutation.
Import ListNotations.

Local Open Scope string_scope.
Local Open Scope Z_scope.

(* ------------------------------------------------------------------ *)
(** ** Characters and strings *)

Definition code (c : ascii) : Z := Z.of_nat (nat_of_ascii c).

Definition chr (n : Z) : ascii := ascii_of_nat (Z.to_nat n).

(** The double quote, written by its code. *)
Definition dquote : ascii := chr 34.

Definition is_digit (c : ascii) : bool := (48 <=? code c) && (code c <=? 57).

Definition digit_val (c : ascii) : Z := code c - 48.

Definition digit_chr (d : Z) : ascii := chr (48 + d).

(** [String.prototype.toLowerCase] on the ASCII letters. *)
Definition lower_char (c : ascii) : ascii :=
  if (65 <=? code c) && (code c <=? 90) then chr (code c + 32) else c.

Fixpoint toLowerCase (s : string) : string :=
  match s with
  | EmptyString => EmptyString
  | String c r => String (lower_char c) (toLowerCase r)
  end.

(** [s.startsWith(t)]. *)
Fixpoint startsWith (s t : string) {struct t} : bool :=
  match t, s with
  | EmptyString, _ => true
  | String _ _, EmptyString => false
  | String b t', String a s' => Ascii.eqb a b && startsWith s' t'
  end.

(** [s.includes(t)]: [t] occurs in [s] at some position. *)
Fixpoint includes (s t : string) : bool :=
  startsWith s t ||
  match s with
  | EmptyString => false
  | String _ s' => includes s' t
  end.

(** [t] is a substring of [s]. *)
Definition Substring (t s : string) : Prop :=
  exists pre post, s = pre ++ t ++ post.

Fixpoint string_filter (p : ascii -> bool) (s : string) : string :=
  match s with
  | EmptyString => EmptyString
  | String c r => if p c then String c (string_filter p r) else string_filter p r
  end.

Fixpoint string_forallb (p : ascii -> bool) (s : string) : bool :=
  match s with
  | EmptyString => true
  | String c r => p c && string_forallb p r
  end.

Fixpoint repeat_char (c : ascii) (n : nat) : string :=
  match n with
  | O => EmptyString
  | S k => String c (repeat_char c k)
  end.

(** The first [n] characters of [s], and the rest. *)
Fixpoint take (n : nat) (s : string) : string :=
  match n, s with
  | S k, String c r => String c (take k r)
  | _, _ => EmptyString
  end.

Fixpoint drop (n : nat) (s : string) : string :=
  match n, s with
  | S k, String _ r => drop k r
  | _, _ => s
  end.

(** JavaScript truthiness of a string, and [a || b] on strings where the
    left operand may be [undefined]. *)
Definition str_truthy (s : string) : bool :=
  match s with EmptyString => false | _ => true end.

Definition str_or (a : option string) (b : string) : string :=
  match a with
  | Some s => if str_truthy s then s else b
  | None => b
  end.

(* ------------------------------------------------------------------ *)
(** ** Decimal numerals *)

(** The value of a run of decimal digits read left to right. *)
Fixpoint digits_value (acc : Z) (s : string) : Z :=
  match s with
  | EmptyString => acc
  | String c r => digits_value (acc * 10 + digit_val c) r
  end.

(** The longest prefix of digits, and what follows it. *)
Fixpoint span_digits (s : string) : string * string :=
  match s with
  | String c r =>
      if is_digit c then let (d, rest) := span_digits r in (String c d, rest)
      else (EmptyString, s)
  | EmptyString => (EmptyString, EmptyString)
  end.

Fixpoint digits_fuel (fuel : nat) (n : Z) (acc : string) : string :=
  match fuel with
  | O => acc
  | S f =>
      if n <? 10 then String (digit_chr n) acc
      else digits_fuel f (n / 10) (String (digit_chr (n mod 10)) acc)
  end.

(** The decimal numeral of a natural number [n >= 0], no leading zero. *)
Definition digits_of (n : Z) : string :=
  digits_fuel (S (Z.to_nat (Z.log2 n))) n EmptyString.

(** The numeral of an integer, as [String(n)] and template literals print. *)
Definition string_of_Z (n : Z) : string :=
  if n <? 0 then String "-" (digits_of (- n)) else digits_of n.

(** [s.padStart(n, "0")]. *)
Definition pad_zeros (n : nat) (s : string) : string :=
  repeat_char "0" (n - String.length s) ++ s.

(** A numeral without its trailing zeros, and how many were dropped. *)
Fixpoint strip_trailing_zeros (s : string) : string * nat :=
  match s with
  | EmptyString => (EmptyString, O)
  | String c r =>
      let (r', n) := strip_trailing_zeros r in
      match r' with
      | EmptyString =>
          if Ascii.eqb c "0" then (EmptyString, S n)
          else (String c EmptyString, n)
      | _ => (String c r', n)
      end
  end.

(* ------------------------------------------------------------------ *)
(** ** Numbers *)

(** A finite decimal [dmant / 10 ^ dscale]. *)
Record dec : Type := Dec { dmant : Z; dscale : nat }.

Definition pow10 (k : nat) : Z := 10 ^ Z.of_nat k.

(** The canonical representation: no trailing zero in the fraction. *)
Fixpoint dnorm (m : Z) (k : nat) : dec :=
  match k with
  | O => Dec m O
  | S k' => if m mod 10 =? 0 then dnorm (m / 10) k' else Dec m k
  end.

Definition canonical (d : dec) : Prop := dnorm (dmant d) (dscale d) = d.

Definition dzero : dec := Dec 0 0.

Definition dec_of_Z (n : Z) : dec := Dec n 0.

(** [m * 10 ^ e] for an integer exponent [e]. *)
Definition dec_sci (m e : Z) : dec :=
  if 0 <=? e then Dec (m * 10 ^ e) O else dnorm m (Z.to_nat (- e)).

Definition dadd (a b : dec) : dec :=
  let k := Nat.max (dscale a) (dscale b) in
  dnorm (dmant a * pow10 (k - dscale a) + dmant b * pow10 (k - dscale b)) k.

Definition dneg (a : dec) : dec := Dec (- dmant a) (dscale a).

Definition dabs (a : dec) : dec := Dec (Z.abs (dmant a)) (dscale a).

Definition dcompare (a b : dec) : comparison :=
  (dmant a * pow10 (dscale b)) ?= (dmant b * pow10 (dscale a)).

Definition dltb (a b : dec) : bool :=
  match dcompare a b with Lt => true | _ => false end.

Definition dleb (a b : dec) : bool :=
  match dcompare a b with Gt => false | _ => true end.

Definition dle (a b : dec) : Prop :=
  dmant a * pow10 (dscale b) <= dmant b * pow10 (dscale a).

(** A JavaScript number. *)
Inductive number : Type :=
| NaN : number
| PInf : number
| NInf : number
| Fin : dec -> number.

(** Magnitudes from [2^1024 - 2^970] on round to an infinity in binary64. *)
Definition overflow_bound : Z := 2 ^ 1024 - 2 ^ 970.

Definition fin (d : dec) : number :=
  if dleb (dec_of_Z overflow_bound) d then PInf
  else if dleb d (dec_of_Z (- overflow_bound)) then NInf
  else Fin d.

Definition num_zero : number := Fin dzero.

Definition num_of_Z (n : Z) : number := fin (dec_of_Z n).

Definition num_neg (x : number) : number :=
  match x with
  | NaN => NaN
  | PInf => NInf
  | NInf => PInf
  | Fin d => Fin (dneg d)
  end.

(** [Math.abs]. *)
Definition num_abs (x : number) : number :=
  match x with
  | NaN => NaN
  | PInf | NInf => PInf
  | Fin d => Fin (dabs d)
  end.

(** [x + y]. *)
Definition num_add (x y : number) : number :=
  match x, y with
  | NaN, _ | _, NaN => NaN
  | PInf, NInf | NInf, PInf => NaN
  | PInf, _ | _, PInf => PInf
  | NInf, _ | _, NInf => NInf
  | Fin a, Fin b => fin (dadd a b)
  end.

(** [x - y]. *)
Definition num_sub (x y : number) : number := num_add x (num_neg y).

(** [x < y]; false as soon as one side is [NaN]. *)
Definition num_ltb (x y : number) : bool :=
  match x, y with
  | NaN, _ | _, NaN => false
  | _, NInf => false
  | NInf, _ => true
  | PInf, _ => false
  | _, PInf => true
  | Fin a, Fin b => dltb a b
  end.

(** [x > y]. *)
Definition num_gtb (x y : number) : bool := num_ltb y x.

(** [x === y]. *)
Definition num_eqb (x y : number) : bool :=
  match x, y with
  | PInf, PInf | NInf, NInf => true
  | Fin a, Fin b => match dcompare a b with Eq => true | _ => false end
  | _, _ => false
  end.

(** The order of the extended reals, on numbers that are not [NaN]. *)
Definition num_le (x y : number) : Prop :=
  match x, y with
  | NaN, _ | _, NaN => False
  | NInf, _ | _, PInf => True
  | _, NInf | PInf, _ => False
  | Fin a, Fin b => dle a b
  end.

Definition is_NaN (x : number) : bool :=
  match x with NaN => true | _ => false end.

Definition is_finite (x : number) : bool :=
  match x with Fin _ => true | _ => false end.

(** Truthiness: [NaN] and zero are falsy. *)
Definition num_truthy (x : number) : bool :=
  match x with
  | NaN => false
  | Fin d => negb (dmant d =? 0)
  | _ => true
  end.

(** [x || y] on numbers. *)
Definition num_or (x y : number) : number := if num_truthy x then x else y.

(* ------------------------------------------------------------------ *)
(** ** Printing and reading numbers *)

(** [Number::toString] of a positive finite decimal (ECMA-262 6.1.6.1.20):
    with digits [ds] (no trailing zero, [k] of them) and the decimal point
    after the [n]-th digit. *)
Definition pos_dec_toString (d : dec) : string :=
  let all := digits_of (dmant d) in
  let (ds, _) := strip_trailing_zeros all in
  let k := Z.of_nat (String.length ds) in
  let n := Z.of_nat (String.length all) - Z.of_nat (dscale d) in
  if (k <=? n) && (n <=? 21) then
    ds ++ repeat_char "0" (Z.to_nat (n - k))
  else if (0 <? n) && (n <=? 21) then
    take (Z.to_nat n) ds ++ "." ++ drop (Z.to_nat n) ds
  else if (-6 <? n) && (n <=? 0) then
    "0." ++ repeat_char "0" (Z.to_nat (- n)) ++ ds
  else
    let e := n - 1 in
    let es := (if e <? 0 then "-" else "+") ++ digits_of (Z.abs e) in
    match ds with
    | String c EmptyString => String c ("e" ++ es)
    | String c r => String c ("." ++ r ++ "e" ++ es)
    | EmptyString => EmptyString
    end.

Definition Number_toString (x : number) : string :=
  match x with
  | NaN => "NaN"
  | PInf => "Infinity"
  | NInf => "-Infinity"
  | Fin d =>
      if dmant d =? 0 then "0"
      else if dmant d <? 0 then "-" ++ pos_dec_toString (dabs d)
      else pos_dec_toString d
  end.

(** The integer [n] nearest to [d * 10 ^ f] for [d >= 0], the larger one on
    a tie. *)
Definition round_scaled (d : dec) (f : nat) : Z :=
  if (dscale d <=? f)%nat then dmant d * pow10 (f - dscale d)
  else
    let p := pow10 (dscale d - f) in
    (dmant d + p / 2) / p.

(** [x.toFixed(f)] (ECMA-262 21.1.3.3), for [0 <= f <= 100]. *)
Definition toFixed (x : number) (f : nat) : string :=
  match x with
  | Fin d =>
      let s := if dmant d <? 0 then "-" else "" in
      let a := dabs d in
      if dleb (dec_of_Z (10 ^ 21)) a then s ++ pos_dec_toString a
      else
        let m := digits_of (round_scaled a f) in
        match f with
        | O => s ++ m
        | _ =>
            let m' := pad_zeros (S f) m in
            let k := String.length m' in
            s ++ take (k - f) m' ++ "." ++ drop (k - f) m'
        end
  | _ => Number_toString x
  end.

(** The white space [parseFloat] skips (the ASCII part of it). *)
Definition is_space (c : ascii) : bool :=
  ((9 <=? code c) && (code c <=? 13)) || (code c =? 32).

Fixpoint skip_spaces (s : string) : string :=
  match s with
  | String c r => if is_space c then skip_spaces r else s
  | EmptyString => s
  end.

(** An optional sign: [true] for a minus. *)
Definition read_sign (s : string) : bool * string :=
  match s with
  | String c r =>
      if Ascii.eqb c "-" then (true, r)
      else if Ascii.eqb c "+" then (false, r)
      else (false, s)
  | EmptyString => (false, s)
  end.

(** An exponent part [e±ddd] when one is there, its value and what follows;
    otherwise exponent 0 and the input. *)
Definition read_exponent (s : string) : Z * string :=
  match s with
  | String c r =>
      if Ascii.eqb c "e" || Ascii.eqb c "E" then
        let (neg, r1) := read_sign r in
        let (ds, r2) := span_digits r1 in
        match ds with
        | EmptyString => (0, s)
        | _ => ((if neg then - digits_value 0 ds else digits_value 0 ds), r2)
        end
      else (0, s)
  | EmptyString => (0, s)
  end.

(** The longest prefix that is an unsigned decimal literal: its mantissa and
    decimal exponent, and the rest of the input. *)
Definition read_unsigned (s : string) : option (Z * Z * string) :=
  let (ip, r1) := span_digits s in
  let (fp, r2) :=
    match r1 with
    | String c r =>
        if Ascii.eqb c "." then span_digits r else (EmptyString, r1)
    | EmptyString => (EmptyString, r1)
    end in
  match ip, fp with
  | EmptyString, EmptyString => None
  | _, _ =>
      let (e, r3) := read_exponent r2 in
      Some (digits_value 0 (ip ++ fp), e - Z.of_nat (String.length fp), r3)
  end.

(** [parseFloat(s)]: the longest prefix of the trimmed string that is a
    decimal literal; [NaN] when there is none. *)
Definition parseFloat (s : string) : number :=
  let (neg, r) := read_sign (skip_spaces s) in
  if startsWith r "Infinity" then (if neg then NInf else PInf)
  else
    match read_unsigned r with
    | None => NaN
    | Some (m, e, _) => fin (dec_sci (if neg then - m else m) e)
    end.

(* ------------------------------------------------------------------ *)
(** ** [Array.prototype.sort] *)

(** [sort] is stable and orders by the sign of the comparator, a [NaN]
    result counting as zero.  For a consistent comparator every
    implementation returns the result of this insertion sort. *)
Fixpoint sort_insert {A : Type} (cmp : A -> A -> number) (x : A) (l : list A)
  : list A :=
  match l with
  | [] => [x]
  | y :: r =>
      if num_gtb (cmp x y) num_zero then y :: sort_insert cmp x r else x :: l
  end.

Definition js_sort {A : Type} (cmp : A -> A -> number) (l : list A) : list A :=
  fold_right (sort_insert cmp) [] l.

(* ------------------------------------------------------------------ *)
(** ** Dates *)

Definition msPerDay : Z := 86400000.

(** Days since 1970-01-01 of a proleptic Gregorian date (month 1..12). *)
Definition days_from_civil (y m d : Z) : Z :=
  let y' := if m <=? 2 then y - 1 else y in
  let era := y' / 400 in
  let yoe := y' - era * 400 in
  let doy := (153 * (if 2 <? m then m - 3 else m + 9) + 2) / 5 + d - 1 in
  let doe := yoe * 365 + yoe / 4 - yoe / 100 + doy in
  era * 146097 + doe - 719468.

(** The inverse: year, month (1..12) and day of a day number. *)
Definition civil_from_days (z : Z) : Z * Z * Z :=
  let z' := z + 719468 in
  let era := z' / 146097 in
  let doe := z' - era * 146097 in
  let yoe := (doe - doe / 1460 + doe / 36524 - doe / 146096) / 365 in
  let doy := doe - (365 * yoe + yoe / 4 - yoe / 100) in
  let mp := (5 * doy + 2) / 153 in
  let d := doy - (153 * mp + 2) / 5 + 1 in
  let m := if mp <? 10 then mp + 3 else mp - 9 in
  (yoe + era * 400 + (if m <=? 2 then 1 else 0), m, d).

Definition Day (t : Z) : Z := t / msPerDay.

Definition YearFromTime (t : Z) : Z :=
  let '(y, _, _) := civil_from_days (Day t) in y.

(** 0 for January. *)
Definition MonthFromTime (t : Z) : Z :=
  let '(_, m, _) := civil_from_days (Day t) in m - 1.

Definition DateFromTime (t : Z) : Z :=
  let '(_, _, d) := civil_from_days (Day t) in d.

(** [MakeDay(year, month, date)] with a 0-based month. *)
Definition MakeDay (year month date : Z) : Z :=
  days_from_civil (year + month / 12) (month mod 12 + 1) 1 + date - 1.

(** A time value outside +-8.64e15 ms is not a date. *)
Definition TimeClip (t : Z) : option Z :=
  if Z.abs t <=? 8640000000000000 then Some t else None.

(** What the standard leaves to the host: how a date string is read (the
    time value in ms since the epoch, [None] for an invalid date), and the
    offset of local time, at a UTC instant ([true]) or at a local time
    ([false]). *)
Record Host : Type := {
  Date_parse : string -> option Z;
  LocalTZA : Z -> bool -> Z
}.

(** A [Date] object is its time value; [None] is the invalid date. *)
Definition Date : Type := option Z.

Definition LocalTime (h : Host) (t : Z) : Z := t + LocalTZA h t true.

Definition UTC (h : Host) (t : Z) : Z := t - LocalTZA h t false.

(** [new Date(s)]. *)
Definition new_Date (h : Host) (s : string) : Date := Date_parse h s.

(** [d.getFullYear()], [d.getMonth()], [d.getTime()]; [None] is [NaN]. *)
Definition getFullYear (h : Host) (d : Date) : option Z :=
  option_map (fun t => YearFromTime (LocalTime h t)) d.

Definition getMonth (h : Host) (d : Date) : option Z :=
  option_map (fun t => MonthFromTime (LocalTime h t)) d.

Definition getTime (d : Date) : option Z := d.

(** [new Date(year, month, date)]: years 0..99 mean 1900..1999. *)
Definition new_Date_ymd (h : Host) (year : option Z) (month date : Z) : Date :=
  match year with
  | None => None
  | Some y =>
      let yr := if (0 <=? y) && (y <=? 99) then 1900 + y else y in
      TimeClip (UTC h (MakeDay yr month date * msPerDay))
  end.

(** [x === y] on years, where [None] is [NaN]. *)
Definition year_eqb (x y : option Z) : bool :=
  match x, y with
  | Some a, Some b => a =? b
  | _, _ => false
  end.

(** Equality of two years used as property keys ([NaN] is the key "NaN"). *)
Definition key_eqb (x y : option Z) : bool :=
  match x, y with
  | Some a, Some b => a =? b
  | None, None => true
  | _, _ => false
  end.

(** *** The reference host: UTC, ISO date-only strings *)

Definition is_leap (y : Z) : bool :=
  ((y mod 4 =? 0) && negb (y mod 100 =? 0)) || (y mod 400 =? 0).

Definition days_in_month (y m : Z) : Z :=
  if m =? 2 then (if is_leap y then 29 else 28)
  else if (m =? 4) || (m =? 6) || (m =? 9) || (m =? 11) then 30
  else 31.

(** Exactly [n] digits at the head of [s]: their value and the rest. *)
Definition read_digits (n : nat) (s : string) : option (Z * string) :=
  let d := take n s in
  if (String.length d =? n)%nat && string_forallb is_digit d
  then Some (digits_value 0 d, drop n s) else None.

Definition valid_ymd (y m d : Z) : option Z :=
  if (1 <=? m) && (m <=? 12) && (1 <=? d) && (d <=? days_in_month y m)
  then Some (days_from_civil y m d * msPerDay) else None.

(** The date-only forms [YYYY], [YYYY-MM] and [YYYY-MM-DD] of the ISO
    format, which every engine reads as midnight UTC. *)
Definition iso_date_parse (s : string) : option Z :=
  match read_digits 4 s with
  | None => None
  | Some (y, EmptyString) => valid_ymd y 1 1
  | Some (y, String "-" r) =>
      match read_digits 2 r with
      | None => None
      | Some (m, EmptyString) => valid_ymd y m 1
      | Some (m, String "-" r') =>
          match read_digits 2 r' with
          | Some (d, EmptyString) => valid_ymd y m d
          | _ => None
          end
      | Some _ => None
      end
  | Some _ => None
  end.

Definition utc_host : Host :=
  {| Date_parse := iso_date_parse; LocalTZA := fun _ _ => 0 |}.

(** [new Date(t).toISOString().split('T')[0]] for a time value [t]. *)
Definition toISOString_date (t : Z) : string :=
  let '(y, m, d) := civil_from_days (Day t) in
  let ys :=
    if (0 <=? y) && (y <=? 9999) then pad_zeros 4 (digits_of y)
    else (if y <? 0 then "-" else "+") ++ pad_zeros 6 (digits_of (Z.abs y)) in
  ys ++ "-" ++ pad_zeros 2 (digits_of m) ++ "-" ++ pad_zeros 2 (digits_of d).

(* ------------------------------------------------------------------ *)
(** ** Objects used as maps *)

(** A JavaScript object used as a map: [obj_set] is [o[k] = v] (a present
    key keeps its place), [obj_get] is [o[k]], [None] for [undefined]. *)
Section Obj.
Context {K V : Type} (eqb : K -> K -> bool).

Fixpoint obj_get (k : K) (o : list (K * V)) : option V :=
  match o with
  | [] => None
  | (k', v) :: r => if eqb k k' then Some v else obj_get k r
  end.

Fixpoint obj_set (k : K) (v : V) (o : list (K * V)) : list (K * V) :=
  match o with
  | [] => [(k, v)]
  | (k', v') :: r =>
      if eqb k k' then (k', v) :: r else (k', v') :: obj_set k v r
  end.

(** [keys.forEach(k => { o[k] = f(k) })] starting from [o]. *)
Definition obj_fill (f : K -> V) (keys : list K) (o : list (K * V))
  : list (K * V) :=
  fold_left (fun acc k => obj_set k (f k) acc) keys o.

End Obj.

(* ------------------------------------------------------------------ *)
(** ** Types and constants (src/index.tsx, lines 15-34) *)

Record Expense : Type := {
  id : string;
  date : string;
  description : string;
  amount : number;
  category : string;
  account : string
}.

Definition CATEGORIES : list string :=
  [ "Groceries"; "Rent"; "Utilities"; "Transportation"; "Entertainment";
    "Healthcare"; "Shopping"; "Dining"; "Travel"; "Subscriptions";
    "Income"; "Transfer"; "Other" ].

(* ------------------------------------------------------------------ *)
(** ** Utilities (lines 37-56) *)

(** [getDayOfYear]: whole days between the date and the last day of the
    year before ([new Date(year, 0, 0)]); [None] is [NaN]. *)
Definition getDayOfYear (h : Host) (d : Date) : option Z :=
  let start := new_Date_ymd h (getFullYear h d) 0 0 in
  match getTime d, getTime start with
  | Some t, Some s => Some ((t - s) / msPerDay)
  | _, _ => None
  end.

Definition getMonthName (monthIndex : nat) : option string :=
  nth_error
    [ "Jan"; "Feb"; "Mar"; "Apr"; "May"; "Jun";
      "Jul"; "Aug"; "Sep"; "Oct"; "Nov"; "Dec" ] monthIndex.

(** The five-number summary; a field is [None] where indexing the sorted
    array gives [undefined]. *)
Record BoxPlot : Type := {
  min : option number;
  q1 : option number;
  median : option number;
  q3 : option number;
  max : option number
}.

Definition getBoxPlotData (data : list number) : BoxPlot :=
  match data with
  | [] =>
      {| min := Some num_zero; q1 := Some num_zero; median := Some num_zero;
         q3 := Some num_zero; max := Some num_zero |}
  | _ =>
      let sorted := js_sort (fun a b => num_sub a b) data in
      let n := List.length sorted in
      {| min := nth_error sorted 0;
         q1 := nth_error sorted (n / 4);
         median := nth_error sorted (n / 2);
         q3 := nth_error sorted ((n * 3) / 4);
         max := nth_error sorted (n - 1) |}
  end.

(* ------------------------------------------------------------------ *)
(** ** The aggregate views (lines 60-204) *)

(** [new Date(e.date).getFullYear() === y]. *)
Definition in_year (h : Host) (y : option Z) (e : Expense) : bool :=
  year_eqb (getFullYear h (new_Date h (date e))) y.

(** [d.getFullYear() === y && d.getMonth() === m] for [d = new Date(e.date)]. *)
Definition in_year_month (h : Host) (y : option Z) (m : nat) (e : Expense)
  : bool :=
  let d := new_Date h (date e) in
  year_eqb (getFullYear h d) y &&
  match getMonth h d with Some k => k =? Z.of_nat m | None => false end.

(** [l.reduce((sum, e) => sum + e.amount, 0)]. *)
Definition sum_amounts (l : list Expense) : number :=
  fold_left (fun s e => num_add s (amount e)) l num_zero.

(** *** Seasonality *)

Record SeasonEntry : Type := {
  month : option string;
  season_values : list (option Z * number)
}.

Definition season_total (h : Host) (expenses : list Expense)
    (y : option Z) (m : nat) : number :=
  sum_amounts (filter (in_year_month h y m) expenses).

Definition SeasonalityChart (h : Host) (expenses : list Expense)
    (years : list (option Z)) : list SeasonEntry :=
  map (fun m =>
         {| month := getMonthName m;
            season_values :=
              obj_fill key_eqb
                (fun y => parseFloat (toFixed (season_total h expenses y m) 2))
                years [] |})
      (seq 0 12).

(** *** Intensity heatmap *)

Record Heatmap : Type := {
  gridData : list (option Z * list (nat * number));
  maxVal : number
}.

(** The body of [months.forEach] for year [y]: the row of [y] gets cell
    [m], and the running maximum is raised. *)
Definition heatmap_cell (h : Host) (expenses : list Expense) (y : option Z)
    (st : list (nat * number) * number) (m : nat)
  : list (nat * number) * number :=
  let t := sum_amounts (filter (in_year_month h y m) expenses) in
  (obj_set Nat.eqb m t (fst st),
   if num_gtb t (snd st) then t else snd st).

Definition heatmap_year (h : Host) (expenses : list Expense)
    (st : list (option Z * list (nat * number)) * number) (y : option Z)
  : list (option Z * list (nat * number)) * number :=
  let months := seq 0 12 in
  let '(row, mx) :=
    fold_left (heatmap_cell h expenses y) months ([], snd st) in
  (obj_set key_eqb y row (fst st), mx).

Definition HeatmapTable (h : Host) (expenses : list Expense)
    (years : list (option Z)) : Heatmap :=
  let '(data, globalMax) :=
    fold_left (heatmap_year h expenses) years ([], num_zero) in
  {| gridData := data; maxVal := globalMax |}.

(** [gridData[y][m]]. *)
Definition heatmap_get (g : Heatmap) (y : option Z) (m : nat) : option number :=
  match obj_get key_eqb y (gridData g) with
  | Some row => obj_get Nat.eqb m row
  | None => None
  end.

(** *** Pace of spending *)

(** [arr[i] += v]; an index outside the array is never used by the caller. *)
Fixpoint add_at (i : nat) (v : number) (arr : list number) : list number :=
  match arr, i with
  | [], _ => []
  | a :: r, O => num_add a v :: r
  | a :: r, S k => a :: add_at k v r
  end.

(** The body of the first [forEach]: the day's bucket gets the amount when
    the day of year is within 0..366. *)
Definition pace_bucket (h : Host) (arr : list number) (e : Expense)
  : list number :=
  match getDayOfYear h (new_Date h (date e)) with
  | Some day =>
      if (0 <=? day) && (day <=? 366)
      then add_at (Z.to_nat day) (amount e) arr else arr
  | None => arr
  end.

(** [for (i = 0; i <= 366; i++) { curr += arr[i]; arr[i] = curr; }] *)
Fixpoint cumulate (curr : number) (arr : list number) : list number :=
  match arr with
  | [] => []
  | a :: r => let c := num_add curr a in c :: cumulate c r
  end.

Definition year_cumulative (h : Host) (expenses : list Expense)
    (y : option Z) : list number :=
  let arr := repeat num_zero 367 in
  cumulate num_zero
    (fold_left (pace_bucket h) (filter (in_year h y) expenses) arr).

Record PaceEntry : Type := {
  day : Z;
  pace_values : list (option Z * number)
}.

(** [parseFloat(yearCumulative[y][d]?.toFixed(0) || '0')].  The array of
    [y] is always there, [y] being one of the years just filled in. *)
Definition pace_sample (yearCumulative : list (option Z * list number))
    (d : nat) (y : option Z) : number :=
  parseFloat
    (str_or
       (match obj_get key_eqb y yearCumulative with
        | Some arr => option_map (fun v => toFixed v 0) (nth_error arr d)
        | None => None
        end)
       "0").

Definition PaceOfSpendingChart (h : Host) (expenses : list Expense)
    (years : list (option Z)) : list PaceEntry :=
  let yearCumulative :=
    obj_fill key_eqb (year_cumulative h expenses) years [] in
  map (fun i =>
         let d := (i * 5)%nat in
         {| day := Z.of_nat d;
            pace_values :=
              obj_fill key_eqb (pace_sample yearCumulative d) years [] |})
      (seq 0 74).

(** *** Category comparison *)

Record CategoryEntry : Type := {
  entry_category : string;
  category_values : list (option Z * number)
}.

Definition category_total (h : Host) (expenses : list Expense)
    (cat : string) (y : option Z) : number :=
  sum_amounts
    (filter (fun e => String.eqb (category e) cat && in_year h y e) expenses).

(** [d[y]] for a year [y]. *)
Definition entry_get (d : CategoryEntry) (y : option Z) : option number :=
  obj_get key_eqb y (category_values d).

(** [d[y] > 0]: [undefined > 0] is false. *)
Definition entry_positive (d : CategoryEntry) (y : option Z) : bool :=
  match entry_get d y with
  | Some v => num_gtb v num_zero
  | None => false
  end.

(** [d[currentYear] || 0], where [currentYear = years[0]] is [undefined]
    for an empty list (and then so is the property). *)
Definition sort_key (currentYear : option (option Z)) (d : CategoryEntry)
  : number :=
  match currentYear with
  | Some y =>
      match entry_get d y with
      | Some v => num_or v num_zero
      | None => num_zero
      end
  | None => num_zero
  end.

Definition category_entry (h : Host) (expenses : list Expense)
    (years : list (option Z)) (cat : string) : CategoryEntry :=
  {| entry_category := cat;
     category_values :=
       obj_fill key_eqb
         (fun y => parseFloat (toFixed (category_total h expenses cat y) 2))
         years [] |}.

Definition CategoryComparisonChart (h : Host) (expenses : list Expense)
    (years : list (option Z)) : list CategoryEntry :=
  let currentYear := hd_error years in
  js_sort
    (fun a b => num_sub (sort_key currentYear b) (sort_key currentYear a))
    (filter (fun d => existsb (entry_positive d) years)
       (map (category_entry h expenses years) CATEGORIES)).

(** *** Transaction distribution *)

Record BoxEntry : Type := {
  year : option Z;
  box : BoxPlot
}.

Definition year_amounts (h : Host) (expenses : list Expense) (y : option Z)
  : list number :=
  map amount (filter (in_year h y) expenses).

Definition TransactionBoxPlot (h : Host) (expenses : list Expense)
    (years : list (option Z)) : list BoxEntry :=
  map (fun y => {| year := y; box := getBoxPlotData (year_amounts h expenses y) |})
      years.

(* ------------------------------------------------------------------ *)
(** ** JSON *)

(** The values [JSON.parse] builds and [JSON.stringify] prints.  An object
    keeps its members in the order of the text. *)
#[local] Set Warnings "-register-all".

Inductive json : Type :=
| JNull : json
| JBool : bool -> json
| JNum : number -> json
| JStr : string -> json
| JArr : list json -> json
| JObj : list (string * json) -> json.

Definition backslash : ascii := chr 92.

Definition hex_chr (d : Z) : ascii :=
  if d <? 10 then chr (48 + d) else chr (87 + d).

Definition hex_val (c : ascii) : option Z :=
  let n := code c in
  if (48 <=? n) && (n <=? 57) then Some (n - 48)
  else if (97 <=? n) && (n <=? 102) then Some (n - 87)
  else if (65 <=? n) && (n <=? 70) then Some (n - 55)
  else None.

Definition hex4 (a b c d : ascii) : option Z :=
  match hex_val a, hex_val b, hex_val c, hex_val d with
  | Some x, Some y, Some z, Some w => Some (((x * 16 + y) * 16 + z) * 16 + w)
  | _, _, _, _ => None
  end.

(** *** [JSON.stringify] *)

(** One character inside a JSON string literal (QuoteJSONString). *)
Definition quote_char (c : ascii) : string :=
  let n := code c in
  if n =? 8 then String backslash "b"
  else if n =? 9 then String backslash "t"
  else if n =? 10 then String backslash "n"
  else if n =? 12 then String backslash "f"
  else if n =? 13 then String backslash "r"
  else if n =? 34 then String backslash (String dquote EmptyString)
  else if n =? 92 then String backslash (String backslash EmptyString)
  else if n <? 32 then
    String backslash ("u00" ++ String (hex_chr (n / 16))
                                 (String (hex_chr (n mod 16)) EmptyString))
  else String c EmptyString.

Fixpoint quote_chars (s : string) : string :=
  match s with
  | EmptyString => EmptyString
  | String c r => quote_char c ++ quote_chars r
  end.

Definition quote (s : string) : string :=
  String dquote (quote_chars s ++ String dquote EmptyString).

(** A number that is not finite is printed as [null]. *)
Fixpoint JSON_stringify (v : json) : string :=
  match v with
  | JNull => "null"
  | JBool true => "true"
  | JBool false => "false"
  | JNum x => if is_finite x then Number_toString x else "null"
  | JStr s => quote s
  | JArr l =>
      match l with
      | [] => "[]"
      | x :: r =>
          "[" ++ JSON_stringify x ++
          (fix tail (r : list json) : string :=
             match r with
             | [] => "]"
             | y :: r' => "," ++ JSON_stringify y ++ tail r'
             end) r
      end
  | JObj l =>
      match l with
      | [] => "{}"
      | (k, x) :: r =>
          "{" ++ quote k ++ ":" ++ JSON_stringify x ++
          (fix tail (r : list (string * json)) : string :=
             match r with
             | [] => "}"
             | (k', y) :: r' =>
                 "," ++ quote k' ++ ":" ++ JSON_stringify y ++ tail r'
             end) r
      end
  end.

(** *** [JSON.parse] *)

Definition is_json_space (c : ascii) : bool :=
  let n := code c in (n =? 32) || (n =? 9) || (n =? 10) || (n =? 13).

Fixpoint skip_ws (s : string) : string :=
  match s with
  | String c r => if is_json_space c then skip_ws r else s
  | EmptyString => s
  end.

(** The UTF-8 bytes of a code point below 0x110000 (a lone surrogate gets
    the three bytes its value would have). *)
Definition utf8 (n : Z) : string :=
  if n <? 128 then String (chr n) EmptyString
  else if n <? 2048 then
    String (chr (192 + n / 64)) (String (chr (128 + n mod 64)) EmptyString)
  else if n <? 65536 then
    String (chr (224 + n / 4096))
      (String (chr (128 + (n / 64) mod 64))
         (String (chr (128 + n mod 64)) EmptyString))
  else
    String (chr (240 + n / 262144))
      (String (chr (128 + (n / 4096) mod 64))
         (String (chr (128 + (n / 64) mod 64))
            (String (chr (128 + n mod 64)) EmptyString))).

(** A low surrogate escape at the head of [s], and what follows it. *)
Definition read_low_surrogate (s : string) : option Z :=
  match s with
  | String b (String "u" (String a1 (String a2 (String a3 (String a4 _))))) =>
      if Ascii.eqb b backslash then
        match hex4 a1 a2 a3 a4 with
        | Some lo => if (56320 <=? lo) && (lo <=? 57343) then Some lo else None
        | None => None
        end
      else None
  | _ => None
  end.

(** The characters of a string literal after its opening quote, up to the
    closing quote, and the text after it. *)
Fixpoint parse_chars (s : string) : option (string * string) :=
  match s with
  | EmptyString => None
  | String c r =>
      if Ascii.eqb c dquote then Some (EmptyString, r)
      else if Ascii.eqb c backslash then
        match r with
        | String "u" (String a1 (String a2 (String a3 (String a4 r')))) =>
            match hex4 a1 a2 a3 a4 with
            | None => None
            | Some hi =>
                match
                  (if (55296 <=? hi) && (hi <=? 56319)
                   then read_low_surrogate r' else None), r'
                with
                | Some lo,
                  String _ (String _ (String _ (String _ (String _ (String _ r''))))) =>
                    match parse_chars r'' with
                    | Some (t, rest) =>
                        Some (utf8 (65536 + (hi - 55296) * 1024 + (lo - 56320)) ++ t,
                              rest)
                    | None => None
                    end
                | _, _ =>
                    match parse_chars r' with
                    | Some (t, rest) => Some (utf8 hi ++ t, rest)
                    | None => None
                    end
                end
            end
        | String e r' =>
            let unescaped :=
              if Ascii.eqb e dquote then Some dquote
              else if Ascii.eqb e backslash then Some backslash
              else if Ascii.eqb e "/" then Some "/"%char
              else if Ascii.eqb e "b" then Some (chr 8)
              else if Ascii.eqb e "f" then Some (chr 12)
              else if Ascii.eqb e "n" then Some (chr 10)
              else if Ascii.eqb e "r" then Some (chr 13)
              else if Ascii.eqb e "t" then Some (chr 9)
              else None in
            match unescaped, parse_chars r' with
            | Some u, Some (t, rest) => Some (String u t, rest)
            | _, _ => None
            end
        | EmptyString => None
        end
      else if code c <? 32 then None
      else
        match parse_chars r with
        | Some (t, rest) => Some (String c t, rest)
        | None => None
        end
  end.

(** A JSON number after its sign: [int frac? exp?], no leading zero,
    digits on both sides of a point and after an exponent mark. *)
Definition parse_unsigned (neg : bool) (r0 : string)
  : option (number * string) :=
  let (ip, r1) := span_digits r0 in
  match ip with
  | EmptyString => None
  | String c ip' =>
      if Ascii.eqb c "0" && str_truthy ip' then None
      else
        let frac :=
          match r1 with
          | String c' r =>
              if Ascii.eqb c' "." then
                let (fp, r2) := span_digits r in
                if str_truthy fp then Some (fp, r2) else None
              else Some (EmptyString, r1)
          | EmptyString => Some (EmptyString, r1)
          end in
        match frac with
        | None => None
        | Some (fp, r2) =>
            let ex :=
              match r2 with
              | String c' r =>
                  if Ascii.eqb c' "e" || Ascii.eqb c' "E" then
                    let (eneg, r3) := read_sign r in
                    let (ds, r4) := span_digits r3 in
                    if str_truthy ds then
                      Some ((if eneg then - digits_value 0 ds
                             else digits_value 0 ds), r4)
                    else None
                  else Some (0, r2)
              | EmptyString => Some (0, r2)
              end in
            match ex with
            | None => None
            | Some (e, rest) =>
                let m := digits_value 0 (ip ++ fp) in
                Some (fin (dec_sci (if neg then - m else m)
                             (e - Z.of_nat (String.length fp))), rest)
            end
        end
  end.

(** A JSON number, with its optional minus sign. *)
Definition parse_number (s : string) : option (number * string) :=
  match s with
  | String c r =>
      if Ascii.eqb c "-" then parse_unsigned true r else parse_unsigned false s
  | EmptyString => None
  end.

(** The elements after the first one of an array, up to its bracket. *)
Fixpoint parse_elements (pv : string -> option (json * string)) (fuel : nat)
    (s : string) : option (list json * string) :=
  match fuel with
  | O => None
  | S f =>
      match skip_ws s with
      | String c r =>
          if Ascii.eqb c "]" then Some ([], r)
          else if Ascii.eqb c "," then
            match pv r with
            | Some (v, r1) =>
                match parse_elements pv f r1 with
                | Some (l, r2) => Some (v :: l, r2)
                | None => None
                end
            | None => None
            end
          else None
      | EmptyString => None
      end
  end.

(** One member [ "key" : value ] of an object. *)
Definition parse_member (pv : string -> option (json * string)) (s : string)
  : option (string * json * string) :=
  match skip_ws s with
  | String c r =>
      if Ascii.eqb c dquote then
        match parse_chars r with
        | Some (k, r1) =>
            match skip_ws r1 with
            | String c' r2 =>
                if Ascii.eqb c' ":" then
                  match pv r2 with
                  | Some (v, r3) => Some (k, v, r3)
                  | None => None
                  end
                else None
            | EmptyString => None
            end
        | None => None
        end
      else None
  | EmptyString => None
  end.

(** The members after the first one of an object, up to its brace. *)
Fixpoint parse_members (pv : string -> option (json * string)) (fuel : nat)
    (s : string) : option (list (string * json) * string) :=
  match fuel with
  | O => None
  | S f =>
      match skip_ws s with
      | String c r =>
          if Ascii.eqb c "}" then Some ([], r)
          else if Ascii.eqb c "," then
            match parse_member pv r with
            | Some (k, v, r1) =>
                match parse_members pv f r1 with
                | Some (l, r2) => Some ((k, v) :: l, r2)
                | None => None
                end
            | None => None
            end
          else None
      | EmptyString => None
      end
  end.

(** Whether the text, after white space, starts with the character. *)
Definition next_is (c : ascii) (s : string) : bool :=
  match skip_ws s with
  | String c' _ => Ascii.eqb c' c
  | EmptyString => false
  end.

(** A value, with leading white space; [fuel] bounds the nesting depth and
    the number of elements read at each level. *)
Fixpoint parse_value (fuel : nat) (s : string) : option (json * string) :=
  match fuel with
  | O => None
  | S f =>
      match skip_ws s with
      | EmptyString => None
      | String c r =>
          if Ascii.eqb c "n" then
            if startsWith r "ull" then Some (JNull, drop 3 r) else None
          else if Ascii.eqb c "t" then
            if startsWith r "rue" then Some (JBool true, drop 3 r) else None
          else if Ascii.eqb c "f" then
            if startsWith r "alse" then Some (JBool false, drop 4 r) else None
          else if Ascii.eqb c dquote then
            match parse_chars r with
            | Some (t, rest) => Some (JStr t, rest)
            | None => None
            end
          else if Ascii.eqb c "[" then
            if next_is "]" r then Some (JArr [], drop 1 (skip_ws r))
            else
              match parse_value f r with
              | Some (v, r1) =>
                  match parse_elements (parse_value f) f r1 with
                  | Some (l, r2) => Some (JArr (v :: l), r2)
                  | None => None
                  end
              | None => None
              end
          else if Ascii.eqb c "{" then
            if next_is "}" r then Some (JObj [], drop 1 (skip_ws r))
            else
              match parse_member (parse_value f) r with
              | Some (k, v, r1) =>
                  match parse_members (parse_value f) f r1 with
                  | Some (l, r2) => Some (JObj ((k, v) :: l), r2)
                  | None => None
                  end
              | None => None
              end
          else
            match parse_number (String c r) with
            | Some (x, rest) => Some (JNum x, rest)
            | None => None
            end
      end
  end.

(** [JSON.parse(s)]; [None] stands for the [SyntaxError] it throws.  The
    fuel is more than any text of this length can use. *)
Definition JSON_parse (s : string) : option json :=
  match parse_value (S (String.length s)) s with
  | Some (v, rest) =>
      match skip_ws rest with
      | EmptyString => Some v
      | _ => None
      end
  | None => None
  end.

(** [Array.isArray]. *)
Definition isArray (v : json) : bool :=
  match v with JArr _ => true | _ => false end.

(** [v[k]] on a parsed value; [None] is [undefined]. *)
Definition js_get (k : string) (v : json) : option json :=
  match v with
  | JObj l => obj_get String.eqb k l
  | _ => None
  end.

(* ------------------------------------------------------------------ *)
(** ** Import (lines 248-268 and 357-365) *)

(** A parsed CSV row: header to cell text ([row[k]] is [undefined] for a
    column the row does not have). *)
Definition Row : Type := list (string * string).

Definition row_get (k : string) (row : Row) : option string :=
  obj_get String.eqb k row.

(** The parse result held in [importing]: [data] and [meta.fields]. *)
Record Importing : Type := {
  data : list Row;
  fields : list string
}.

(** The confirmed mapping, canonical field to header. *)
Module Mapping.
Record t : Type := {
  date : string;
  amount : string;
  description : string;
  category : string
}.
End Mapping.

(** The characters [replace(/[^\d.-]/g, '')] keeps. *)
Definition amount_char (c : ascii) : bool :=
  is_digit c || Ascii.eqb c "." || Ascii.eqb c "-".

(** [String(row[mapping.amount] || '0').replace(/[^\d.-]/g, '')]. *)
Definition rawAmt (row : Row) (mapping : Mapping.t) : string :=
  string_filter amount_char (str_or (row_get (Mapping.amount mapping) row) "0").

Fixpoint mapi {A B : Type} (f : A -> nat -> B) (i : nat) (l : list A) : list B :=
  match l with
  | [] => []
  | x :: r => f x i :: mapi f (S i) r
  end.

(** The record built for row [i]; [now] is what [Date.now()] returns at
    that row and [today] the time value of [new Date()] there. *)
Definition normalize (now today : nat -> Z) (mapping : Mapping.t)
    (row : Row) (i : nat) : Expense :=
  {| id := "txn-" ++ string_of_Z (now i) ++ "-" ++ string_of_Z (Z.of_nat i);
     date := str_or (row_get (Mapping.date mapping) row)
                    (toISOString_date (today i));
     description := str_or (row_get (Mapping.description mapping) row) "No Desc";
     amount := num_or (num_abs (parseFloat (rawAmt row mapping))) num_zero;
     category := str_or (row_get (Mapping.category mapping) row) "Other";
     account := "Imported" |}.

(** [newEx] of [finishImport]: the rows normalized, those with
    [amount > 0] kept. *)
Definition finishImport (now today : nat -> Z) (importing : Importing)
    (mapping : Mapping.t) : list Expense :=
  filter (fun e => num_gtb (amount e) num_zero)
         (mapi (normalize now today mapping) O (data importing)).

(** The canonical fields of the mapping dialog. *)
Definition canonical_fields : list string :=
  [ "date"; "amount"; "description"; "category" ].

(** [fields.find(f => f.toLowerCase().includes(field)) || fields[0]]:
    the pre-selected header of a field, [None] for [undefined]. *)
Definition default_mapping (fields : list string) (field : string)
  : option string :=
  match find (fun f => includes (toLowerCase f) field) fields with
  | Some f => if str_truthy f then Some f else hd_error fields
  | None => hd_error fields
  end.

(* ------------------------------------------------------------------ *)
(** ** The store and its persistence (lines 229-244, 266, 328) *)

(** A record as the object the store holds. *)
Definition Expense_to_json (e : Expense) : json :=
  JObj [ ("id", JStr (id e));
         ("date", JStr (date e));
         ("description", JStr (description e));
         ("amount", JNum (amount e));
         ("category", JStr (category e));
         ("account", JStr (account e)) ].

(** The component state [expenses] and the text under the storage key
    ([None] before anything was stored). *)
Record AppState : Type := {
  expenses : list json;
  storage : option string
}.

(** How a piece of code ends: normally with a value, or by throwing. *)
Inductive completion (A : Type) : Type :=
| Normal : A -> completion A
| Throw : string -> completion A.

Arguments Normal {A} _.
Arguments Throw {A} _.

(** [try { body } catch (e) { handler(e) }]. *)
Definition try_catch {A : Type} (body : completion A)
    (handler : string -> completion A) : completion A :=
  match body with
  | Normal a => Normal a
  | Throw e => handler e
  end.

Definition bind {A B : Type} (c : completion A) (k : A -> completion B)
  : completion B :=
  match c with
  | Normal a => k a
  | Throw e => Throw e
  end.

(** [JSON.parse] with its exception. *)
Definition JSON_parse_or_throw (s : string) : completion json :=
  match JSON_parse s with
  | Some v => Normal v
  | None => Throw "SyntaxError"
  end.

(** What an effect did: the argument of [setExpenses] when it was called,
    and the lines written with [console.error]. *)
Record Effects : Type := {
  set_expenses : option (list json);
  console : list string
}.

(** The first effect (lines 234-242). *)
Definition load_effect (saved : option string) : completion Effects :=
  match saved with
  | None => Normal {| set_expenses := None; console := [] |}
  | Some s =>
      if str_truthy s then
        try_catch
          (bind (JSON_parse_or_throw s) (fun parsed =>
             Normal {| set_expenses :=
                         match parsed with
                         | JArr l => Some l
                         | _ => None
                         end;
                       console := [] |}))
          (fun e =>
             Normal {| set_expenses := None;
                       console := ["Persistence Load Error"] |})
      else Normal {| set_expenses := None; console := [] |}
  end.

(** The second effect: [localStorage.setItem(key, JSON.stringify(expenses))]. *)
Definition persist_effect (expenses : list json) : string :=
  JSON_stringify (JArr expenses).

(** A page load: the state starts empty, the first effect reads the
    storage, the second one writes the state back (first the empty one,
    then the loaded one once it is set).  Were the first effect to throw,
    nothing would be rendered or written. *)
Definition mount (stored : option string) : AppState * list string :=
  match load_effect stored with
  | Normal eff =>
      let ex := match set_expenses eff with Some l => l | None => [] end in
      ({| expenses := ex; storage := Some (persist_effect ex) |}, console eff)
  | Throw _ => ({| expenses := []; storage := stored |}, [])
  end.

(** [setExpenses(p => [...p, ...newEx])], then the second effect. *)
Definition append (st : AppState) (batch : list Expense) : AppState :=
  let ex := (expenses st ++ map Expense_to_json batch)%list in
  {| expenses := ex; storage := Some (persist_effect ex) |}.

(** [confirm(...) && setExpenses([])], then the second effect. *)
Definition purge (st : AppState) (confirmed : bool) : AppState :=
  if confirmed
  then {| expenses := []; storage := Some (persist_effect []) |}
  else st.

(** Closing the page and opening it again. *)
Definition reload (st : AppState) : AppState := fst (mount (storage st)).

Definition initial : AppState := {| expenses := []; storage := None |}.

(** The [id] properties of the stored records. *)
Definition store_ids (l : list json) : list (option json) :=
  map (js_get "id") l.

(** The states the page can be in.  [Reachable T st]: [st] is reached from
    a fresh browser by page loads, imports and purges, the clock never
    before the epoch and below [T] so far, and every import reading clock
    values at or after [T0], the bound of the state it starts from (so
    later than every value read by an import before it). *)
Inductive Reachable : Z -> AppState -> Prop :=
| R_initial : forall T, 0 <= T -> Reachable T initial
| R_mount : forall T st, Reachable T st -> Reachable T (reload st)
| R_purge : forall T st c, Reachable T st -> Reachable T (purge st c)
| R_import : forall T0 T st now today importing mapping,
    Reachable T0 st -> T0 <= T ->
    (forall i, (i < List.length (data importing))%nat -> T0 <= now i < T) ->
    Reachable T (append st (finishImport now today importing mapping)).

(** The same without any condition on the clock. *)
Inductive Reachable_any : AppState -> Prop :=
| A_initial : Reachable_any initial
| A_mount : forall st, Reachable_any st -> Reachable_any (reload st)
| A_purge : forall st c, Reachable_any st -> Reachable_any (purge st c)
| A_import : forall st now today importing mapping,
    Reachable_any st ->
    Reachable_any (append st (finishImport now today importing mapping)).

(** A property of every number in a value. *)
Fixpoint json_all (P : number -> Prop) (v : json) : Prop :=
  match v with
  | JNum x => P x
  | JArr l =>
      (fix all (l : list json) : Prop :=
         match l with
         | [] => True
         | x :: r => json_all P x /\ all r
         end) l
  | JObj l =>
      (fix all (l : list (string * json)) : Prop :=
         match l with
         | [] => True
         | (_, x) :: r => json_all P x /\ all r
         end) l
  | _ => True
  end.

(** A number as the operations of the model build it: a finite one is in
    canonical form and below the overflow bound. *)
Definition well_formed (x : number) : Prop :=
  match x with
  | Fin d => canonical d /\ fin d = Fin d
  | _ => True
  end.

(** A number JSON can hold: finite, and well formed. *)
Definition storable_number (x : number) : Prop :=
  is_finite x = true /\ well_formed x.

(** The values that come back from [JSON.stringify] then [JSON.parse] as
    they are: every number in them is storable. *)
Definition storable (v : json) : Prop := json_all storable_number v.

(** What [JSON.parse(JSON.stringify(v))] makes of [v]: a number that is not
    finite becomes [null]. *)
Fixpoint jsonify (v : json) : json :=
  match v with
  | JNum x => if is_finite x then JNum x else JNull
  | JArr l => JArr (map jsonify l)
  | JObj l => JObj (map (fun kv => (fst kv, jsonify (snd kv))) l)
  | _ => v
  end.

(** The number of values in a value, itself included (brackets count). *)
Fixpoint json_size (v : json) : nat :=
  match v with
  | JArr l =>
      (fix sum (l : list json) : nat :=
         match l with
         | [] => 2%nat
         | x :: r => (json_size x + sum r)%nat
         end) l
  | JObj l =>
      (fix sum (l : list (string * json)) : nat :=
         match l with
         | [] => 2%nat
         | (_, x) :: r => (json_size x + sum r)%nat
         end) l
  | _ => 1%nat
  end.

(* ------------------------------------------------------------------ *)
(** ** The years of the dashboard (line 246) *)

(** A year as the number [getFullYear] returns. *)
Definition year_num (y : option Z) : number :=
  match y with
  | Some z => num_of_Z z
  | None => NaN
  end.

(** [Array.from(new Set(l))]: the first occurrence of every value, in
    order ([NaN] is equal to itself in a [Set]). *)
Fixpoint distinct (l : list (option Z)) (seen : list (option Z))
  : list (option Z) :=
  match l with
  | [] => seen
  | y :: r =>
      distinct r (if existsb (key_eqb y) seen then seen else seen ++ [y])%list
  end.

(** [years] of [App]: the distinct years of the records, sorted with
    [(a, b) => b - a]. *)
Definition App_years (h : Host) (expenses : list Expense) : list (option Z) :=
  js_sort (fun a b => num_sub (year_num b) (year_num a))
    (distinct (map (fun e => getFullYear h (new_Date h (date e))) expenses) []).

(* ------------------------------------------------------------------ *)
(** ** Vocabulary of the statements *)

(** The value two decimals short of [x]: [parseFloat(x.toFixed(2))]. *)
Definition round2 (x : number) : number := parseFloat (toFixed x 2).

(** [x] is zero. *)
Definition is_zero (x : number) : bool :=
  match x with Fin d => dmant d =? 0 | _ => false end.

(** The text of the amount cell, empty when the row has no such column. *)
Definition amount_cell (row : Row) (mapping : Mapping.t) : string :=
  match row_get (Mapping.amount mapping) row with
  | Some s => s
  | None => EmptyString
  end.

(** The records row [i] contributes to the batch: its record when the
    amount is positive, none otherwise. *)
Definition row_records (now today : nat -> Z) (mapping : Mapping.t)
    (row : Row) (i : nat) : list Expense :=
  let e := normalize now today mapping row i in
  if num_gtb (amount e) num_zero then [e] else [].

(** The record's category is one of [CATEGORIES]. *)
Definition enumerated (e : Expense) : bool :=
  existsb (String.eqb (category e)) CATEGORIES.

(** The category has a positive rounded total in some selected year. *)
Definition shown (h : Host) (expenses : list Expense)
    (years : list (option Z)) (cat : string) : bool :=
  existsb (fun y => num_gtb (round2 (category_total h expenses cat y)) num_zero)
          years.

(** Rows in descending order of their value for the year [cy]. *)
Definition descending_by (cy : option (option Z)) (a b : CategoryEntry) : Prop :=
  num_le (sort_key cy b) (sort_key cy a).

(** [a] is a year at least as recent as [b]. *)
Definition not_before (a b : option Z) : Prop :=
  match a, b with
  | Some x, Some y => y <= x
  | _, _ => False
  end.

(** The years are listed newest first. *)
Definition newest_first (years : list (option Z)) : Prop :=
  StronglySorted not_before years.

(** [y0] is the most recent of the years. *)
Definition most_recent (years : list (option Z)) (y0 : Z) : Prop :=
  In (Some y0) years /\ forall y, In (Some y) years -> y <= y0.

(** A year a date within the range of [Date] can have. *)
Definition plausible_year (y : option Z) : Prop :=
  exists z, y = Some z /\ Z.abs z < 1000000.

(** Stored text that is not a JSON array: it does not parse, or it parses
    to a value that is no array. *)
Definition not_an_array (saved : string) : Prop :=
  JSON_parse saved = None \/
  exists v, JSON_parse saved = Some v /\ isArray v = false.

(** The id given to row [k] when the clock shows [t]. *)
Definition id_text (t k : Z) : string :=
  "txn-" ++ string_of_Z t ++ "-" ++ string_of_Z k.

(** A stored value with the id of some import before [T]. *)
Definition stored_record (T : Z) (v : json) : Prop :=
  json_all well_formed v /\
  exists t k, 0 <= t < T /\ 0 <= k /\ js_get "id" v = Some (JStr (id_text t k)).

(** What holds of every reachable state. *)
Definition store_invariant (T : Z) (st : AppState) : Prop :=
  0 <= T /\
  Forall (stored_record T) (expenses st) /\
  NoDup (store_ids (expenses st)) /\
  (storage st = None /\ expenses st = [] \/
   storage st = Some (persist_effect (expenses st))).

(* ------------------------------------------------------------------ *)
(** ** Vocabulary of the JSON round trip *)

(** The head of a numeral is not the digit zero, unless it is "0". *)
Definition head_nonzero (s : string) : Prop :=
  match s with
  | String c _ => Ascii.eqb c "0" = false
  | EmptyString => False
  end.

(** The text after a numeral does not go on with a digit. *)
Definition no_digit_head (s : string) : Prop :=
  match s with
  | String c _ => is_digit c = false
  | EmptyString => True
  end.

(** What may follow a value inside a JSON text. *)
Definition delim (s : string) : Prop :=
  match s with
  | String c _ => c = ","%char \/ c = "]"%char \/ c = "}"%char
  | EmptyString => True
  end.

(** The fraction and the exponent of a numeral as they are printed, and
    the value of the exponent. *)
Definition frac_text (fp : string) : string :=
  match fp with
  | EmptyString => EmptyString
  | _ => "." ++ fp
  end.

Definition exp_text (ex : option Z) : string :=
  match ex with
  | None => EmptyString
  | Some e => "e" ++ (if e <? 0 then "-" else "+") ++ digits_of (Z.abs e)
  end.

Definition exp_value (ex : option Z) : Z :=
  match ex with Some e => e | None => 0 end.

(** The part of a printed array after its first element, and the same for
    an object. *)
Fixpoint arr_tail (l : list json) : string :=
  match l with
  | [] => "]"
  | y :: r => "," ++ JSON_stringify y ++ arr_tail r
  end.

Fixpoint obj_tail (l : list (string * json)) : string :=
  match l with
  | [] => "}"
  | (k, y) :: r => "," ++ quote k ++ ":" ++ JSON_stringify y ++ obj_tail r
  end.

(** The sizes of the elements of an array or an object, brackets counted. *)
Fixpoint arr_size (l : list json) : nat :=
  match l with
  | [] => 2
  | x :: r => json_size x + arr_size r
  end.

Fixpoint obj_size (l : list (string * json)) : nat :=
  match l with
  | [] => 2
  | (_, x) :: r => json_size x + obj_size r
  end.

(* ------------------------------------------------------------------ *)
(** ** Concrete inputs *)

(** A record with the given date, amount text and category. *)
Definition expense_of (d a c : string) : Expense :=
  {| id := "txn-1-0"; date := d; description := "Item";
     amount := parseFloat a; category := c; account := "Imported" |}.

(** One record of 0.001 in January 2024. *)
Definition sub_cent_expenses : list Expense :=
  [ {| id := "txn-1-0"; date := "2024-01-05"; description := "Fee";
       amount := parseFloat "0.001"; category := "Other";
       account := "Imported" |} ].

(** One record of a category outside the enumeration. *)
Definition coffee_expenses : list Expense :=
  [ {| id := "txn-1-0"; date := "2024-03-01"; description := "Espresso";
       amount := num_of_Z 5; category := "Coffee";
       account := "Imported" |} ].

(** Five records of 2024 and one of 2023. *)
Definition five_expenses : list Expense :=
  [ expense_of "2024-01-05" "30" "Dining";
    expense_of "2024-02-11" "12.5" "Groceries";
    expense_of "2023-07-01" "99" "Travel";
    expense_of "2024-02-20" "1200" "Rent";
    expense_of "2024-06-30" "7" "Dining";
    expense_of "2024-11-02" "45.25" "Shopping" ].

(** One record on the last day of a leap year. *)
Definition leap_day_expenses : list Expense :=
  [ expense_of "2024-12-31" "100" "Rent" ].

(** The import of the specification's example: two rows, the second with
    an amount that is no number. *)
Definition example_mapping : Mapping.t :=
  {| Mapping.date := "Date"; Mapping.amount := "Amount";
     Mapping.description := "Desc"; Mapping.category := "Cat" |}.

Definition example_importing : Importing :=
  {| data :=
       [ [ ("Date", "2024-01-05"); ("Amount", "$50.00");
           ("Desc", "Coffee"); ("Cat", "Dining") ];
         [ ("Date", "2024-01-05"); ("Amount", "abc");
           ("Desc", "Bad"); ("Cat", "Other") ] ];
     fields := [ "Date"; "Amount"; "Desc"; "Cat" ] |}.

(** An import whose amount cell overflows the range of a double. *)
Definition overflow_importing : Importing :=
  {| data := [ [ ("Amount", String "1" (repeat_char "0" 309)) ] ];
     fields := [ "Amount" ] |}.

(** An import none of whose rows has a usable amount. *)
Definition excluded_importing : Importing :=
  {| data :=
       [ [ ("Date", "2024-01-05"); ("Amount", "abc") ];
         [ ("Date", "2024-01-06"); ("Amount", "") ];
         [ ("Date", "2024-01-07"); ("Amount", "$0.00") ];
         [ ("Date", "2024-01-08") ] ];
     fields := [ "Date"; "Amount" ] |}.

(** A clock that stands still at one instant. *)
Definition frozen_clock (t : Z) : nat -> Z := fun _ => t.

(* ------------------------------------------------------------------ *)
(** ** Vocabulary of the views *)

(** The record's year is one of the selected years. *)
Definition selected (h : Host) (years : list (option Z)) (e : Expense) : bool :=
  existsb (fun y => in_year h y e) years.

(** The record's date is read as a date by the host. *)
Definition dated (h : Host) (e : Expense) : bool :=
  match new_Date h (date e) with
  | Some _ => true
  | None => false
  end.

(** The five views of the dashboard, as [App] renders them side by side. *)
Record Dashboard : Type := {
  seasonality : list SeasonEntry;
  pace : list PaceEntry;
  comparison : list CategoryEntry;
  heatmap : Heatmap;
  distribution : list BoxEntry
}.

Definition dashboard (h : Host) (expenses : list Expense)
    (years : list (option Z)) : Dashboard :=
  {| seasonality := SeasonalityChart h expenses years;
     pace := PaceOfSpendingChart h expenses years;
     comparison := CategoryComparisonChart h expenses years;
     heatmap := HeatmapTable h expenses years;
     distribution := TransactionBoxPlot h expenses years |}.


(* ------------------------------------------------------------------ *)
(** ** The colours of the heatmap (lines 165-172) *)

Definition dmul (a b : dec) : dec :=
  dnorm (dmant a * dmant b) (dscale a + dscale b).

(** A quotient [x / y] is only compared in the program; it is kept as the
    exact fraction of two decimals, the second one positive. *)
Inductive quotient : Type :=
| QNaN : quotient
| QPInf : quotient
| QNInf : quotient
| QFrac : dec -> dec -> quotient.

(** [x / y]. *)
Definition num_div (x y : number) : quotient :=
  match x, y with
  | NaN, _ | _, NaN => QNaN
  | (PInf | NInf), (PInf | NInf) => QNaN
  | PInf, Fin b => if dmant b <? 0 then QNInf else QPInf
  | NInf, Fin b => if dmant b <? 0 then QPInf else QNInf
  | Fin _, (PInf | NInf) => QFrac dzero (dec_of_Z 1)
  | Fin a, Fin b =>
      if dmant b =? 0 then
        (if dmant a =? 0 then QNaN
         else if dmant a <? 0 then QNInf else QPInf)
      else if dmant b <? 0 then QFrac (dneg a) (dneg b)
      else QFrac a b
  end.

(** The number [x] as a quotient. *)
Definition quot_of_dec (x : dec) : quotient := QFrac x (dec_of_Z 1).

(** [q < c] for a decimal literal [c]. *)
Definition quot_ltb (q : quotient) (c : dec) : bool :=
  match q with
  | QNaN | QPInf => false
  | QNInf => true
  | QFrac n d => dltb n (dmul c d)
  end.

(** [getColor] of [HeatmapTable], for the [maxVal] it closes over. *)
Definition getColor (maxVal v : number) : string :=
  if num_eqb v num_zero then "bg-slate-50 text-slate-300"
  else
    let ratio :=
      if num_gtb maxVal num_zero then num_div v maxVal
      else quot_of_dec dzero in
    if quot_ltb ratio (Dec 2 1) then "bg-emerald-50 text-emerald-700"
    else if quot_ltb ratio (Dec 4 1) then "bg-amber-100 text-amber-800"
    else if quot_ltb ratio (Dec 7 1) then "bg-orange-300 text-orange-900"
    else "bg-red-500 text-white".

(** The running maximum of [if (t > globalMax) globalMax = t]. *)
Definition raise_max (mx t : number) : number :=
  if num_gtb t mx then t else mx.

(** The cells of a grid in the order the loops visit them. *)
Definition grid_cells (h : Host) (expenses : list Expense)
    (years : list (option Z)) : list number :=
  flat_map (fun y => map (season_total h expenses y) (seq 0 12)) years.


(** The storage holds what the second effect writes for the state. *)
Definition written_through (st : AppState) : Prop :=
  storage st = Some (persist_effect (expenses st)).

(** A state with one imported record whose amount is not finite. *)
Definition overflow_state : AppState :=
  append initial
    (finishImport (frozen_clock 1700000000000) (frozen_clock 1700000000000)
       overflow_importing example_mapping).



(** The header is one of the detected headers. *)
Definition header_of (fields : list string) (f : option string) : Prop :=
  match f with
  | Some x => In x fields
  | None => fields = []
  end.

(* ------------------------------------------------------------------ *)
(** ** Vocabulary of rounding *)

(** A finite number of magnitude below [1e21], the range in which
    [toFixed] prints plain decimals. *)
Definition fixed_range (x : number) : bool :=
  match x with
  | Fin d => negb (dleb (dec_of_Z (10 ^ 21)) (dabs d))
  | _ => false
  end.

(** A finite number with at most [f] decimals. *)
Definition decimals_le (f : nat) (x : number) : Prop :=
  match x with
  | Fin d => (dscale d <= f)%nat
  | _ => False
  end.

(** [|x - y| <= eps] for finite numbers. *)
Definition dist_le (x y : number) (eps : dec) : Prop :=
  match x, y with
  | Fin a, Fin b =>
      Z.abs (dmant a * pow10 (dscale b) - dmant b * pow10 (dscale a))
      * pow10 (dscale eps)
      <= dmant eps * pow10 (dscale a + dscale b)
  | _, _ => False
  end.

(** Half a unit of the [f]-th decimal. *)
Definition half_unit (f : nat) : dec := Dec 5 (S f).




(** [data[i][y]] in the data of the pace view. *)
Definition pace_value (view : list PaceEntry) (i : nat) (y : option Z)
  : option number :=
  match nth_error view i with
  | Some entry => obj_get key_eqb y (pace_values entry)
  | None => None
  end.

(* ------------------------------------------------------------------ *)
(** ** Vocabulary of the calendar *)

(** The ordinal of a day in its year: 1 for January 1. *)
Definition ordinal_day (y m d : Z) : Z :=
  days_from_civil y m d - days_from_civil y 1 1 + 1.

Definition days_in_year (y : Z) : Z := if is_leap y then 366 else 365.

(** [y-m-d] is a date of the calendar. *)
Definition calendar_date (y m d : Z) : bool :=
  (1 <=? m) && (m <=? 12) && (1 <=? d) && (d <=? days_in_month y m).

(** What is checked of the day [doe] of the 400-year cycle that begins on
    0000-03-01: its date is a calendar date, leads back to the day, and
    has an ordinal within its year. *)
Definition cycle_day_ok (doe : Z) : bool :=
  let z := doe - 719468 in
  let '(y, m, d) := civil_from_days z in
  let j := days_from_civil y m d in
  let o := j - days_from_civil y 1 1 + 1 in
  calendar_date y m d && (j =? z) && (1 <=? o) && (o <=? days_in_year y).

(** What is checked of a date of the years 0 to 399: its day number leads
    back to it. *)
Definition cycle_date_ok (ymd : Z * Z * Z) : bool :=
  let '(y, m, d) := ymd in
  negb (calendar_date y m d) ||
  (let '(y', m', d') := civil_from_days (days_from_civil y m d) in
   (y' =? y) && (m' =? m) && (d' =? d)).

(** [f] holds of 0, 1, ..., n - 1. *)
Definition all_below (n : positive) (f : Z -> bool) : bool :=
  snd (Pos.iter (fun st => (fst st + 1, snd st && f (fst st))) (0, true) n).

(** The rows whose value for the year [cy] is [v]. *)
Definition tied_at (cy : option (option Z)) (v : number) (d : CategoryEntry)
  : bool :=
  num_eqb (sort_key cy d) v.

(* ================================================================== *)
(** * Properties *)

(* ------------------------------------------------------------------ *)
(** ** Keys, objects, strings *)

Lemma key_eqb_eq : forall x y, key_eqb x y = true <-> x = y.
Proof.
  intros [a|] [b|]; simpl; split; intro H; try congruence; try reflexivity.
  - apply Z.eqb_eq in H. now subst.
  - inversion H. apply Z.eqb_refl.
Qed.

Section ObjFacts.
Context {K V : Type} (eqb : K -> K -> bool).
Hypothesis eqb_eq : forall x y, eqb x y = true <-> x = y.

Lemma eqb_same : forall x, eqb x x = true.
Proof. intro x. now apply eqb_eq. Qed.

Lemma eqb_diff : forall x y, x <> y -> eqb x y = false.
Proof.
  intros x y H. destruct (eqb x y) eqn:E; [|reflexivity].
  apply eqb_eq in E. contradiction.
Qed.

Lemma obj_get_set_same : forall k (v : V) o,
  obj_get eqb k (obj_set eqb k v o) = Some v.
Proof.
  intros k v o. induction o as [|[k' v'] r IH]; simpl.
  - now rewrite eqb_same.
  - destruct (eqb k k') eqn:E; simpl; rewrite E; [reflexivity | exact IH].
Qed.

Lemma obj_get_set_other : forall k k' (v : V) o,
  k <> k' -> obj_get eqb k (obj_set eqb k' v o) = obj_get eqb k o.
Proof.
  intros k k' v o Hne. induction o as [|[k2 v2] r IH]; simpl.
  - now rewrite eqb_diff.
  - destruct (eqb k' k2) eqn:E; simpl.
    + apply eqb_eq in E. subst k2. now rewrite eqb_diff.
    + now rewrite IH.
Qed.

Lemma obj_get_fill_other : forall (f : K -> V) keys k o,
  ~ In k keys -> obj_get eqb k (obj_fill eqb f keys o) = obj_get eqb k o.
Proof.
  intros f keys k. unfold obj_fill.
  induction keys as [|k' r IH]; intros o Hn; simpl; [reflexivity|].
  rewrite IH by (intro; apply Hn; now right).
  apply obj_get_set_other. intro; subst. apply Hn. now left.
Qed.

Lemma key_in_dec : forall (k : K) keys, In k keys \/ ~ In k keys.
Proof.
  intros k keys. induction keys as [|k' r IH]; [now right|].
  destruct (eqb k k') eqn:E.
  - apply eqb_eq in E. subst. left. now left.
  - destruct IH as [IH|IH]; [left; now right|].
    right. intros [H|H]; [|contradiction].
    subst. rewrite eqb_same in E. discriminate.
Qed.

(** After [keys.forEach(k => o[k] = f(k))] every key holds [f k]. *)
Lemma obj_get_fill : forall (f : K -> V) keys k o,
  In k keys -> obj_get eqb k (obj_fill eqb f keys o) = Some (f k).
Proof.
  intros f keys k. unfold obj_fill.
  induction keys as [|k' r IH]; intros o Hin; simpl; [contradiction|].
  destruct (key_in_dec k r) as [Hr|Hr].
  - now apply IH.
  - destruct Hin as [->|Hin]; [|contradiction].
    change (obj_get eqb k (obj_fill eqb f r (obj_set eqb k (f k) o)) = Some (f k)).
    rewrite obj_get_fill_other by assumption.
    apply obj_get_set_same.
Qed.

End ObjFacts.

Lemma nat_eqb_eq : forall x y, Nat.eqb x y = true <-> x = y.
Proof. intros. apply Nat.eqb_eq. Qed.

Lemma startsWith_spec : forall s t,
  startsWith s t = true <-> exists post, s = t ++ post.
Proof.
  intros s t. revert s. induction t as [|b t IH]; intros s; simpl.
  - split; [intros _; now exists s | intros _; now destruct s].
  - destruct s as [|a s]; simpl.
    + split; [discriminate | intros [post H]; discriminate].
    + rewrite andb_true_iff, Ascii.eqb_eq, IH. split.
      * intros [-> [post ->]]. now exists post.
      * intros [post H]. inversion H. split; [reflexivity | now exists post].
Qed.

(** [includes] decides the substring relation. *)
Lemma includes_spec : forall s t, includes s t = true <-> Substring t s.
Proof.
  intros s t. unfold Substring. induction s as [|a s IH].
  - change (includes EmptyString t) with (startsWith EmptyString t || false).
    rewrite orb_false_r, startsWith_spec. split.
    + intros [post H]. now exists EmptyString, post.
    + intros [pre [post H]]. destruct pre; [now exists post | discriminate].
  - change (includes (String a s) t)
      with (startsWith (String a s) t || includes s t).
    rewrite orb_true_iff, startsWith_spec, IH. split.
    + intros [[post H]|[pre [post H]]].
      * now exists EmptyString, post.
      * exists (String a pre), post. simpl. now rewrite H.
    + intros [pre [post H]]. destruct pre as [|c pre].
      * left. now exists post.
      * right. simpl in H. inversion H. now exists pre, post.
Qed.

(* ------------------------------------------------------------------ *)
(** ** Sorting *)

Section SortFacts.
Context {A : Type} (cmp : A -> A -> number).

Lemma sort_insert_perm : forall x l,
  Permutation (x :: l) (sort_insert cmp x l).
Proof.
  intros x l. induction l as [|y r IH]; cbn [sort_insert];
    [apply Permutation_refl|].
  destruct (num_gtb (cmp x y) num_zero); [|apply Permutation_refl].
  eapply perm_trans; [apply perm_swap|]. now apply perm_skip.
Qed.

(** Sorting rearranges, it neither adds nor drops an element. *)
Lemma js_sort_perm : forall l, Permutation l (js_sort cmp l).
Proof.
  induction l as [|x r IH]; simpl; [apply perm_nil|].
  eapply perm_trans; [apply perm_skip, IH | apply sort_insert_perm].
Qed.

Lemma js_sort_In : forall x l, In x (js_sort cmp l) <-> In x l.
Proof.
  intros x l. split; intro H.
  - eapply Permutation_in; [apply Permutation_sym, js_sort_perm | exact H].
  - eapply Permutation_in; [apply js_sort_perm | exact H].
Qed.

Lemma js_sort_length : forall l, List.length (js_sort cmp l) = List.length l.
Proof. intro l. symmetry. apply Permutation_length, js_sort_perm. Qed.

(** When the comparator decides a transitive relation [R] on the elements
    at hand ([P]), the result is sorted by [R]. *)
Variable P : A -> Prop.
Variable R : A -> A -> Prop.
Hypothesis R_trans : forall x y z, R x y -> R y z -> R x z.
Hypothesis cmp_after : forall x y,
  P x -> P y -> num_gtb (cmp x y) num_zero = true -> R y x.
Hypothesis cmp_before : forall x y,
  P x -> P y -> num_gtb (cmp x y) num_zero = false -> R x y.

Lemma sort_insert_sorted : forall x l,
  P x -> Forall P l -> StronglySorted R l ->
  StronglySorted R (sort_insert cmp x l).
Proof.
  intros x l Px Pl Hs. induction Hs as [|y r Hr IH Hy]; cbn [sort_insert].
  - constructor; [constructor | constructor].
  - inversion Pl as [|? ? Py Pr]; subst.
    destruct (num_gtb (cmp x y) num_zero) eqn:E.
    + constructor; [now apply IH|].
      apply Forall_forall. intros z Hz.
      apply (Permutation_in _ (Permutation_sym (sort_insert_perm x r))) in Hz.
      destruct Hz as [<-|Hz]; [now apply cmp_after|].
      rewrite Forall_forall in Hy. now apply Hy.
    + constructor; [now constructor|].
      constructor; [now apply cmp_before|].
      apply Forall_forall. intros z Hz. rewrite Forall_forall in Hy.
      apply R_trans with y; [now apply cmp_before | now apply Hy].
Qed.

Lemma js_sort_sorted : forall l, Forall P l -> StronglySorted R (js_sort cmp l).
Proof.
  induction l as [|x r IH]; intro Pl; simpl; [constructor|].
  inversion Pl as [|? ? Px Pr]; subst.
  apply sort_insert_sorted; [assumption | | now apply IH].
  apply Forall_forall. intros z Hz. apply (proj1 (js_sort_In z r)) in Hz.
  rewrite Forall_forall in Pr. now apply Pr.
Qed.

End SortFacts.

(* ------------------------------------------------------------------ *)
(** ** The order of numbers *)

Lemma pow10_pos : forall k, 0 < pow10 k.
Proof. intro k. unfold pow10. apply Z.pow_pos_nonneg; lia. Qed.

Lemma pow10_add : forall a b, pow10 (a + b) = pow10 a * pow10 b.
Proof.
  intros a b. unfold pow10. rewrite Nat2Z.inj_add. apply Z.pow_add_r; lia.
Qed.

Lemma pow10_S : forall k, pow10 (S k) = 10 * pow10 k.
Proof.
  intro k. unfold pow10. rewrite Nat2Z.inj_succ. apply Z.pow_succ_r. lia.
Qed.

(** Normalizing keeps the value. *)
Lemma dnorm_value : forall k m,
  dmant (dnorm m k) * pow10 k = m * pow10 (dscale (dnorm m k)).
Proof.
  induction k as [|k IH]; intro m; simpl; [reflexivity|].
  destruct (m mod 10 =? 0) eqn:E; simpl; [|reflexivity].
  apply Z.eqb_eq in E. rewrite pow10_S.
  pose proof (IH (m / 10)) as H.
  pose proof (Z.div_mod m 10 ltac:(lia)) as D.
  rewrite E, Z.add_0_r in D.
  rewrite D at 2.
  rewrite Z.mul_assoc, (Z.mul_comm _ 10), <- Z.mul_assoc, H. ring.
Qed.

Lemma dnorm_pos : forall k m, 0 < dmant (dnorm m k) <-> 0 < m.
Proof.
  intros k m. pose proof (dnorm_value k m) as H.
  pose proof (pow10_pos k). pose proof (pow10_pos (dscale (dnorm m k))).
  split; intro; nia.
Qed.

Lemma overflow_bound_pos : 0 < overflow_bound.
Proof. reflexivity. Qed.

Lemma dleb_le : forall a b, dleb a b = true <-> dle a b.
Proof.
  intros a b. unfold dleb, dle, dcompare.
  destruct (Z.compare_spec (dmant a * pow10 (dscale b))
                           (dmant b * pow10 (dscale a)));
    split; intro; try discriminate; try reflexivity; lia.
Qed.

Lemma dleb_nle : forall a b, dleb a b = false <-> ~ dle a b.
Proof.
  intros a b. rewrite <- dleb_le. destruct (dleb a b); split; congruence.
Qed.

Lemma dle_of_Z_l : forall n d,
  dle (dec_of_Z n) d <-> n * pow10 (dscale d) <= dmant d.
Proof.
  intros n d. unfold dle, dec_of_Z. cbn [dmant dscale].
  change (pow10 0) with 1. now rewrite Z.mul_1_r.
Qed.

Lemma dle_of_Z_r : forall n d,
  dle d (dec_of_Z n) <-> dmant d <= n * pow10 (dscale d).
Proof.
  intros n d. unfold dle, dec_of_Z. cbn [dmant dscale].
  change (pow10 0) with 1. now rewrite Z.mul_1_r.
Qed.

(** What [fin] returns, by the size of its argument. *)
Lemma fin_cases : forall d,
  (fin d = PInf /\ overflow_bound * pow10 (dscale d) <= dmant d) \/
  (fin d = NInf /\ dmant d <= - overflow_bound * pow10 (dscale d)) \/
  (fin d = Fin d /\ - overflow_bound * pow10 (dscale d) < dmant d
                    < overflow_bound * pow10 (dscale d)).
Proof.
  intro d. unfold fin.
  pose proof overflow_bound_pos as B. pose proof (pow10_pos (dscale d)) as Pd.
  destruct (dleb (dec_of_Z overflow_bound) d) eqn:E1.
  - left. apply dleb_le, dle_of_Z_l in E1. now split.
  - apply dleb_nle in E1. rewrite dle_of_Z_l in E1.
    destruct (dleb d (dec_of_Z (- overflow_bound))) eqn:E2.
    + right; left. apply dleb_le, dle_of_Z_r in E2. now split.
    + apply dleb_nle in E2. rewrite dle_of_Z_r in E2.
      right; right. split; [reflexivity | lia].
Qed.

Lemma num_gtb_Fin : forall d, num_gtb (Fin d) num_zero = (0 <? dmant d).
Proof.
  intro d. unfold num_gtb, num_zero, num_ltb, dltb, dcompare, dzero.
  cbn [dmant dscale]. change (pow10 0) with 1.
  rewrite Z.mul_0_l, Z.mul_1_r.
  destruct (dmant d); reflexivity.
Qed.

Lemma num_gtb_fin : forall d, num_gtb (fin d) num_zero = (0 <? dmant d).
Proof.
  intro d.
  pose proof overflow_bound_pos as B. pose proof (pow10_pos (dscale d)) as Pd.
  destruct (fin_cases d) as [[-> H]|[[-> H]|[-> H]]].
  - symmetry. apply Z.ltb_lt. nia.
  - symmetry. apply Z.ltb_ge. nia.
  - apply num_gtb_Fin.
Qed.

Lemma dltb_lt : forall a b,
  dltb a b = true <-> dmant a * pow10 (dscale b) < dmant b * pow10 (dscale a).
Proof.
  intros a b. unfold dltb, dcompare.
  destruct (Z.compare_spec (dmant a * pow10 (dscale b))
                           (dmant b * pow10 (dscale a)));
    split; intro; try discriminate; try reflexivity; lia.
Qed.

(** The sign of a difference of two finite numbers. *)
Lemma num_sub_pos : forall a b,
  num_gtb (num_sub (Fin a) (Fin b)) num_zero = dltb b a.
Proof.
  intros [ma ka] [mb kb]. unfold num_sub. simpl num_neg.
  change (num_add (Fin (Dec ma ka)) (Fin (dneg (Dec mb kb))))
    with (fin (dadd (Dec ma ka) (dneg (Dec mb kb)))).
  rewrite num_gtb_fin. unfold dadd, dltb, dcompare. simpl.
  set (k := Nat.max ka kb).
  set (X := ma * pow10 (k - ka) + - mb * pow10 (k - kb)).
  assert (HX : (0 < X <-> mb * pow10 ka < ma * pow10 kb)).
  { assert (Ha : pow10 k = pow10 (k - ka) * pow10 ka)
      by (rewrite <- pow10_add; f_equal; lia).
    assert (Hb : pow10 k = pow10 (k - kb) * pow10 kb)
      by (rewrite <- pow10_add; f_equal; lia).
    pose proof (pow10_pos ka). pose proof (pow10_pos kb).
    pose proof (pow10_pos (k - ka)). pose proof (pow10_pos (k - kb)).
    pose proof (pow10_pos k).
    assert (E : X * (pow10 ka * pow10 kb)
                = (ma * pow10 kb - mb * pow10 ka) * pow10 k).
    { unfold X.
      transitivity (ma * pow10 kb * (pow10 (k - ka) * pow10 ka)
                    - mb * pow10 ka * (pow10 (k - kb) * pow10 kb)); [ring|].
      rewrite <- Ha, <- Hb. ring. }
    split; intro; nia. }
  pose proof (dnorm_pos k X) as HN.
  destruct (Z.compare_spec (mb * pow10 ka) (ma * pow10 kb));
    [apply Z.ltb_ge | apply Z.ltb_lt | apply Z.ltb_ge]; lia.
Qed.

Lemma dle_trans : forall a b c, dle a b -> dle b c -> dle a c.
Proof.
  intros [ma ka] [mb kb] [mc kc]. unfold dle. simpl. intros H1 H2.
  pose proof (pow10_pos ka). pose proof (pow10_pos kb). pose proof (pow10_pos kc).
  assert (ma * pow10 kc * pow10 kb <= mc * pow10 ka * pow10 kb) by nia.
  nia.
Qed.

Lemma num_le_trans : forall x y z, num_le x y -> num_le y z -> num_le x z.
Proof.
  intros [| | |a] [| | |b] [| | |c]; simpl; try tauto. apply dle_trans.
Qed.

(** [x - y > 0] exactly when [y < x], for numbers that are not [NaN]. *)
Lemma num_sub_gt : forall x y,
  is_NaN x = false -> is_NaN y = false ->
  num_gtb (num_sub x y) num_zero = num_ltb y x.
Proof.
  intros [| | |a] [| | |b]; simpl; intros; try discriminate; try reflexivity.
  apply num_sub_pos.
Qed.

Lemma num_ltb_le : forall x y, num_ltb x y = true -> num_le x y.
Proof.
  intros [| | |a] [| | |b]; simpl; intro H; try discriminate; try exact I.
  apply dltb_lt in H. unfold dle. lia.
Qed.

Lemma num_nltb_le : forall x y,
  is_NaN x = false -> is_NaN y = false -> num_ltb x y = false -> num_le y x.
Proof.
  intros [| | |a] [| | |b]; simpl; intros; try discriminate; try exact I.
  unfold dle. destruct (dltb a b) eqn:E; [discriminate|].
  assert (~ dmant a * pow10 (dscale b) < dmant b * pow10 (dscale a))
    by (intro L; apply dltb_lt in L; congruence).
  lia.
Qed.

(* ------------------------------------------------------------------ *)
(** ** Category comparison: only the enumerated categories *)

Lemma in_CATEGORIES_eqb : forall c,
  In c CATEGORIES <-> existsb (String.eqb c) CATEGORIES = true.
Proof.
  intro c. rewrite existsb_exists. split.
  - intro H. exists c. split; [exact H | apply String.eqb_refl].
  - intros [x [H E]]. apply String.eqb_eq in E. now subst.
Qed.

Lemma category_total_enumerated : forall h expenses cat y,
  In cat CATEGORIES ->
  category_total h (filter enumerated expenses) cat y
  = category_total h expenses cat y.
Proof.
  intros h expenses cat y Hc. unfold category_total. f_equal.
  induction expenses as [|e r IH]; [reflexivity|].
  cbn [filter]. destruct (enumerated e) eqn:En.
  - cbn [filter]. now rewrite IH.
  - rewrite IH. destruct (String.eqb (category e) cat) eqn:Ec; [|reflexivity].
    apply String.eqb_eq in Ec. unfold enumerated in En. rewrite Ec in En.
    apply in_CATEGORIES_eqb in Hc. congruence.
Qed.

Lemma category_entry_enumerated : forall h expenses years cat,
  In cat CATEGORIES ->
  category_entry h (filter enumerated expenses) years cat
  = category_entry h expenses years cat.
Proof.
  intros h expenses years cat Hc. unfold category_entry. f_equal.
  unfold obj_fill. generalize (@nil (option Z * number)).
  induction years as [|y r IH]; intro o; [reflexivity|].
  cbn [fold_left]. rewrite category_total_enumerated by assumption. apply IH.
Qed.

(** C10.  Every row of the category-comparison view is the row of one of
    the thirteen categories of [CATEGORIES], and a record whose category is
    not one of them changes no row: the view of a record set is the view of
    its records with an enumerated category. *)
Theorem category_view_ignores_other_categories :
  forall h expenses years,
    List.length CATEGORIES = 13%nat /\
    (forall d, In d (CategoryComparisonChart h expenses years) ->
               In (entry_category d) CATEGORIES) /\
    CategoryComparisonChart h expenses years
    = CategoryComparisonChart h (filter enumerated expenses) years.
Proof.
  intros h expenses years. split; [reflexivity|]. split.
  - intros d Hd. unfold CategoryComparisonChart in Hd.
    apply (proj1 (js_sort_In _ _ _)) in Hd.
    apply filter_In in Hd. destruct Hd as [Hd _].
    apply in_map_iff in Hd. destruct Hd as [cat [<- Hc]]. exact Hc.
  - unfold CategoryComparisonChart. do 2 f_equal.
    apply map_ext_in. intros cat Hc. symmetry.
    now apply category_entry_enumerated.
Qed.

(* ------------------------------------------------------------------ *)
(** ** Seasonality and heatmap *)

Lemma nth_error_seq0 : forall n m, (m < n)%nat -> nth_error (seq 0 n) m = Some m.
Proof.
  intros n m H.
  rewrite (nth_error_nth' _ O) by (now rewrite length_seq).
  now rewrite seq_nth.
Qed.

Lemma heatmap_cells_fst : forall h expenses y months row mx,
  fst (fold_left (heatmap_cell h expenses y) months (row, mx))
  = obj_fill Nat.eqb (season_total h expenses y) months row.
Proof.
  intros h expenses y months. unfold obj_fill.
  induction months as [|m r IH]; intros row mx; [reflexivity|].
  cbn [fold_left]. unfold heatmap_cell at 2. cbn [fst snd]. apply IH.
Qed.

Lemma heatmap_years_fst : forall h expenses years data mx,
  fst (fold_left (heatmap_year h expenses) years (data, mx))
  = obj_fill key_eqb
      (fun y => obj_fill Nat.eqb (season_total h expenses y) (seq 0 12) [])
      years data.
Proof.
  intros h expenses years. unfold obj_fill.
  induction years as [|y r IH]; intros data mx; [reflexivity|].
  cbn [fold_left]. unfold heatmap_year at 2. cbn [fst snd].
  pose proof (heatmap_cells_fst h expenses y (seq 0 12) [] mx) as Hrow.
  destruct (fold_left (heatmap_cell h expenses y) (seq 0 12) ([], mx))
    as [row mx'].
  cbn [fst] in Hrow. rewrite Hrow. apply IH.
Qed.

(** A cell of the heatmap is the sum of the month's amounts. *)
Lemma heatmap_get_total : forall h expenses years y m,
  In y years -> (m < 12)%nat ->
  heatmap_get (HeatmapTable h expenses years) y m
  = Some (season_total h expenses y m).
Proof.
  intros h expenses years y m Hy Hm. unfold heatmap_get, HeatmapTable.
  pose proof (heatmap_years_fst h expenses years [] num_zero) as Hg.
  destruct (fold_left (heatmap_year h expenses) years ([], num_zero))
    as [grid mx].
  cbn [fst gridData] in *. rewrite Hg.
  rewrite (obj_get_fill key_eqb key_eqb_eq) by assumption.
  apply (obj_get_fill Nat.eqb nat_eqb_eq). apply in_seq. lia.
Qed.

(** C3 (amended).  For every selected year and month the two views are
    built from the same sum of amounts; the heatmap cell is that sum and
    the seasonality value is that sum rounded to two decimals. *)
Theorem seasonality_is_rounded_heatmap :
  forall h expenses years y m,
    In y years -> (m < 12)%nat ->
    exists entry t,
      nth_error (SeasonalityChart h expenses years) m = Some entry /\
      heatmap_get (HeatmapTable h expenses years) y m = Some t /\
      t = sum_amounts (filter (in_year_month h y m) expenses) /\
      obj_get key_eqb y (season_values entry) = Some (round2 t).
Proof.
  intros h expenses years y m Hy Hm.
  eexists. exists (season_total h expenses y m).
  split; [|split; [|split]].
  - unfold SeasonalityChart. rewrite nth_error_map, nth_error_seq0 by assumption.
    reflexivity.
  - now apply heatmap_get_total.
  - reflexivity.
  - cbn [season_values].
    now rewrite (obj_get_fill key_eqb key_eqb_eq) by assumption.
Qed.

Lemma seasonality_is_rounded_heatmap_witness :
  In (Some 2024) [Some 2024] /\ (0 < 12)%nat /\
  exists entry t,
    nth_error (SeasonalityChart utc_host sub_cent_expenses [Some 2024]) 0
      = Some entry /\
    heatmap_get (HeatmapTable utc_host sub_cent_expenses [Some 2024])
      (Some 2024) 0 = Some t /\
    t = sum_amounts
          (filter (in_year_month utc_host (Some 2024) 0) sub_cent_expenses) /\
    obj_get key_eqb (Some 2024) (season_values entry) = Some (round2 t).
Proof.
  split; [now left|]. split; [lia|].
  apply (seasonality_is_rounded_heatmap utc_host sub_cent_expenses
           [Some 2024] (Some 2024) 0%nat); [now left | lia].
Defined.

(** C3 as stated fails: the seasonality value of January 2024 is 0 where
    the heatmap cell is 0.001. *)
Lemma seasonality_differs_from_heatmap :
  ~ (forall h expenses years y m entry,
       In y years -> (m < 12)%nat ->
       nth_error (SeasonalityChart h expenses years) m = Some entry ->
       obj_get key_eqb y (season_values entry)
       = heatmap_get (HeatmapTable h expenses years) y m).
Proof.
  intro H.
  specialize (H utc_host sub_cent_expenses [Some 2024] (Some 2024) 0%nat
                _ (or_introl eq_refl) ltac:(lia) eq_refl).
  vm_compute in H. discriminate H.
Qed.

(* ------------------------------------------------------------------ *)
(** ** The default mapping *)

Lemma find_first : forall (A : Type) (p : A -> bool) pre x post,
  p x = true -> (forall g, In g pre -> p g = false) ->
  find p (pre ++ x :: post)%list = Some x.
Proof.
  intros A p pre x post Hx. induction pre as [|g r IH]; intro Hpre; simpl.
  - now rewrite Hx.
  - rewrite (Hpre g) by now left. apply IH. intros; apply Hpre. now right.
Qed.

Lemma find_no_match : forall (A : Type) (p : A -> bool) l,
  (forall g, In g l -> p g = false) -> find p l = None.
Proof.
  intros A p l. induction l as [|g r IH]; intro H; simpl; [reflexivity|].
  rewrite (H g) by now left. apply IH. intros; apply H. now right.
Qed.

Lemma includes_false : forall s t, ~ Substring t s -> includes s t = false.
Proof.
  intros s t H. destruct (includes s t) eqn:E; [|reflexivity].
  apply includes_spec in E. contradiction.
Qed.

Lemma canonical_field_nonempty : forall field,
  In field canonical_fields -> field <> EmptyString.
Proof.
  intros field H.
  repeat (destruct H as [<-|H]; [discriminate|]). contradiction.
Qed.

(** C9.  For each canonical field the pre-selected header is the first
    detected header whose lowercased text contains the field name, and the
    first detected header when none does. *)
Theorem default_mapping_first_match :
  forall fields field,
    In field canonical_fields ->
    (forall pre f post,
        fields = (pre ++ f :: post)%list ->
        Substring field (toLowerCase f) ->
        (forall g, In g pre -> ~ Substring field (toLowerCase g)) ->
        default_mapping fields field = Some f) /\
    ((forall g, In g fields -> ~ Substring field (toLowerCase g)) ->
     default_mapping fields field = hd_error fields).
Proof.
  intros fields field Hc. split.
  - intros pre f post -> Hf Hpre. unfold default_mapping.
    rewrite find_first.
    + destruct f as [|c f]; [|reflexivity].
      exfalso. destruct Hf as [a [b Hf]]. simpl in Hf.
      destruct a; [|discriminate]. destruct field; [|discriminate].
      now apply (canonical_field_nonempty EmptyString).
    + now apply includes_spec.
    + intros g Hg. apply includes_false. now apply Hpre.
  - intro Hn. unfold default_mapping.
    rewrite find_no_match; [reflexivity|].
    intros g Hg. apply includes_false. now apply Hn.
Qed.

Lemma default_mapping_first_match_witness :
  In "amount" canonical_fields /\
  default_mapping ["Transaction Date"; "Posted AMOUNT"; "Memo"] "amount"
  = Some "Posted AMOUNT".
Proof.
  split; [right; now left|].
  apply (proj1 (default_mapping_first_match
                  ["Transaction Date"; "Posted AMOUNT"; "Memo"] "amount"
                  (or_intror (or_introl eq_refl)))
               ["Transaction Date"] "Posted AMOUNT" ["Memo"]).
  - reflexivity.
  - exists "posted ", EmptyString. reflexivity.
  - intros g [<-|[]] S. apply includes_spec in S. discriminate S.
Defined.

(* ------------------------------------------------------------------ *)
(** ** Normalization *)

Lemma finishImport_rows : forall now today importing mapping,
  finishImport now today importing mapping
  = List.concat (mapi (row_records now today mapping) O (data importing)).
Proof.
  intros now today importing mapping. unfold finishImport.
  generalize O. induction (data importing) as [|row r IH]; intro i;
    [reflexivity|].
  cbn [mapi filter List.concat]. unfold row_records at 1.
  destruct (num_gtb (amount (normalize now today mapping row i)) num_zero);
    cbn [app]; now rewrite IH.
Qed.

Lemma num_abs_positive : forall x,
  is_NaN x = false -> is_zero x = false ->
  num_truthy (num_abs x) = true /\ num_gtb (num_abs x) num_zero = true.
Proof.
  intros [| | |d]; cbn [is_NaN is_zero num_abs]; intros Hn Hz;
    try discriminate; try (split; reflexivity).
  apply Z.eqb_neq in Hz. split.
  - cbn [num_truthy dabs dmant]. apply negb_true_iff, Z.eqb_neq. lia.
  - rewrite num_gtb_Fin. cbn [dabs dmant]. apply Z.ltb_lt. lia.
Qed.

Lemma num_abs_not_positive : forall x,
  is_NaN x = true \/ is_zero x = true ->
  num_gtb (num_or (num_abs x) num_zero) num_zero = false.
Proof.
  intros [| | |d]; cbn [is_NaN is_zero num_abs]; intros [H|H];
    try discriminate; try reflexivity.
  apply Z.eqb_eq in H. unfold num_or. cbn [num_truthy dabs dmant].
  rewrite H. reflexivity.
Qed.

(** The default ['0'] of an absent amount cell makes no difference to
    whether the row is kept. *)
Lemma rawAmt_cell : forall row mapping,
  rawAmt row mapping = string_filter amount_char (amount_cell row mapping) \/
  (parseFloat (rawAmt row mapping) = num_zero /\
   parseFloat (string_filter amount_char (amount_cell row mapping)) = NaN).
Proof.
  intros row mapping. unfold rawAmt, amount_cell, str_or.
  destruct (row_get (Mapping.amount mapping) row) as [[|c s]|].
  - right. split; reflexivity.
  - left. reflexivity.
  - right. split; reflexivity.
Qed.

(** C1.  The batch holds, row by row, the record of each row whose amount
    cell, stripped of every character but digits, points and minus signs
    and read by [parseFloat], is a number other than zero; the amount of
    that record is the absolute value of the number read, and it is
    positive.  A row whose stripped cell does not parse or parses to zero
    contributes nothing.  Appending puts exactly these records at the end
    of the store. *)
Theorem normalization_amount :
  forall now today importing mapping,
    let batch := finishImport now today importing mapping in
    batch = List.concat (mapi (row_records now today mapping) O (data importing)) /\
    (forall row i,
        let x := parseFloat (string_filter amount_char (amount_cell row mapping)) in
        (is_NaN x = true \/ is_zero x = true ->
         row_records now today mapping row i = []) /\
        (is_NaN x = false -> is_zero x = false ->
         exists e, row_records now today mapping row i = [e] /\
                   e = normalize now today mapping row i /\
                   amount e = num_abs x /\
                   num_gtb (amount e) num_zero = true)) /\
    Forall (fun e => num_gtb (amount e) num_zero = true) batch /\
    (forall st, expenses (append st batch)
                = (expenses st ++ map Expense_to_json batch)%list).
Proof.
  intros now today importing mapping batch.
  split; [apply finishImport_rows|]. split; [|split].
  - intros row i x. unfold row_records. cbn [normalize amount].
    destruct (rawAmt_cell row mapping) as [E|[E0 En]].
    + rewrite E. fold x. split.
      * intro H. now rewrite num_abs_not_positive.
      * intros Hn Hz. destruct (num_abs_positive x Hn Hz) as [Ht Hp].
        unfold num_or. rewrite Ht, Hp. eexists. split; [reflexivity|].
        split; [reflexivity|]. cbn [normalize amount]. rewrite E. fold x.
        unfold num_or. rewrite Ht. split; [reflexivity | exact Hp].
    + rewrite E0. split.
      * intros _. reflexivity.
      * subst x. rewrite En. discriminate.
  - unfold batch, finishImport. apply Forall_forall. intros e He.
    apply filter_In in He. apply He.
  - intro st. reflexivity.
Qed.

Lemma normalization_amount_witness :
  finishImport (frozen_clock 1700000000000) (frozen_clock 1700000000000)
    example_importing example_mapping
  = [ {| id := "txn-1700000000000-0"; date := "2024-01-05";
         description := "Coffee"; amount := num_of_Z 50;
         category := "Dining"; account := "Imported" |} ].
Proof.
  rewrite (proj1 (normalization_amount
                    (frozen_clock 1700000000000) (frozen_clock 1700000000000)
                    example_importing example_mapping)).
  reflexivity.
Defined.

(** A row whose amount cell gives no number, or zero, contributes no
    record. *)
Lemma row_records_excluded : forall now today mapping row i,
  (let x := parseFloat (string_filter amount_char (amount_cell row mapping)) in
   is_NaN x = true \/ is_zero x = true) ->
  row_records now today mapping row i = [].
Proof.
  intros now today mapping row i H. cbv zeta in H.
  unfold row_records. cbn [normalize amount].
  destruct (rawAmt_cell row mapping) as [E|[E0 En]].
  - rewrite E. now rewrite num_abs_not_positive.
  - rewrite E0. reflexivity.
Qed.

Lemma mapi_excluded : forall now today mapping rows i,
  (forall row, In row rows ->
     let x := parseFloat (string_filter amount_char (amount_cell row mapping)) in
     is_NaN x = true \/ is_zero x = true) ->
  List.concat (mapi (row_records now today mapping) i rows) = [].
Proof.
  intros now today mapping rows. induction rows as [|row r IH]; intros i H;
    [reflexivity|].
  cbn [mapi List.concat]. rewrite row_records_excluded.
  - apply IH. intros row' Hr. apply H. now right.
  - apply H. now left.
Qed.

(** When every row of the file has an amount cell that is empty, is no
    number or is zero, the batch is empty and appending it leaves the
    records of the store as they were. *)
Theorem append_all_excluded :
  forall now today importing mapping st,
    (forall row, In row (data importing) ->
       let x := parseFloat (string_filter amount_char (amount_cell row mapping)) in
       is_NaN x = true \/ is_zero x = true) ->
    finishImport now today importing mapping = [] /\
    expenses (append st (finishImport now today importing mapping))
    = expenses st.
Proof.
  intros now today importing mapping st H.
  assert (E : finishImport now today importing mapping = []).
  { rewrite finishImport_rows. now apply mapi_excluded. }
  split; [exact E|]. rewrite E. unfold append. cbn [expenses map].
  apply app_nil_r.
Qed.

Lemma append_all_excluded_witness :
  finishImport (frozen_clock 1700000000000) (frozen_clock 1700000000000)
    excluded_importing example_mapping = [] /\
  expenses (append initial
              (finishImport (frozen_clock 1700000000000)
                 (frozen_clock 1700000000000)
                 excluded_importing example_mapping))
  = expenses initial.
Proof.
  apply (append_all_excluded
           (frozen_clock 1700000000000) (frozen_clock 1700000000000)
           excluded_importing example_mapping initial).
  intros row [<-|[<-|[<-|[<-|[]]]]]; vm_compute; auto.
Defined.


(* ------------------------------------------------------------------ *)
(** ** The years of the dashboard (line 246) *)

Lemma newest_first_head : forall years y0,
  newest_first years -> most_recent years y0 ->
  hd_error years = Some (Some y0).
Proof.
  intros years y0 Hs [Hin Hmax]. destruct Hs as [|a r Hr Ha]; [contradiction|].
  cbn [hd_error]. f_equal. destruct Hin as [->|Hin]; [reflexivity|].
  rewrite Forall_forall in Ha. specialize (Ha _ Hin).
  destruct a as [x|]; cbn in Ha; [|contradiction].
  f_equal. specialize (Hmax x (or_introl eq_refl)). lia.
Qed.

Lemma num_of_Z_small : forall z,
  Z.abs z < 1000000 -> num_of_Z z = Fin (dec_of_Z z).
Proof.
  intros z Hz. unfold num_of_Z.
  destruct (fin_cases (dec_of_Z z)) as [[_ H]|[[_ H]|[E _]]]; [| |exact E];
    exfalso; cbn [dec_of_Z dmant dscale] in H; change (pow10 0) with 1 in H;
    assert (1000000 < overflow_bound) by reflexivity; lia.
Qed.

Lemma year_num_ltb : forall a b,
  plausible_year a -> plausible_year b ->
  num_ltb (year_num a) (year_num b) = true <-> ~ not_before a b.
Proof.
  intros a b [x [-> Hx]] [y [-> Hy]]. cbn [year_num not_before].
  rewrite !num_of_Z_small by assumption. cbn [num_ltb].
  rewrite dltb_lt. cbn [dec_of_Z dmant dscale]. change (pow10 0) with 1. lia.
Qed.

Lemma year_num_not_NaN : forall a, plausible_year a -> is_NaN (year_num a) = false.
Proof.
  intros a [x [-> Hx]]. cbn [year_num]. now rewrite num_of_Z_small.
Qed.

Lemma not_before_trans : forall a b c,
  not_before a b -> not_before b c -> not_before a c.
Proof.
  intros [x|] [y|] [z|]; cbn; try tauto. lia.
Qed.

Lemma distinct_In : forall l seen y,
  In y (distinct l seen) <-> In y seen \/ In y l.
Proof.
  induction l as [|x r IH]; intros seen y; cbn [distinct].
  - cbn. tauto.
  - rewrite IH. destruct (existsb (key_eqb x) seen) eqn:E.
    + apply existsb_exists in E. destruct E as [x' [Hx' E]].
      apply key_eqb_eq in E. subst x'. cbn. split; [tauto|].
      intros [H|[<-|H]]; tauto.
    + rewrite in_app_iff. cbn. tauto.
Qed.

(** With valid dates, [App] lists the years of the records newest first. *)
Lemma App_years_newest_first : forall h expenses,
  (forall e, In e expenses ->
             plausible_year (getFullYear h (new_Date h (date e)))) ->
  newest_first (App_years h expenses) /\
  (forall y, In y (App_years h expenses) <->
             exists e, In e expenses /\
                       getFullYear h (new_Date h (date e)) = y).
Proof.
  intros h expenses Hv.
  assert (Hin : forall y, In y (App_years h expenses) <->
             exists e, In e expenses /\
                       getFullYear h (new_Date h (date e)) = y).
  { intro y. unfold App_years. rewrite js_sort_In, distinct_In, in_map_iff.
    cbn. split.
    - intros [[]|[e [E He]]]. now exists e.
    - intros [e [He E]]. right. now exists e. }
  split; [|exact Hin].
  unfold newest_first, App_years.
  apply js_sort_sorted with (P := plausible_year).
  - exact not_before_trans.
  - intros x y Hx Hy E.
    rewrite num_sub_gt in E by now apply year_num_not_NaN.
    apply year_num_ltb in E; try assumption.
    destruct Hx as [a [-> _]], Hy as [b [-> _]]. cbn in *. lia.
  - intros x y Hx Hy E.
    rewrite num_sub_gt in E by now apply year_num_not_NaN.
    destruct Hx as [a [-> Ha]], Hy as [b [-> Hb]]. cbn.
    destruct (Z_le_gt_dec b a) as [L|G]; [exact L|]. exfalso.
    assert (T : num_ltb (year_num (Some a)) (year_num (Some b)) = true).
    { apply year_num_ltb; [now exists a | now exists b |]. cbn. lia. }
    congruence.
  - apply Forall_forall. intros y Hy.
    assert (Hy' : In y (App_years h expenses))
      by (unfold App_years; now apply js_sort_In).
    apply Hin in Hy'. destruct Hy' as [e [He <-]]. now apply Hv.
Qed.

Lemma App_years_newest_first_witness :
  newest_first (App_years utc_host five_expenses) /\
  (forall y, In y (App_years utc_host five_expenses) <->
             exists e, In e five_expenses /\
                       getFullYear utc_host (new_Date utc_host (date e)) = y).
Proof.
  apply (App_years_newest_first utc_host five_expenses).
  intros e [<-|[<-|[<-|[<-|[<-|[<-|[]]]]]]];
    (eexists; split; [vm_compute; reflexivity | vm_compute; reflexivity]).
Defined.


(* ------------------------------------------------------------------ *)
(** ** Category comparison: rows and order *)

Lemma filter_map_comm : forall (A B : Type) (f : A -> B) (p : B -> bool) l,
  filter p (map f l) = map f (filter (fun x => p (f x)) l).
Proof.
  intros A B f p l. induction l as [|x r IH]; [reflexivity|].
  cbn [map filter]. destruct (p (f x)); cbn [map]; now rewrite IH.
Qed.

Lemma existsb_ext_in : forall (A : Type) (p q : A -> bool) l,
  (forall x, In x l -> p x = q x) -> existsb p l = existsb q l.
Proof.
  intros A p q l. induction l as [|x r IH]; intro H; [reflexivity|].
  cbn [existsb]. rewrite (H x) by now left.
  rewrite IH; [reflexivity|]. intros; apply H. now right.
Qed.

(** A row holds, for each selected year, the rounded sum of its category. *)
Lemma entry_get_total : forall h expenses years cat y,
  In y years ->
  entry_get (category_entry h expenses years cat) y
  = Some (round2 (category_total h expenses cat y)).
Proof.
  intros h expenses years cat y Hy. unfold entry_get, category_entry.
  cbn [category_values].
  now rewrite (obj_get_fill key_eqb key_eqb_eq) by assumption.
Qed.

Lemma entry_shown : forall h expenses years cat,
  existsb (entry_positive (category_entry h expenses years cat)) years
  = shown h expenses years cat.
Proof.
  intros h expenses years cat. unfold shown. apply existsb_ext_in.
  intros y Hy. unfold entry_positive. now rewrite entry_get_total.
Qed.

Lemma num_or_not_NaN : forall x, is_NaN (num_or x num_zero) = false.
Proof. intros [| | |d]; unfold num_or; cbn [num_truthy]; try reflexivity.
  destruct (negb (dmant d =? 0)); reflexivity.
Qed.

Lemma sort_key_not_NaN : forall cy d, is_NaN (sort_key cy d) = false.
Proof.
  intros [y|] d; unfold sort_key; [|reflexivity].
  destruct (entry_get d y); [apply num_or_not_NaN | reflexivity].
Qed.

(** C6 (amended).  The view has one row for each category of [CATEGORIES]
    whose sum, rounded to two decimals, is positive in at least one
    selected year, and no other row; a row carries the rounded sum of its
    category for every selected year; the rows are in descending order of
    their value for the first selected year. *)
Theorem category_comparison_rows :
  forall h expenses years,
    let view := CategoryComparisonChart h expenses years in
    Permutation view
      (map (category_entry h expenses years)
           (filter (shown h expenses years) CATEGORIES)) /\
    (forall d y, In d view -> In y years ->
       entry_get d y
       = Some (round2 (category_total h expenses (entry_category d) y))) /\
    StronglySorted (descending_by (hd_error years)) view /\
    (forall y0, newest_first years -> most_recent years y0 ->
                StronglySorted (descending_by (Some (Some y0))) view).
Proof.
  intros h expenses years view. unfold view, CategoryComparisonChart.
  assert (HP : Permutation
                 (js_sort
                    (fun a b => num_sub (sort_key (hd_error years) b)
                                        (sort_key (hd_error years) a))
                    (filter (fun d => existsb (entry_positive d) years)
                       (map (category_entry h expenses years) CATEGORIES)))
                 (map (category_entry h expenses years)
                    (filter (shown h expenses years) CATEGORIES))).
  { eapply perm_trans; [apply Permutation_sym, js_sort_perm|].
    rewrite filter_map_comm.
    rewrite (filter_ext _ (shown h expenses years)); [apply Permutation_refl|].
    intro cat. apply entry_shown. }
  assert (HS : StronglySorted (descending_by (hd_error years))
                 (js_sort
                    (fun a b => num_sub (sort_key (hd_error years) b)
                                        (sort_key (hd_error years) a))
                    (filter (fun d => existsb (entry_positive d) years)
                       (map (category_entry h expenses years) CATEGORIES)))).
  2: { split; [exact HP|]. split; [|split; [exact HS|]].
       - intros d y Hd Hy.
         apply (Permutation_in _ HP) in Hd. apply in_map_iff in Hd.
         destruct Hd as [cat [<- _]]. now apply entry_get_total.
       - intros y0 Hn Hm. rewrite <- (newest_first_head years y0 Hn Hm).
         exact HS. }
  - apply js_sort_sorted with (P := fun _ => True).
    + intros x y z Hxy Hyz. unfold descending_by in *.
      eapply num_le_trans; eassumption.
    + intros x y _ _ H. unfold descending_by.
      rewrite num_sub_gt in H by apply sort_key_not_NaN.
      now apply num_ltb_le.
    + intros x y _ _ H. unfold descending_by.
      rewrite num_sub_gt in H by apply sort_key_not_NaN.
      apply num_nltb_le; [apply sort_key_not_NaN .. | exact H].
    + apply Forall_forall. intros; exact I.
Qed.

(** C6 as stated fails: the category "Coffee" totals 5 in 2024 and the view
    has no row for it. *)
Lemma category_comparison_misses_free_text :
  ~ (forall h expenses years cat,
       years <> [] ->
       (exists y, In y years /\
                  is_zero (category_total h expenses cat y) = false) ->
       exists d, In d (CategoryComparisonChart h expenses years) /\
                 entry_category d = cat).
Proof.
  intro H.
  destruct (H utc_host coffee_expenses [Some 2024] "Coffee")
    as [d [Hd _]].
  - discriminate.
  - exists (Some 2024). split; [now left | reflexivity].
  - vm_compute in Hd. exact Hd.
Qed.

(* ------------------------------------------------------------------ *)
(** ** Transaction distribution *)

Lemma num_le_refl : forall x, is_NaN x = false -> num_le x x.
Proof.
  intros [| | |d]; cbn [is_NaN num_le]; intro H; try discriminate; try exact I.
  unfold dle. lia.
Qed.

(** Sorting with [(a, b) => a - b] puts numbers in ascending order. *)
Lemma sort_ascending : forall data,
  Forall (fun x => is_NaN x = false) data ->
  StronglySorted num_le (js_sort (fun a b => num_sub a b) data).
Proof.
  intros data H.
  apply js_sort_sorted with (P := fun x => is_NaN x = false);
    [exact num_le_trans | | | exact H].
  - intros x y Hx Hy E. rewrite num_sub_gt in E by assumption.
    now apply num_ltb_le.
  - intros x y Hx Hy E. rewrite num_sub_gt in E by assumption.
    now apply num_nltb_le.
Qed.



Lemma getBoxPlotData_nonempty : forall data,
  (1 <= List.length data)%nat ->
  getBoxPlotData data
  = let sorted := js_sort (fun a b => num_sub a b) data in
    let n := List.length sorted in
    {| min := nth_error sorted 0;
       q1 := nth_error sorted (n / 4);
       median := nth_error sorted (n / 2);
       q3 := nth_error sorted ((n * 3) / 4);
       max := nth_error sorted (n - 1) |}.
Proof.
  intros [|x r] H; [cbn in H; lia | reflexivity].
Qed.



(* ------------------------------------------------------------------ *)
(** ** Pace of spending *)

(** C2 fails on the code.  With one record of 100 dated 2024-12-31 (day
    366 of a leap year) the year's amounts sum to 100 and the cumulative
    array holds 100 at index 366, but the view's last entry is the one of
    day 365, and its value for 2024 is 0.  On every input the view samples
    days 0 to 365 only. *)
Theorem pace_last_sample_misses_day_366 :
  getDayOfYear utc_host (new_Date utc_host "2024-12-31") = Some 366 /\
  sum_amounts (filter (in_year utc_host (Some 2024)) leap_day_expenses)
  = num_of_Z 100 /\
  nth_error (year_cumulative utc_host leap_day_expenses (Some 2024)) 366
  = Some (num_of_Z 100) /\
  List.length (PaceOfSpendingChart utc_host leap_day_expenses [Some 2024])
  = 74%nat /\
  nth_error (PaceOfSpendingChart utc_host leap_day_expenses [Some 2024]) 73
  = Some {| day := 365; pace_values := [(Some 2024, num_zero)] |} /\
  (forall h expenses years e,
     In e (PaceOfSpendingChart h expenses years) -> 0 <= day e <= 365).
Proof.
  split; [vm_compute; reflexivity|].
  split; [vm_compute; reflexivity|].
  split; [vm_compute; reflexivity|].
  split; [vm_compute; reflexivity|].
  split; [vm_compute; reflexivity|].
  intros h expenses years e He. unfold PaceOfSpendingChart in He.
  apply in_map_iff in He. destruct He as [i [<- Hi]].
  apply in_seq in Hi. cbn [day]. lia.
Qed.

(* ------------------------------------------------------------------ *)
(** ** The initial load *)

(** The first effect never throws. *)
Lemma load_effect_normal : forall saved, exists eff, load_effect saved = Normal eff.
Proof.
  intros [s|]; cbn [load_effect]; [|now eexists].
  destruct (str_truthy s); [|now eexists].
  unfold JSON_parse_or_throw. destruct (JSON_parse s); cbn; now eexists.
Qed.

(** C8 (amended).  When the stored text is not a JSON array, the first
    effect ends normally without calling [setExpenses], the store is empty
    after the page load, and the console gets one line exactly when the
    text is not empty and does not parse; a text that parses to a value
    that is no array, and the empty text, are passed over without a line. *)
Theorem load_of_invalid_content :
  forall saved,
    not_an_array saved ->
    exists log,
      load_effect (Some saved)
      = Normal {| set_expenses := None; console := log |} /\
      mount (Some saved)
      = ({| expenses := []; storage := Some (persist_effect []) |}, log) /\
      (saved <> EmptyString -> JSON_parse saved = None ->
       log = ["Persistence Load Error"]) /\
      (saved = EmptyString \/ JSON_parse saved <> None -> log = []).
Proof.
  intros saved H. unfold mount. cbn [load_effect].
  destruct saved as [|c saved']; cbn [str_truthy].
  - exists []. repeat split; try reflexivity. intro; congruence.
  - unfold JSON_parse_or_throw.
    destruct H as [H|[v [H Hv]]]; rewrite H; cbn.
    + exists ["Persistence Load Error"]. repeat split; try reflexivity.
      intros [E|E]; [discriminate | congruence].
    + exists []. destruct v; try discriminate Hv;
        (repeat split; try reflexivity; intros; congruence).
Qed.

Lemma load_of_invalid_content_witness :
  not_an_array "[1," /\
  exists log,
    load_effect (Some "[1,")
    = Normal {| set_expenses := None; console := log |} /\
    mount (Some "[1,")
    = ({| expenses := []; storage := Some (persist_effect []) |}, log) /\
    ("[1," <> EmptyString -> JSON_parse "[1," = None ->
     log = ["Persistence Load Error"]) /\
    ("[1," = EmptyString \/ JSON_parse "[1," <> None -> log = []).
Proof.
  assert (H : not_an_array "[1,") by (left; reflexivity).
  split; [exact H|]. exact (load_of_invalid_content "[1," H).
Defined.

(** C8 as stated fails: the stored text [{}] is no array, and nothing is
    written to the console. *)
Lemma load_of_object_logs_nothing :
  ~ (forall saved,
       not_an_array saved ->
       exists eff, load_effect (Some saved) = Normal eff /\ console eff <> []).
Proof.
  intro H. destruct (H "{}") as [eff [E Hc]].
  - right. exists (JObj []). split; reflexivity.
  - vm_compute in E. inversion E; subst. now apply Hc.
Qed.

(* ------------------------------------------------------------------ *)
(** ** Decimal numerals, printed and read back *)

Lemma code_chr : forall n, 0 <= n < 256 -> code (chr n) = n.
Proof.
  intros n H. unfold code, chr. rewrite nat_ascii_embedding; lia.
Qed.

Lemma chr_code : forall c, chr (code c) = c.
Proof.
  intro c. unfold code, chr. rewrite Nat2Z.id. apply ascii_nat_embedding.
Qed.

Lemma code_range : forall c, 0 <= code c < 256.
Proof.
  intro c. unfold code. pose proof (nat_ascii_bounded c). lia.
Qed.

Lemma digit_chr_digit : forall d,
  0 <= d < 10 -> is_digit (digit_chr d) = true /\ digit_val (digit_chr d) = d.
Proof.
  intros d H. unfold is_digit, digit_val, digit_chr.
  rewrite code_chr by lia. split; [|lia].
  apply andb_true_iff. split; apply Z.leb_le; lia.
Qed.

Lemma digit_chr_zero : forall d,
  0 <= d < 10 -> Ascii.eqb (digit_chr d) "0" = true -> d = 0.
Proof.
  intros d H E. apply Ascii.eqb_eq in E.
  apply (f_equal code) in E. unfold digit_chr in E.
  rewrite code_chr in E by lia. change (code "0") with 48 in E. lia.
Qed.

Lemma digits_value_app : forall a b acc,
  digits_value acc (a ++ b) = digits_value (digits_value acc a) b.
Proof.
  induction a as [|c a IH]; intros b acc; [reflexivity|]. cbn. apply IH.
Qed.

Lemma string_forallb_app : forall p a b,
  string_forallb p (a ++ b) = string_forallb p a && string_forallb p b.
Proof.
  intros p a b. induction a as [|c a IH]; [reflexivity|].
  cbn. rewrite IH. apply andb_assoc.
Qed.

Lemma append_assoc : forall a b c : string, (a ++ b) ++ c = a ++ b ++ c.
Proof.
  induction a as [|x a IH]; intros b c; [reflexivity|]. cbn. now rewrite IH.
Qed.

Lemma append_nil_r : forall a : string, a ++ EmptyString = a.
Proof. induction a as [|x a IH]; [reflexivity|]. cbn. now rewrite IH. Qed.

Lemma length_append : forall a b : string,
  String.length (a ++ b) = (String.length a + String.length b)%nat.
Proof. induction a as [|x a IH]; intro b; [reflexivity|]. cbn. now rewrite IH. Qed.

Lemma digits_fuel_S : forall f n acc,
  digits_fuel (S f) n acc
  = if n <? 10 then String (digit_chr n) acc
    else digits_fuel f (n / 10) (String (digit_chr (n mod 10)) acc).
Proof. reflexivity. Qed.

Lemma digits_fuel_spec : forall fuel n acc,
  0 <= n < 2 ^ Z.of_nat (S fuel) ->
  exists ds,
    digits_fuel (S fuel) n acc = ds ++ acc /\
    string_forallb is_digit ds = true /\
    digits_value 0 ds = n /\
    (0 < n -> head_nonzero ds) /\
    (n = 0 -> ds = "0").
Proof.
  induction fuel as [|f IH]; intros n acc H;
    rewrite digits_fuel_S; destruct (n <? 10) eqn:E.
  1, 3: apply Z.ltb_lt in E;
      destruct (digit_chr_digit n ltac:(lia)) as [Hd Hv];
      exists (String (digit_chr n) EmptyString); repeat split;
      [ cbn; now rewrite Hd
      | cbn; lia
      | intro Hp; cbn;
        destruct (Ascii.eqb (digit_chr n) "0") eqn:Z0; [|reflexivity];
        apply digit_chr_zero in Z0; lia
      | intros ->; reflexivity ].
  - apply Z.ltb_ge in E. change (2 ^ Z.of_nat 1) with 2 in H. lia.
  - apply Z.ltb_ge in E.
    assert (Hdiv : 0 <= n / 10 < 2 ^ Z.of_nat (S f)).
    { rewrite (Nat2Z.inj_succ (S f)), Z.pow_succ_r in H by lia.
      split; [apply Z.div_pos; lia|].
      apply Z.div_lt_upper_bound; lia. }
    destruct (IH (n / 10) (String (digit_chr (n mod 10)) acc) Hdiv)
      as [ds [E1 [Hd [Hv [Hh _]]]]].
    pose proof (Z.mod_pos_bound n 10 ltac:(lia)) as Hm.
    destruct (digit_chr_digit (n mod 10) Hm) as [Hd' Hv'].
    exists (ds ++ String (digit_chr (n mod 10)) EmptyString). repeat split.
    + rewrite E1. now rewrite append_assoc.
    + rewrite string_forallb_app, Hd. cbn. now rewrite Hd'.
    + rewrite digits_value_app, Hv. cbn. rewrite Hv'.
      pose proof (Z.div_mod n 10 ltac:(lia)). lia.
    + intros _. assert (Hq : 0 < n / 10) by (apply Z.div_str_pos; lia).
      specialize (Hh Hq). destruct ds; [contradiction | exact Hh].
    + intros ->. lia.
Qed.

Lemma digits_of_spec : forall n,
  0 <= n ->
  string_forallb is_digit (digits_of n) = true /\
  digits_value 0 (digits_of n) = n /\
  (0 < n -> head_nonzero (digits_of n)) /\
  (n = 0 -> digits_of n = "0").
Proof.
  intros n Hn. unfold digits_of.
  destruct (digits_fuel_spec (Z.to_nat (Z.log2 n)) n EmptyString)
    as [ds [E H]].
  - rewrite Nat2Z.inj_succ, Z2Nat.id by apply Z.log2_nonneg.
    split; [exact Hn|].
    destruct (Z.eq_dec n 0) as [->|Hz]; [reflexivity|].
    apply Z.log2_spec. lia.
  - rewrite E, append_nil_r. exact H.
Qed.

Lemma digits_of_nonempty : forall n, 0 <= n -> digits_of n <> EmptyString.
Proof.
  intros n Hn. destruct (digits_of_spec n Hn) as [_ [_ [Hh Hz]]].
  destruct (Z.eq_dec n 0) as [E|E].
  - rewrite (Hz E). discriminate.
  - specialize (Hh ltac:(lia)). destruct (digits_of n); [contradiction | discriminate].
Qed.

Lemma span_digits_app : forall ds rest,
  string_forallb is_digit ds = true -> no_digit_head rest ->
  span_digits (ds ++ rest) = (ds, rest).
Proof.
  induction ds as [|c ds IH]; intros rest Hd Hr.
  - cbn. destruct rest as [|c r]; [reflexivity|]. cbn in *. now rewrite Hr.
  - cbn in Hd. apply andb_true_iff in Hd. destruct Hd as [Hc Hd].
    cbn. rewrite Hc, (IH rest Hd Hr). reflexivity.
Qed.

Lemma take_drop : forall n s, take n s ++ drop n s = s.
Proof.
  induction n as [|n IH]; intros [|c s]; try reflexivity. cbn. now rewrite IH.
Qed.

Lemma length_take : forall n s,
  (n <= String.length s)%nat -> String.length (take n s) = n.
Proof.
  induction n as [|n IH]; intros [|c s] H; try reflexivity; cbn in *; [lia|].
  rewrite IH; lia.
Qed.

Lemma length_drop : forall n s,
  String.length (drop n s) = (String.length s - n)%nat.
Proof.
  induction n as [|n IH]; intros s.
  - cbn. destruct s; cbn; lia.
  - destruct s as [|c s]; [reflexivity|]. cbn. apply IH.
Qed.

Lemma forallb_take_drop : forall p n s,
  string_forallb p s = true ->
  string_forallb p (take n s) = true /\ string_forallb p (drop n s) = true.
Proof.
  intros p n s H. rewrite <- (take_drop n s), string_forallb_app in H.
  now apply andb_true_iff in H.
Qed.

Lemma length_repeat_char : forall c n, String.length (repeat_char c n) = n.
Proof. induction n as [|n IH]; [reflexivity|]. cbn. now rewrite IH. Qed.

Lemma forallb_zeros : forall n, string_forallb is_digit (repeat_char "0" n) = true.
Proof. induction n as [|n IH]; [reflexivity|]. cbn. exact IH. Qed.

Lemma digits_value_zeros : forall n acc,
  digits_value acc (repeat_char "0" n) = acc * pow10 n.
Proof.
  induction n as [|n IH]; intro acc.
  - cbn. change (pow10 0) with 1. lia.
  - cbn [repeat_char digits_value]. rewrite IH, pow10_S.
    change (digit_val "0") with 0. ring.
Qed.

(** Stripping trailing zeros splits a numeral. *)
Lemma strip_trailing_zeros_spec : forall s ds t,
  strip_trailing_zeros s = (ds, t) -> s = ds ++ repeat_char "0" t.
Proof.
  induction s as [|c s IH]; intros ds t H.
  - cbn in H. inversion H. reflexivity.
  - cbn in H. destruct (strip_trailing_zeros s) as [r' n].
    specialize (IH r' n eq_refl). rewrite IH. destruct r' as [|c' r''].
    + destruct (Ascii.eqb c "0") eqn:E.
      * apply Ascii.eqb_eq in E. inversion H. rewrite E. reflexivity.
      * inversion H. reflexivity.
    + inversion H. reflexivity.
Qed.

Lemma dnorm_scale_le : forall k m, (dscale (dnorm m k) <= k)%nat.
Proof.
  induction k as [|k IH]; intro m; cbn; [lia|].
  destruct (m mod 10 =? 0); cbn; [|lia]. specialize (IH (m / 10)). lia.
Qed.

Lemma canonical_last_digit : forall m k,
  canonical (Dec m (S k)) -> m mod 10 <> 0.
Proof.
  intros m k H E. unfold canonical in H. cbn in H.
  apply Z.eqb_eq in E. rewrite E in H.
  pose proof (dnorm_scale_le k (m / 10)) as L. rewrite H in L. cbn in L. lia.
Qed.

Lemma canonical_zero : forall d, canonical d -> dmant d = 0 -> d = dzero.
Proof.
  intros [m k] H E. cbn in E. subst m. unfold canonical in H. cbn in H.
  rewrite <- H. clear H. induction k as [|k IH]; [reflexivity|]. cbn. exact IH.
Qed.

Lemma dnorm_neg : forall k m, dnorm (- m) k = dneg (dnorm m k).
Proof.
  induction k as [|k IH]; intro m; [reflexivity|]. cbn [dnorm].
  destruct (m mod 10 =? 0) eqn:E.
  - apply Z.eqb_eq in E.
    assert (E' : (- m) mod 10 = 0) by (apply Z.mod_opp_l_z; lia).
    rewrite E', Z.eqb_refl. rewrite Z.div_opp_l_z by lia. apply IH.
  - apply Z.eqb_neq in E.
    assert (E' : (- m) mod 10 <> 0).
    { intro H. apply E. rewrite <- (Z.opp_involutive m).
      apply Z.mod_opp_l_z; lia. }
    apply Z.eqb_neq in E'. rewrite E'. reflexivity.
Qed.

Lemma dec_sci_neg : forall m e, dec_sci (- m) e = dneg (dec_sci m e).
Proof.
  intros m e. unfold dec_sci. destruct (0 <=? e).
  - unfold dneg. cbn. f_equal. ring.
  - apply dnorm_neg.
Qed.

Lemma canonical_abs : forall d, canonical d -> canonical (dabs d).
Proof.
  intros [m k] H. unfold canonical, dabs in *. cbn in *.
  destruct (Z.abs_spec m) as [[_ ->]|[_ ->]]; [exact H|].
  rewrite dnorm_neg, H. reflexivity.
Qed.

Lemma delim_no_digit : forall s, delim s -> no_digit_head s.
Proof.
  intros [|c s]; cbn; [trivial|]. intros [->|[->| ->]]; reflexivity.
Qed.

Lemma str_truthy_nonempty : forall s, s <> EmptyString -> str_truthy s = true.
Proof. intros [|c s] H; [contradiction | reflexivity]. Qed.

(** Reading back a numeral laid out as integer part, fraction and
    exponent. *)
Lemma parse_unsigned_text : forall neg ip fp ex rest,
  string_forallb is_digit ip = true ->
  ip = "0" \/ head_nonzero ip ->
  string_forallb is_digit fp = true ->
  delim rest ->
  parse_unsigned neg (ip ++ frac_text fp ++ exp_text ex ++ rest)
  = Some (fin (dec_sci (if neg then - digits_value 0 (ip ++ fp)
                        else digits_value 0 (ip ++ fp))
                 (exp_value ex - Z.of_nat (String.length fp))), rest).
Proof.
  intros neg ip fp ex rest Hip Hhead Hfp Hrest. unfold parse_unsigned.
  assert (Hex : no_digit_head (exp_text ex ++ rest)).
  { destruct ex; cbn; [reflexivity | now apply delim_no_digit]. }
  assert (Hfr : no_digit_head (frac_text fp ++ exp_text ex ++ rest)).
  { destruct fp; cbn; [exact Hex | reflexivity]. }
  rewrite (span_digits_app ip _ Hip Hfr).
  destruct ip as [|c ip']; [destruct Hhead as [H|H]; [discriminate | contradiction]|].
  assert (Hlz : Ascii.eqb c "0" && str_truthy ip' = false).
  { destruct Hhead as [H|H]; [inversion H; reflexivity|].
    cbn in H. now rewrite H. }
  rewrite Hlz.
  assert (Hexp :
    match exp_text ex ++ rest with
    | String c' r =>
        if Ascii.eqb c' "e" || Ascii.eqb c' "E" then
          let (eneg, r3) := read_sign r in
          let (ds, r4) := span_digits r3 in
          if str_truthy ds then
            Some ((if eneg then - digits_value 0 ds else digits_value 0 ds), r4)
          else None
        else Some (0, exp_text ex ++ rest)
    | EmptyString => Some (0, exp_text ex ++ rest)
    end = Some (exp_value ex, rest)).
  { destruct ex as [e|]; cbn [exp_text exp_value].
    - cbn [String.append]. cbn [Ascii.eqb Bool.eqb orb].
      assert (He : 0 <= Z.abs e) by lia.
      destruct (digits_of_spec (Z.abs e) He) as [Hd [Hv _]].
      pose proof (digits_of_nonempty (Z.abs e) He) as Hne.
      destruct (e <? 0) eqn:Es; cbn [String.append read_sign Ascii.eqb Bool.eqb];
        rewrite (span_digits_app _ _ Hd (delim_no_digit _ Hrest));
        rewrite (str_truthy_nonempty _ Hne), Hv; do 2 f_equal;
        [apply Z.ltb_lt in Es | apply Z.ltb_ge in Es]; lia.
    - cbn [String.append]. destruct rest as [|c' r]; [reflexivity|].
      cbn in Hrest. destruct Hrest as [->|[->| ->]]; reflexivity. }
  destruct fp as [|f fp'].
  - cbn [frac_text String.append String.length].
    assert (Hnd : match exp_text ex ++ rest with
                  | String c' _ => Ascii.eqb c' "." = false
                  | EmptyString => True
                  end).
    { destruct ex; cbn; [reflexivity|]. destruct rest as [|c' r]; [trivial|].
      cbn in Hrest. destruct Hrest as [->|[->| ->]]; reflexivity. }
    destruct (exp_text ex ++ rest) as [|c' r] eqn:Etail.
    + inversion Hexp; subst. now rewrite append_nil_r.
    + rewrite Hnd. rewrite Hexp. now rewrite append_nil_r.
  - cbn [frac_text]. change (("." ++ String f fp') ++ exp_text ex ++ rest)
      with (String "." (String f fp' ++ exp_text ex ++ rest)).
    cbn [Ascii.eqb Bool.eqb].
    rewrite (span_digits_app (String f fp') _ Hfp Hex). cbn [str_truthy].
    rewrite Hexp. reflexivity.
Qed.

Lemma frac_text_nonempty : forall fp,
  fp <> EmptyString -> frac_text fp = "." ++ fp.
Proof. intros [|c s] H; [contradiction | reflexivity]. Qed.

Lemma head_nonzero_app : forall a b, head_nonzero a -> head_nonzero (a ++ b).
Proof. intros [|c a] b H; [contradiction | exact H]. Qed.

Lemma head_nonzero_take : forall n s,
  head_nonzero s -> head_nonzero (take (S n) s).
Proof. intros n [|c s] H; [contradiction | exact H]. Qed.

Lemma dec_sci_frac : forall m k,
  canonical (Dec m k) -> (0 < k)%nat ->
  dec_sci m (- Z.of_nat k) = Dec m k.
Proof.
  intros m k Hc Hk. unfold dec_sci.
  destruct (0 <=? - Z.of_nat k) eqn:E; [apply Z.leb_le in E; lia|].
  rewrite Z.opp_involutive, Nat2Z.id. exact Hc.
Qed.

Lemma dec_sci_int : forall m t, dec_sci m (Z.of_nat t) = Dec (m * pow10 t) 0.
Proof.
  intros m t. unfold dec_sci.
  destruct (0 <=? Z.of_nat t) eqn:E; [reflexivity | apply Z.leb_gt in E; lia].
Qed.

(** The text of a positive canonical decimal, laid out as integer part,
    fraction and exponent that read back to it. *)
Lemma pos_dec_text : forall d,
  canonical d -> 0 < dmant d ->
  exists ip fp ex,
    pos_dec_toString d = ip ++ frac_text fp ++ exp_text ex /\
    string_forallb is_digit ip = true /\
    (ip = "0" \/ head_nonzero ip) /\
    string_forallb is_digit fp = true /\
    dec_sci (digits_value 0 (ip ++ fp))
            (exp_value ex - Z.of_nat (String.length fp)) = d.
Proof.
  intros [m sc] Hc Hm. cbn [dmant] in Hm. unfold pos_dec_toString.
  cbn [dmant dscale].
  destruct (digits_of_spec m ltac:(lia)) as [Hall [Hval [Hhead _]]].
  specialize (Hhead Hm).
  destruct (strip_trailing_zeros (digits_of m)) as [ds t] eqn:Es.
  apply strip_trailing_zeros_spec in Es.
  assert (Hds : string_forallb is_digit ds = true).
  { rewrite Es, string_forallb_app in Hall. now apply andb_true_iff in Hall. }
  assert (Hlen : String.length (digits_of m)
                 = (String.length ds + t)%nat).
  { rewrite Es. now rewrite length_append, length_repeat_char. }
  assert (Hv2 : digits_value 0 ds * pow10 t = m).
  { transitivity (digits_value 0 (digits_of m)); [|exact Hval].
    rewrite Es. now rewrite digits_value_app, digits_value_zeros. }
  assert (Hdh : head_nonzero ds).
  { rewrite Es in Hhead. destruct ds as [|c r]; [|exact Hhead].
    destruct t; cbn in Hhead; [contradiction | discriminate]. }
  assert (HA : sc <> O -> t = O).
  { intro Hsc. destruct sc as [|sc']; [contradiction|].
    apply canonical_last_digit in Hc. destruct t as [|t']; [reflexivity|].
    exfalso. apply Hc. rewrite <- Hv2, pow10_S.
    rewrite (Z.mul_comm 10), Z.mul_assoc. apply Z.mod_mul. lia. }
  assert (Hall0 : t = O -> ds = digits_of m /\ digits_value 0 ds = m).
  { intros ->. cbn in Es. rewrite append_nil_r in Es. split; [now symmetry|].
    rewrite <- Hv2. change (pow10 0) with 1. lia. }
  rewrite Hlen.
  set (k := Z.of_nat (String.length ds)).
  set (n := Z.of_nat (String.length ds + t) - Z.of_nat sc).
  assert (Hk : 0 < k).
  { unfold k. destruct ds; [contradiction | cbn; lia]. }
  destruct ((k <=? n) && (n <=? 21)) eqn:C1.
  { (* an integer written out *)
    apply andb_true_iff in C1. destruct C1 as [C1 _]. apply Z.leb_le in C1.
    assert (Hsc : sc = O).
    { destruct sc as [|sc']; [reflexivity|]. unfold k, n in C1.
      specialize (HA ltac:(discriminate)). lia. }
    subst sc. assert (Hnk : Z.to_nat (n - k) = t) by (unfold n, k; lia).
    rewrite Hnk, <- Es.
    exists (digits_of m), EmptyString, None. cbn [frac_text exp_text].
    rewrite !append_nil_r. repeat split; try assumption.
    - right. exact Hhead.
    - rewrite Hval. cbn [exp_value String.length].
      change (0 - Z.of_nat 0) with (Z.of_nat 0). rewrite dec_sci_int.
      change (pow10 0) with 1. f_equal. lia. }
  destruct ((0 <? n) && (n <=? 21)) eqn:C2.
  { (* a point inside the digits *)
    apply andb_true_iff in C2. destruct C2 as [C2 C2']. apply Z.ltb_lt in C2.
    apply Z.leb_le in C2'.
    assert (Hnk : n < k).
    { destruct (k <=? n) eqn:E; [|now apply Z.leb_gt in E].
      cbn in C1. apply Z.leb_gt in C1. lia. }
    assert (Hsc : sc <> O) by (unfold n, k in *; lia).
    specialize (HA Hsc). destruct (Hall0 HA) as [Hda Hdv]. subst t.
    set (j := Z.to_nat n).
    assert (Hj : (0 < j < String.length ds)%nat) by (unfold j, k in *; lia).
    destruct (forallb_take_drop is_digit j ds Hds) as [Ht Hd].
    assert (Hdl : String.length (drop j ds) = sc).
    { rewrite length_drop. unfold j, n in *. lia. }
    assert (Hdn : drop j ds <> EmptyString).
    { intro E. rewrite E in Hdl. cbn in Hdl. lia. }
    exists (take j ds), (drop j ds), None. cbn [exp_text exp_value].
    rewrite frac_text_nonempty by assumption. rewrite append_nil_r.
    repeat split; try assumption.
    - right. destruct j as [|j']; [lia|]. now apply head_nonzero_take.
    - rewrite take_drop, Hdv, Hdl.
      change (0 - Z.of_nat sc) with (- Z.of_nat sc).
      apply dec_sci_frac; [assumption | lia]. }
  destruct ((-6 <? n) && (n <=? 0)) eqn:C3.
  { (* zeros after the point *)
    apply andb_true_iff in C3. destruct C3 as [_ C3]. apply Z.leb_le in C3.
    assert (Hsc : sc <> O) by (unfold n, k in *; lia).
    specialize (HA Hsc). destruct (Hall0 HA) as [Hda Hdv]. subst t.
    set (z := Z.to_nat (- n)).
    assert (Hfl : String.length (repeat_char "0" z ++ ds) = sc).
    { rewrite length_append, length_repeat_char. unfold z, n. lia. }
    assert (Hfn : repeat_char "0" z ++ ds <> EmptyString).
    { intro E. apply (f_equal String.length) in E.
      rewrite length_append in E. cbn in E. unfold k in Hk. lia. }
    exists "0", (repeat_char "0" z ++ ds), None. cbn [exp_text exp_value].
    rewrite frac_text_nonempty by assumption. rewrite append_nil_r.
    repeat split.
    - now left.
    - now rewrite string_forallb_app, forallb_zeros.
    - rewrite Hfl.
      replace (digits_value 0 ("0" ++ repeat_char "0" z ++ ds)) with m.
      + change (0 - Z.of_nat sc) with (- Z.of_nat sc).
        apply dec_sci_frac; [assumption | lia].
      + cbn [String.append digits_value]. change (0 * 10 + digit_val "0") with 0.
        rewrite digits_value_app, digits_value_zeros. now rewrite Z.mul_0_l. }
  (* exponent notation *)
  destruct ds as [|c r]; [contradiction|].
  exists (String c EmptyString), r, (Some (n - 1)).
  assert (Hr : string_forallb is_digit r = true).
  { cbn in Hds. now apply andb_true_iff in Hds. }
  assert (Hc1 : string_forallb is_digit (String c EmptyString) = true).
  { cbn in Hds. apply andb_true_iff in Hds. cbn. now rewrite (proj1 Hds). }
  repeat split; try assumption.
  - destruct r as [|c' r']; reflexivity.
  - right. exact Hdh.
  - cbn [exp_value String.append].
    replace (n - 1 - Z.of_nat (String.length r))
      with (Z.of_nat t - Z.of_nat sc) by (unfold n; cbn [String.length]; lia).
    destruct sc as [|sc'].
    + rewrite Z.sub_0_r, dec_sci_int. now rewrite Hv2.
    + specialize (HA ltac:(discriminate)). destruct (Hall0 HA) as [_ Hdv].
      subst t. rewrite Hdv.
      change (Z.of_nat 0 - Z.of_nat (S sc')) with (- Z.of_nat (S sc')).
      apply dec_sci_frac; [assumption | lia].
Qed.

Lemma fin_Fin_inv : forall d d', fin d = Fin d' -> d' = d /\ fin d' = Fin d'.
Proof.
  intros d d' H. destruct (fin_cases d) as [[E _]|[[E _]|[E _]]];
    rewrite E in H; try discriminate.
  inversion H; subst. now split.
Qed.

Lemma eqb_code_neq : forall c x, code c <> code x -> Ascii.eqb c x = false.
Proof.
  intros c x H. destruct (Ascii.eqb c x) eqn:E; [|reflexivity].
  apply Ascii.eqb_eq in E. now subst.
Qed.

(** A digit is none of the characters the parser tells apart. *)
Lemma digit_not : forall c x,
  is_digit c = true -> (code x < 48 \/ 57 < code x) -> Ascii.eqb c x = false.
Proof.
  intros c x H Hx. apply eqb_code_neq. unfold is_digit in H.
  apply andb_true_iff in H. destruct H as [H1 H2].
  apply Z.leb_le in H1. apply Z.leb_le in H2. lia.
Qed.

Lemma digit_not_space : forall c, is_digit c = true -> is_json_space c = false.
Proof.
  intros c H. unfold is_digit in H. apply andb_true_iff in H.
  destruct H as [H1 H2]. apply Z.leb_le in H1. apply Z.leb_le in H2.
  unfold is_json_space. cbv zeta.
  rewrite !orb_false_iff. repeat split; apply Z.eqb_neq; lia.
Qed.

Lemma dneg_dabs : forall d, dmant d < 0 -> dneg (dabs d) = d.
Proof.
  intros [m k] H. cbn in H. unfold dneg, dabs. cbn [dmant dscale]. f_equal. lia.
Qed.

Lemma dabs_pos : forall d, 0 < dmant d -> dabs d = d.
Proof.
  intros [m k] H. cbn in H. unfold dabs. cbn [dmant dscale]. f_equal. lia.
Qed.

(** A finite, well-formed number printed by [Number::toString] reads back
    as itself. *)
Lemma parse_number_toString : forall d rest,
  canonical d -> fin d = Fin d -> delim rest ->
  parse_number (Number_toString (Fin d) ++ rest) = Some (Fin d, rest).
Proof.
  intros d rest Hc Hf Hrest. cbn [Number_toString].
  destruct (dmant d =? 0) eqn:E0.
  - apply Z.eqb_eq in E0. rewrite (canonical_zero d Hc E0) in *.
    change ("0" ++ rest) with (String "0" rest). cbn [parse_number].
    cbn [Ascii.eqb Bool.eqb].
    pose proof (parse_unsigned_text false "0" EmptyString None rest
                  eq_refl (or_introl eq_refl) eq_refl Hrest) as H.
    cbn [frac_text exp_text String.append] in H. rewrite H.
    exact (f_equal _ (f_equal (fun x => (x, rest)) Hf)).
  - apply Z.eqb_neq in E0. destruct (dmant d <? 0) eqn:En.
    + apply Z.ltb_lt in En.
      destruct (pos_dec_text (dabs d) (canonical_abs d Hc))
        as [ip [fp [ex [Et [Hip [Hh [Hfp Hv]]]]]]].
      { destruct d as [m k]. cbn in *. lia. }
      rewrite Et. change (("-" ++ ip ++ frac_text fp ++ exp_text ex) ++ rest)
        with (String "-" ((ip ++ frac_text fp ++ exp_text ex) ++ rest)).
      cbn [parse_number Ascii.eqb Bool.eqb].
      rewrite !append_assoc.
      rewrite (parse_unsigned_text true ip fp ex rest Hip Hh Hfp Hrest).
      rewrite dec_sci_neg, Hv, dneg_dabs by exact En. now rewrite Hf.
    + apply Z.ltb_ge in En.
      destruct (pos_dec_text d Hc ltac:(lia))
        as [ip [fp [ex [Et [Hip [Hh [Hfp Hv]]]]]]].
      rewrite Et, !append_assoc.
      pose proof (parse_unsigned_text false ip fp ex rest Hip Hh Hfp Hrest) as H.
      destruct ip as [|c ip']; [destruct Hh as [Hh|Hh]; [discriminate | contradiction]|].
      cbn [String.append parse_number] in *.
      assert (Hcd : is_digit c = true).
      { cbn in Hip. now apply andb_true_iff in Hip. }
      rewrite (digit_not c "-" Hcd) by (left; reflexivity).
      rewrite H, Hv. now rewrite Hf.
Qed.

(** The first character of a printed finite number. *)
Lemma number_head : forall d,
  canonical d ->
  exists c r, Number_toString (Fin d) = String c r /\
              (is_digit c = true \/ c = "-"%char).
Proof.
  intros d Hc. cbn [Number_toString]. destruct (dmant d =? 0) eqn:E0.
  - exists "0"%char, EmptyString. split; [reflexivity | now left].
  - apply Z.eqb_neq in E0. destruct (dmant d <? 0) eqn:En.
    + eexists _, _. split; [reflexivity | now right].
    + apply Z.ltb_ge in En.
      destruct (pos_dec_text d Hc ltac:(lia))
        as [ip [fp [ex [Et [Hip [Hh _]]]]]].
      rewrite Et.
      destruct ip as [|c ip']; [destruct Hh as [Hh|Hh]; [discriminate | contradiction]|].
      exists c, (ip' ++ frac_text fp ++ exp_text ex). split; [reflexivity|].
      left. cbn in Hip. now apply andb_true_iff in Hip.
Qed.

(* ------------------------------------------------------------------ *)
(** ** String literals, printed and read back *)

Lemma parse_chars_quote_char : forall c tail,
  parse_chars (quote_char c ++ tail)
  = match parse_chars tail with
    | Some (t, rest) => Some (String c t, rest)
    | None => None
    end.
Proof.
  intros c tail.
  destruct c as [[|] [|] [|] [|] [|] [|] [|] [|]]; reflexivity.
Qed.

Lemma parse_chars_quote : forall s rest,
  parse_chars (quote_chars s ++ String dquote rest) = Some (s, rest).
Proof.
  induction s as [|c s IH]; intro rest.
  - reflexivity.
  - cbn [quote_chars]. rewrite append_assoc, parse_chars_quote_char, IH.
    reflexivity.
Qed.

(* ------------------------------------------------------------------ *)
(** ** Values, printed and read back *)

Lemma stringify_arr : forall x r,
  JSON_stringify (JArr (x :: r)) = "[" ++ JSON_stringify x ++ arr_tail r.
Proof.
  intros x r. reflexivity.
Qed.

Lemma stringify_obj : forall k x r,
  JSON_stringify (JObj ((k, x) :: r))
  = "{" ++ quote k ++ ":" ++ JSON_stringify x ++ obj_tail r.
Proof.
  intros k x r. reflexivity.
Qed.

Lemma size_arr : forall l, json_size (JArr l) = arr_size l.
Proof.
  intro l. reflexivity.
Qed.

Lemma size_obj : forall l, json_size (JObj l) = obj_size l.
Proof.
  intro l. reflexivity.
Qed.

Lemma json_all_arr : forall P l,
  json_all P (JArr l) <-> Forall (json_all P) l.
Proof.
  intros P l. cbn [json_all]. induction l as [|x r IH].
  - split; [constructor | trivial].
  - split.
    + intros [Hx Hr]. constructor; [exact Hx | now apply IH].
    + intro H. inversion H; subst. split; [assumption | now apply IH].
Qed.

Lemma json_all_obj : forall P l,
  json_all P (JObj l) <-> Forall (fun kv => json_all P (snd kv)) l.
Proof.
  intros P l. cbn [json_all]. induction l as [|[k x] r IH].
  - split; [constructor | trivial].
  - split.
    + intros [Hx Hr]. constructor; [exact Hx | now apply IH].
    + intro H. inversion H; subst. split; [assumption | now apply IH].
Qed.

(** Induction on a value, with the hypothesis for every element. *)
Lemma json_induction : forall P : json -> Prop,
  P JNull -> (forall b, P (JBool b)) -> (forall x, P (JNum x)) ->
  (forall s, P (JStr s)) ->
  (forall l, Forall P l -> P (JArr l)) ->
  (forall l, Forall (fun kv => P (snd kv)) l -> P (JObj l)) ->
  forall v, P v.
Proof.
  intros P Hnull Hbool Hnum Hstr Harr Hobj.
  fix IH 1. intros [ |b|x|s|l|l].
  - exact Hnull.
  - apply Hbool.
  - apply Hnum.
  - apply Hstr.
  - apply Harr. induction l as [|x r IHl]; constructor; [apply IH | exact IHl].
  - apply Hobj. induction l as [|[k x] r IHl]; constructor; [apply IH | exact IHl].
Qed.

Lemma arr_size_ge : forall l, (2 <= arr_size l)%nat.
Proof. induction l as [|x r IH]; cbn [arr_size]; lia. Qed.

Lemma obj_size_ge : forall l, (2 <= obj_size l)%nat.
Proof. induction l as [|[k x] r IH]; cbn [obj_size]; lia. Qed.

Lemma json_size_pos : forall v, (1 <= json_size v)%nat.
Proof.
  intros [ | | | |l|l]; try (cbn [json_size]; lia).
  - rewrite size_arr. pose proof (arr_size_ge l). lia.
  - rewrite size_obj. pose proof (obj_size_ge l). lia.
Qed.

Lemma arr_size_length : forall l, (List.length l + 2 <= arr_size l)%nat.
Proof.
  induction l as [|x r IH]; cbn [arr_size List.length]; [lia|].
  pose proof (json_size_pos x). lia.
Qed.

Lemma obj_size_length : forall l, (List.length l + 2 <= obj_size l)%nat.
Proof.
  induction l as [|[k x] r IH]; cbn [obj_size List.length]; [lia|].
  pose proof (json_size_pos x). lia.
Qed.

Lemma arr_size_In : forall l x, In x l -> (json_size x + 2 <= arr_size l)%nat.
Proof.
  induction l as [|y r IH]; intros x Hin; [contradiction|].
  destruct Hin as [<-|H]; cbn [arr_size].
  - pose proof (arr_size_ge r). lia.
  - specialize (IH x H). lia.
Qed.

Lemma obj_size_In : forall l kv,
  In kv l -> (json_size (snd kv) + 2 <= obj_size l)%nat.
Proof.
  induction l as [|[k y] r IH]; intros kv Hin; [contradiction|].
  destruct Hin as [<-|H]; cbn [obj_size snd].
  - pose proof (obj_size_ge r). lia.
  - specialize (IH kv H). lia.
Qed.

(** A printed value starts with a character that is neither white space
    nor a closing bracket. *)
Lemma stringify_head : forall v,
  json_all well_formed v ->
  exists c r, JSON_stringify v = String c r /\
              is_json_space c = false /\ Ascii.eqb c "]" = false.
Proof.
  intros [ |[|]|x|s|[|y l]|[|[k y] l]] Hw;
    try (eexists _, _; split; [reflexivity | split; reflexivity]).
  cbn [JSON_stringify]. destruct x as [| | |d];
    try (eexists _, _; split; [reflexivity | split; reflexivity]).
  cbn [is_finite]. cbn in Hw. destruct Hw as [Hc _].
  destruct (number_head d Hc) as [c [r [E [Hd| ->]]]]; rewrite E.
  - eexists _, _. split; [reflexivity|]. split.
    + now apply digit_not_space.
    + apply digit_not; [assumption | right; reflexivity].
  - eexists _, _. split; [reflexivity | split; reflexivity].
Qed.

Lemma skip_ws_head : forall c r, is_json_space c = false ->
  skip_ws (String c r) = String c r.
Proof. intros c r H. cbn. now rewrite H. Qed.

Lemma delim_arr_tail : forall l rest, delim (arr_tail l ++ rest).
Proof. intros [|y r] rest; cbn; auto. Qed.

Lemma delim_obj_tail : forall l rest, delim (obj_tail l ++ rest).
Proof. intros [|[k y] r] rest; cbn; auto. Qed.

Section RoundTrip.

(** The value parser at some fuel reads back every element at hand. *)
Variable pv : string -> option (json * string).
Variable Q : json -> Prop.
Hypothesis pv_reads : forall v rest,
  Q v -> delim rest -> pv (JSON_stringify v ++ rest) = Some (jsonify v, rest).

Lemma parse_elements_tail : forall l fuel rest,
  Forall Q l -> (List.length l < fuel)%nat ->
  parse_elements pv fuel (arr_tail l ++ rest) = Some (map jsonify l, rest).
Proof.
  induction l as [|y r IH]; intros fuel rest HQ Hf;
    (destruct fuel as [|f]; [cbn in Hf; lia|]).
  - reflexivity.
  - inversion HQ as [|? ? Hy Hr]; subst.
    cbn [arr_tail]. change (("," ++ JSON_stringify y ++ arr_tail r) ++ rest)
      with (String "," ((JSON_stringify y ++ arr_tail r) ++ rest)).
    cbn [parse_elements]. rewrite skip_ws_head by reflexivity.
    cbn [Ascii.eqb Bool.eqb].
    rewrite append_assoc.
    rewrite (pv_reads y _ Hy (delim_arr_tail r rest)).
    rewrite IH; [reflexivity | assumption | cbn in Hf; lia].
Qed.

Lemma parse_member_text : forall k v rest,
  Q v -> delim rest ->
  parse_member pv (quote k ++ ":" ++ JSON_stringify v ++ rest)
  = Some (k, jsonify v, rest).
Proof.
  intros k v rest Hv Hrest. unfold parse_member, quote.
  change (String dquote (quote_chars k ++ String dquote EmptyString)
          ++ ":" ++ JSON_stringify v ++ rest)
    with (String dquote ((quote_chars k ++ String dquote EmptyString)
                         ++ ":" ++ JSON_stringify v ++ rest)).
  rewrite skip_ws_head by reflexivity.
  rewrite Ascii.eqb_refl, append_assoc.
  change (String dquote EmptyString ++ ":" ++ JSON_stringify v ++ rest)
    with (String dquote (String ":" (JSON_stringify v ++ rest))).
  rewrite parse_chars_quote. rewrite skip_ws_head by reflexivity.
  rewrite Ascii.eqb_refl. now rewrite pv_reads.
Qed.

Lemma parse_members_tail : forall l fuel rest,
  Forall (fun kv => Q (snd kv)) l -> (List.length l < fuel)%nat ->
  parse_members pv fuel (obj_tail l ++ rest)
  = Some (map (fun kv => (fst kv, jsonify (snd kv))) l, rest).
Proof.
  induction l as [|[k y] r IH]; intros fuel rest HQ Hf;
    (destruct fuel as [|f]; [cbn in Hf; lia|]).
  - reflexivity.
  - inversion HQ as [|? ? Hy Hr]; subst. cbn [snd] in Hy.
    cbn [obj_tail].
    change (("," ++ quote k ++ ":" ++ JSON_stringify y ++ obj_tail r) ++ rest)
      with (String "," ((quote k ++ ":" ++ JSON_stringify y ++ obj_tail r) ++ rest)).
    cbn [parse_members]. rewrite skip_ws_head by reflexivity.
    cbn [Ascii.eqb Bool.eqb].
    rewrite !append_assoc.
    rewrite (parse_member_text k y _ Hy (delim_obj_tail r rest)).
    rewrite IH; [reflexivity | assumption | cbn in Hf; lia].
Qed.

End RoundTrip.

Lemma parse_value_number : forall f d rest,
  canonical d -> fin d = Fin d -> delim rest ->
  parse_value (S f) (Number_toString (Fin d) ++ rest)
  = Some (JNum (Fin d), rest).
Proof.
  intros f d rest Hc Hf Hrest.
  pose proof (parse_number_toString d rest Hc Hf Hrest) as Hp.
  destruct (number_head d Hc) as [c [r [E Hd]]]. rewrite E in *.
  cbn [String.append] in *. cbn [parse_value].
  destruct Hd as [Hd| ->].
  - rewrite skip_ws_head by now apply digit_not_space.
    rewrite (digit_not c "n" Hd), (digit_not c "t" Hd), (digit_not c "f" Hd),
      (digit_not c "[" Hd), (digit_not c "{" Hd) by (right; reflexivity).
    rewrite (digit_not c dquote Hd) by (left; reflexivity).
    now rewrite Hp.
  - rewrite skip_ws_head by reflexivity. cbn [Ascii.eqb Bool.eqb].
    change (Ascii.eqb "-" dquote) with false. cbv iota. now rewrite Hp.
Qed.

(** [JSON.parse] reads a printed value back, up to [jsonify]; the fuel
    needed is the size of the value. *)
Lemma parse_value_stringify : forall v f rest,
  (json_size v <= f)%nat -> json_all well_formed v -> delim rest ->
  parse_value f (JSON_stringify v ++ rest) = Some (jsonify v, rest).
Proof.
  intro v. induction v as [ |b|x|s|l IH|l IH] using json_induction;
    intros f rest Hs Hw Hrest;
    (destruct f as [|f];
     [match type of Hs with
      | (json_size ?v <= _)%nat => pose proof (json_size_pos v)
      end; lia|]).
  - reflexivity.
  - destruct b; reflexivity.
  - destruct x as [| | |d]; try reflexivity.
    cbn in Hw. destruct Hw as [Hc Hf].
    cbn [JSON_stringify is_finite jsonify]. now apply parse_value_number.
  - cbn [JSON_stringify jsonify]. unfold quote.
    change (String dquote (quote_chars s ++ String dquote EmptyString) ++ rest)
      with (String dquote ((quote_chars s ++ String dquote EmptyString) ++ rest)).
    rewrite append_assoc. cbn [String.append parse_value].
    rewrite skip_ws_head by reflexivity.
    change (Ascii.eqb dquote "n") with false.
    change (Ascii.eqb dquote "t") with false.
    change (Ascii.eqb dquote "f") with false.
    rewrite Ascii.eqb_refl. cbv iota. now rewrite parse_chars_quote.
  - destruct l as [|x r]; [reflexivity|].
    rewrite stringify_arr. rewrite size_arr in Hs. cbn [arr_size] in Hs.
    apply json_all_arr in Hw.
    inversion Hw as [|? ? Hwx Hwr]; subst.
    inversion IH as [|? ? IHx IHr]; subst.
    pose proof (arr_size_length r) as Hlen.
    pose proof (json_size_pos x) as Hpx.
    change (("[" ++ JSON_stringify x ++ arr_tail r) ++ rest)
      with (String "[" ((JSON_stringify x ++ arr_tail r) ++ rest)).
    rewrite append_assoc. cbn [parse_value].
    rewrite skip_ws_head by reflexivity. cbn [Ascii.eqb Bool.eqb].
    change (Ascii.eqb "[" dquote) with false. cbv iota.
    destruct (stringify_head x Hwx) as [c [t [E [Hsp Hbr]]]].
    assert (Hnext : next_is "]" (JSON_stringify x ++ arr_tail r ++ rest) = false).
    { rewrite E. cbn [String.append]. unfold next_is. now rewrite skip_ws_head. }
    rewrite Hnext.
    rewrite (IHx f (arr_tail r ++ rest)); [|lia|assumption|apply delim_arr_tail].
    rewrite (parse_elements_tail (parse_value f)
               (fun v => (json_size v <= f)%nat /\ json_all well_formed v /\
                  forall f' rest', (json_size v <= f')%nat ->
                    json_all well_formed v -> delim rest' ->
                    parse_value f' (JSON_stringify v ++ rest')
                    = Some (jsonify v, rest'))).
    + reflexivity.
    + intros v rest' [H1 [H2 H3]] Hd. now apply H3.
    + apply Forall_forall. intros v Hv. split; [|split].
      * pose proof (arr_size_In r v Hv). lia.
      * rewrite Forall_forall in Hwr. now apply Hwr.
      * rewrite Forall_forall in IHr. now apply IHr.
    + lia.
  - destruct l as [|[k x] r]; [reflexivity|].
    rewrite stringify_obj. rewrite size_obj in Hs. cbn [obj_size] in Hs.
    apply json_all_obj in Hw.
    inversion Hw as [|? ? Hwx Hwr]; subst. cbn [snd] in Hwx.
    inversion IH as [|? ? IHx IHr]; subst. cbn [snd] in IHx.
    pose proof (obj_size_length r) as Hlen.
    pose proof (json_size_pos x) as Hpx.
    change (("{" ++ quote k ++ ":" ++ JSON_stringify x ++ obj_tail r) ++ rest)
      with (String "{" ((quote k ++ ":" ++ JSON_stringify x ++ obj_tail r) ++ rest)).
    rewrite !append_assoc. cbn [parse_value].
    rewrite skip_ws_head by reflexivity. cbn [Ascii.eqb Bool.eqb].
    change (Ascii.eqb "{" dquote) with false. cbv iota.
    assert (Hnext : next_is "}" (quote k ++ ":" ++ JSON_stringify x
                                 ++ obj_tail r ++ rest) = false).
    { unfold quote. reflexivity. }
    rewrite Hnext.
    set (Q := fun v => (json_size v <= f)%nat /\ json_all well_formed v /\
                  forall f' rest', (json_size v <= f')%nat ->
                    json_all well_formed v -> delim rest' ->
                    parse_value f' (JSON_stringify v ++ rest')
                    = Some (jsonify v, rest')).
    assert (HQ : forall v rest', Q v -> delim rest' ->
                 parse_value f (JSON_stringify v ++ rest') = Some (jsonify v, rest')).
    { intros v rest' [H1 [H2 H3]] Hd. now apply H3. }
    rewrite (parse_member_text (parse_value f) Q HQ k x);
      [| split; [lia | split; assumption] | apply delim_obj_tail].
    rewrite (parse_members_tail (parse_value f) Q HQ).
    + reflexivity.
    + apply Forall_forall. intros kv Hv. split; [|split].
      * pose proof (obj_size_In r kv Hv). lia.
      * rewrite Forall_forall in Hwr. now apply Hwr.
      * rewrite Forall_forall in IHr. now apply IHr.
    + lia.
Qed.

Lemma arr_tail_length : forall r,
  Forall (fun y => (json_size y <= String.length (JSON_stringify y))%nat) r ->
  (arr_size r <= 1 + String.length (arr_tail r))%nat.
Proof.
  induction r as [|y r IH]; intro H; [cbn; lia|].
  inversion H as [|? ? Hy Hr]; subst. cbn [arr_size arr_tail].
  change ("," ++ JSON_stringify y ++ arr_tail r)
    with (String "," (JSON_stringify y ++ arr_tail r)).
  cbn [String.length]. rewrite length_append. specialize (IH Hr). lia.
Qed.

Lemma obj_tail_length : forall r,
  Forall (fun kv => (json_size (snd kv)
                     <= String.length (JSON_stringify (snd kv)))%nat) r ->
  (obj_size r <= 1 + String.length (obj_tail r))%nat.
Proof.
  induction r as [|[k y] r IH]; intro H; [cbn; lia|].
  inversion H as [|? ? Hy Hr]; subst. cbn [snd] in *. cbn [obj_size obj_tail].
  change ("," ++ quote k ++ ":" ++ JSON_stringify y ++ obj_tail r)
    with (String "," (quote k ++ ":" ++ JSON_stringify y ++ obj_tail r)).
  cbn [String.length]. rewrite !length_append. specialize (IH Hr). lia.
Qed.

(** A printed value is at least as long as the value is large. *)
Lemma json_size_le_length : forall v,
  json_all well_formed v ->
  (json_size v <= String.length (JSON_stringify v))%nat.
Proof.
  intro v. induction v as [ |b|x|s|l IH|l IH] using json_induction; intro Hw;
    try (destruct (stringify_head _ Hw) as [c [r [E _]]]; rewrite E;
         cbn [json_size String.length]; lia).
  - destruct l as [|x r]; [cbn; lia|].
    rewrite stringify_arr, size_arr. cbn [arr_size].
    apply json_all_arr in Hw.
    inversion Hw as [|? ? Hwx Hwr]; subst.
    inversion IH as [|? ? IHx IHr]; subst.
    change ("[" ++ JSON_stringify x ++ arr_tail r)
      with (String "[" (JSON_stringify x ++ arr_tail r)).
    cbn [String.length]. rewrite length_append.
    assert (Hr : Forall (fun y => (json_size y
                           <= String.length (JSON_stringify y))%nat) r).
    { apply Forall_forall. intros y Hy.
      rewrite Forall_forall in Hwr, IHr. apply IHr; [assumption | now apply Hwr]. }
    pose proof (arr_tail_length r Hr). specialize (IHx Hwx). lia.
  - destruct l as [|[k x] r]; [cbn; lia|].
    rewrite stringify_obj, size_obj. cbn [obj_size].
    apply json_all_obj in Hw.
    inversion Hw as [|? ? Hwx Hwr]; subst.
    inversion IH as [|? ? IHx IHr]; subst.
    cbn [snd] in *.
    change ("{" ++ quote k ++ ":" ++ JSON_stringify x ++ obj_tail r)
      with (String "{" (quote k ++ ":" ++ JSON_stringify x ++ obj_tail r)).
    cbn [String.length]. rewrite !length_append.
    assert (Hr : Forall (fun kv => (json_size (snd kv)
                           <= String.length (JSON_stringify (snd kv)))%nat) r).
    { apply Forall_forall. intros y Hy.
      rewrite Forall_forall in Hwr, IHr. apply IHr; [assumption | now apply Hwr]. }
    pose proof (obj_tail_length r Hr). specialize (IHx Hwx). lia.
Qed.

(** [JSON.parse(JSON.stringify(v))] is [jsonify v]. *)
Lemma JSON_parse_stringify : forall v,
  json_all well_formed v ->
  JSON_parse (JSON_stringify v) = Some (jsonify v).
Proof.
  intros v Hw. unfold JSON_parse.
  rewrite <- (append_nil_r (JSON_stringify v)) at 2.
  rewrite parse_value_stringify.
  - reflexivity.
  - pose proof (json_size_le_length v Hw). lia.
  - exact Hw.
  - exact I.
Qed.

Lemma json_all_impl : forall (P Q : number -> Prop) v,
  (forall x, P x -> Q x) -> json_all P v -> json_all Q v.
Proof.
  intros P Q v HPQ. induction v as [ |b|x|s|l IH|l IH] using json_induction;
    intro H; try exact I.
  - now apply HPQ.
  - apply json_all_arr. apply json_all_arr in H.
    rewrite Forall_forall in *. intros y Hy. apply IH; auto.
  - apply json_all_obj. apply json_all_obj in H.
    rewrite Forall_forall in *. intros y Hy. apply IH; auto.
Qed.

Lemma storable_well_formed : forall v, storable v -> json_all well_formed v.
Proof. intro v. apply json_all_impl. now intros x [_ H]. Qed.

(** A storable value is unchanged by [jsonify]. *)
Lemma jsonify_storable : forall v, storable v -> jsonify v = v.
Proof.
  unfold storable.
  intro v. induction v as [ |b|x|s|l IH|l IH] using json_induction;
    intro H; try reflexivity.
  - cbn in H. destruct H as [Hf _]. cbn [jsonify]. now rewrite Hf.
  - apply json_all_arr in H. cbn [jsonify]. f_equal.
    rewrite <- (map_id l) at 2. apply map_ext_in. intros y Hy.
    rewrite Forall_forall in *. now apply IH; [|apply H].
  - apply json_all_obj in H. cbn [jsonify]. f_equal.
    rewrite <- (map_id l) at 2. apply map_ext_in. intros [k y] Hy.
    rewrite Forall_forall in *. cbn [fst snd].
    f_equal. apply (IH (k, y) Hy). now apply (H (k, y)).
Qed.

(* ------------------------------------------------------------------ *)
(** ** The numbers of an import are well formed *)

Lemma dnorm_canonical : forall k m, canonical (dnorm m k).
Proof.
  unfold canonical. induction k as [|k IH]; intro m; [reflexivity|].
  cbn [dnorm]. destruct (m mod 10 =? 0) eqn:E; [apply IH|].
  cbn [dmant dscale dnorm]. now rewrite E.
Qed.

Lemma dec_sci_canonical : forall m e, canonical (dec_sci m e).
Proof.
  intros m e. unfold dec_sci. destruct (0 <=? e); [reflexivity|].
  apply dnorm_canonical.
Qed.

Lemma fin_well_formed : forall d, canonical d -> well_formed (fin d).
Proof.
  intros d Hc. destruct (fin_cases d) as [[E _]|[[E _]|[E _]]]; rewrite E;
    try exact I.
  cbn. now split.
Qed.

Lemma parseFloat_well_formed : forall s, well_formed (parseFloat s).
Proof.
  intro s. unfold parseFloat. destruct (read_sign (skip_spaces s)) as [neg r].
  destruct (startsWith r "Infinity"); [destruct neg; exact I|].
  destruct (read_unsigned r) as [[[m e] r']|]; [|exact I].
  apply fin_well_formed, dec_sci_canonical.
Qed.

Lemma num_abs_well_formed : forall x, well_formed x -> well_formed (num_abs x).
Proof.
  intros [| | |d]; cbn [num_abs well_formed]; try trivial.
  intros [Hc Hf]. split; [now apply canonical_abs|].
  destruct (fin_cases d) as [[E _]|[[E _]|[E H]]];
    rewrite E in Hf; try discriminate.
  destruct (fin_cases (dabs d)) as [[_ H']|[[_ H']|[E' _]]];
    destruct d as [m k]; cbn [dabs dmant dscale] in *;
    pose proof (pow10_pos k); pose proof overflow_bound_pos;
    try exact E'; exfalso; nia.
Qed.

Lemma num_zero_well_formed : well_formed num_zero.
Proof. split; reflexivity. Qed.

Lemma normalize_amount_well_formed : forall now today mapping row i,
  well_formed (amount (normalize now today mapping row i)).
Proof.
  intros. cbn [normalize amount]. unfold num_or.
  destruct (num_truthy _).
  - apply num_abs_well_formed, parseFloat_well_formed.
  - apply num_zero_well_formed.
Qed.

Lemma In_mapi : forall (A B : Type) (f : A -> nat -> B) l i0 y,
  In y (mapi f i0 l) ->
  exists x i, (i0 <= i < i0 + List.length l)%nat /\ y = f x i.
Proof.
  intros A B f l. induction l as [|x r IH]; intros i0 y H; [contradiction|].
  cbn [mapi] in H. destruct H as [<-|H].
  - exists x, i0. cbn [List.length]. split; [lia | reflexivity].
  - destruct (IH (S i0) y H) as [x' [i [Hi E]]].
    exists x', i. cbn [List.length]. split; [lia | exact E].
Qed.

Lemma finishImport_In : forall now today importing mapping e,
  In e (finishImport now today importing mapping) ->
  exists row i, (i < List.length (data importing))%nat /\
                e = normalize now today mapping row i.
Proof.
  intros now today importing mapping e H. unfold finishImport in H.
  apply filter_In in H. destruct H as [H _].
  apply In_mapi in H. destruct H as [row [i [Hi E]]].
  exists row, i. split; [lia | exact E].
Qed.

(** A record of an import is storable as soon as its amount is finite. *)
Lemma Expense_to_json_storable : forall e,
  is_finite (amount e) = true -> well_formed (amount e) ->
  storable (Expense_to_json e).
Proof.
  intros e Hf Hw. unfold storable, Expense_to_json. cbn.
  repeat split; assumption.
Qed.

Lemma Expense_to_json_well_formed : forall e,
  well_formed (amount e) -> json_all well_formed (Expense_to_json e).
Proof.
  intros e Hw. unfold Expense_to_json. cbn. repeat split; assumption.
Qed.

(* ------------------------------------------------------------------ *)
(** ** Append, then reload *)

Lemma stringify_array_truthy : forall l,
  str_truthy (JSON_stringify (JArr l)) = true.
Proof.
  intros [|x r]; [reflexivity|]. rewrite stringify_arr. reflexivity.
Qed.

(** Loading what the second effect wrote gives the stored values back, up
    to [jsonify]. *)
Lemma load_persisted : forall ex,
  Forall (json_all well_formed) ex ->
  load_effect (Some (persist_effect ex))
  = Normal {| set_expenses := Some (map jsonify ex); console := [] |}.
Proof.
  intros ex Hw. unfold load_effect, persist_effect.
  rewrite stringify_array_truthy. unfold JSON_parse_or_throw.
  rewrite JSON_parse_stringify by now apply json_all_arr.
  reflexivity.
Qed.

Lemma map_jsonify_storable : forall ex,
  Forall storable ex -> map jsonify ex = ex.
Proof.
  intros ex H. rewrite <- (map_id ex) at 2. apply map_ext_in.
  intros v Hv. rewrite Forall_forall in H. now apply jsonify_storable, H.
Qed.

(** C4 (amended).  When every number held in the store is storable and
    every amount of the batch is finite, appending the batch and loading
    the page again from what was persisted gives the same sequence of
    records, and nothing is logged. *)
Theorem append_then_reload :
  forall st now today importing mapping,
    let batch := finishImport now today importing mapping in
    Forall storable (expenses st) ->
    Forall (fun e => is_finite (amount e) = true) batch ->
    mount (storage (append st batch))
    = ({| expenses := (expenses st ++ map Expense_to_json batch)%list;
          storage := storage (append st batch) |}, []).
Proof.
  intros st now today importing mapping batch Hst Hfin.
  assert (Hall : Forall storable
                   (expenses st ++ map Expense_to_json batch)%list).
  { apply Forall_app. split; [exact Hst|].
    apply Forall_forall. intros v Hv. apply in_map_iff in Hv.
    destruct Hv as [e [<- He]]. apply Expense_to_json_storable.
    - rewrite Forall_forall in Hfin. now apply Hfin.
    - destruct (finishImport_In _ _ _ _ _ He) as [row [i [_ ->]]].
      apply normalize_amount_well_formed. }
  unfold mount, append. cbn [storage expenses].
  rewrite load_persisted.
  - cbn [set_expenses console]. now rewrite map_jsonify_storable.
  - rewrite Forall_forall in *. intros v Hv.
    now apply storable_well_formed, Hall.
Qed.

Lemma append_then_reload_witness :
  mount (storage (append initial
           (finishImport (frozen_clock 1700000000000)
              (frozen_clock 1700000000000) example_importing example_mapping)))
  = ({| expenses :=
          ([] ++ map Expense_to_json
             (finishImport (frozen_clock 1700000000000)
                (frozen_clock 1700000000000) example_importing
                example_mapping))%list;
        storage :=
          storage (append initial
            (finishImport (frozen_clock 1700000000000)
               (frozen_clock 1700000000000) example_importing
               example_mapping)) |}, []).
Proof.
  apply (append_then_reload initial (frozen_clock 1700000000000)
           (frozen_clock 1700000000000) example_importing example_mapping).
  - constructor.
  - vm_compute. repeat constructor.
Defined.

(** C4 as stated fails: an amount cell of 1 followed by 309 zeros is read
    as [Infinity], which is stored as [null]; the record that comes back
    differs from the one appended. *)
Lemma reload_loses_infinite_amount :
  ~ (forall st now today importing mapping,
       Forall storable (expenses st) ->
       expenses (reload (append st (finishImport now today importing mapping)))
       = expenses (append st (finishImport now today importing mapping))).
Proof.
  intro H.
  specialize (H initial (frozen_clock 1700000000000)
                (frozen_clock 1700000000000) overflow_importing
                example_mapping (Forall_nil _)).
  vm_compute in H. discriminate H.
Qed.

(* ------------------------------------------------------------------ *)
(** ** Ids *)

Lemma string_of_Z_nonneg : forall n, 0 <= n -> string_of_Z n = digits_of n.
Proof.
  intros n H. unfold string_of_Z.
  destruct (n <? 0) eqn:E; [apply Z.ltb_lt in E; lia | reflexivity].
Qed.

Lemma append_inj_l : forall a b c : string, a ++ b = a ++ c -> b = c.
Proof.
  induction a as [|x a IH]; intros b c H; [exact H|].
  cbn in H. inversion H. now apply IH.
Qed.

(** Different clock values or different rows give different ids. *)
Lemma id_text_inj : forall t k t' k',
  0 <= t -> 0 <= k -> 0 <= t' -> 0 <= k' ->
  id_text t k = id_text t' k' -> t = t' /\ k = k'.
Proof.
  intros t k t' k' Ht Hk Ht' Hk' H. unfold id_text in H.
  rewrite !string_of_Z_nonneg in H by assumption.
  apply (append_inj_l "txn-") in H.
  destruct (digits_of_spec t Ht) as [Hd [Hv _]].
  destruct (digits_of_spec t' Ht') as [Hd' [Hv' _]].
  destruct (digits_of_spec k Hk) as [_ [Hvk _]].
  destruct (digits_of_spec k' Hk') as [_ [Hvk' _]].
  pose proof (span_digits_app (digits_of t) ("-" ++ digits_of k) Hd eq_refl) as S1.
  pose proof (span_digits_app (digits_of t') ("-" ++ digits_of k') Hd' eq_refl) as S2.
  rewrite H in S1. rewrite S1 in S2. inversion S2 as [[E1 E2]].
  split.
  - rewrite <- Hv, <- Hv'. now rewrite E1.
  - rewrite <- Hvk, <- Hvk'. now rewrite E2.
Qed.

Lemma normalize_id : forall now today mapping row i,
  id (normalize now today mapping row i) = id_text (now i) (Z.of_nat i).
Proof. reflexivity. Qed.

Lemma js_get_id : forall e, js_get "id" (Expense_to_json e) = Some (JStr (id e)).
Proof. reflexivity. Qed.

Lemma store_ids_batch : forall batch,
  store_ids (map Expense_to_json batch)
  = map (fun e => Some (JStr (id e))) batch.
Proof.
  intro batch. unfold store_ids. rewrite map_map. reflexivity.
Qed.

Lemma NoDup_mapi_ids : forall now today mapping l i0,
  (forall i, (i0 <= i < i0 + List.length l)%nat -> 0 <= now i) ->
  NoDup (map (fun e => Some (JStr (id e)))
             (mapi (normalize now today mapping) i0 l)).
Proof.
  intros now today mapping l. induction l as [|row r IH]; intros i0 Hn;
    [constructor|].
  cbn [mapi map]. constructor.
  - intro Hin. apply in_map_iff in Hin. destruct Hin as [e [E He]].
    apply In_mapi in He. destruct He as [row' [i [Hi ->]]].
    assert (E' : id (normalize now today mapping row' i)
                 = id (normalize now today mapping row i0))
      by (cbv beta in E; congruence).
    rewrite !normalize_id in E'.
    apply id_text_inj in E'; try lia.
    + apply Hn. cbn [List.length]. lia.
    + apply Hn. cbn [List.length]. lia.
  - apply IH. intros i Hi. apply Hn. cbn [List.length]. lia.
Qed.

Lemma NoDup_map_filter : forall (A B : Type) (f : A -> B) (p : A -> bool) l,
  NoDup (map f l) -> NoDup (map f (filter p l)).
Proof.
  intros A B f p l. induction l as [|x r IH]; intro H; [constructor|].
  cbn [map] in H. inversion H as [|? ? Hx Hr]; subst.
  cbn [filter]. destruct (p x); [|now apply IH].
  cbn [map]. constructor; [|now apply IH].
  intro Hin. apply Hx. apply in_map_iff in Hin.
  destruct Hin as [y [E Hy]]. apply filter_In in Hy.
  apply in_map_iff. exists y. split; [exact E | apply Hy].
Qed.

(** The ids of one batch are pairwise distinct. *)
Lemma batch_ids_distinct : forall now today importing mapping,
  (forall i, (i < List.length (data importing))%nat -> 0 <= now i) ->
  NoDup (store_ids (map Expense_to_json
                      (finishImport now today importing mapping))).
Proof.
  intros now today importing mapping Hn. rewrite store_ids_batch.
  unfold finishImport. apply NoDup_map_filter. apply NoDup_mapi_ids.
  intros i Hi. apply Hn. lia.
Qed.

(* ------------------------------------------------------------------ *)
(** ** The invariant of the store *)

Lemma jsonify_well_formed : forall v,
  json_all well_formed v -> json_all well_formed (jsonify v).
Proof.
  intro v. induction v as [ |b|x|s|l IH|l IH] using json_induction;
    intro H; try exact I.
  - cbn [jsonify]. destruct (is_finite x); [exact H | exact I].
  - cbn [jsonify]. apply json_all_arr. apply json_all_arr in H.
    apply Forall_forall. intros y Hy. apply in_map_iff in Hy.
    destruct Hy as [z [<- Hz]]. rewrite Forall_forall in *.
    apply IH; [assumption | now apply H].
  - cbn [jsonify]. apply json_all_obj. apply json_all_obj in H.
    apply Forall_forall. intros y Hy. apply in_map_iff in Hy.
    destruct Hy as [z [<- Hz]]. rewrite Forall_forall in *. cbn [snd].
    apply (IH z Hz). now apply (H z).
Qed.

Lemma js_get_jsonify : forall k v,
  js_get k (jsonify v) = option_map jsonify (js_get k v).
Proof.
  intros k [ | | | |l|l]; try reflexivity.
  - cbn [jsonify js_get]. destruct (is_finite n); reflexivity.
  - cbn [jsonify js_get]. induction l as [|[k' x] r IH]; [reflexivity|].
    cbn [map obj_get fst snd]. destruct (String.eqb k k'); [reflexivity | exact IH].
Qed.

Lemma stored_record_jsonify : forall T v,
  stored_record T v -> stored_record T (jsonify v) /\
                       js_get "id" (jsonify v) = js_get "id" v.
Proof.
  intros T v [Hw [t [k [Ht [Hk E]]]]].
  assert (E' : js_get "id" (jsonify v) = js_get "id" v).
  { rewrite js_get_jsonify, E. reflexivity. }
  split; [|exact E']. split; [now apply jsonify_well_formed|].
  exists t, k. repeat split; try lia. now rewrite E'.
Qed.

Lemma stored_record_mono : forall T T' v,
  T <= T' -> stored_record T v -> stored_record T' v.
Proof.
  intros T T' v HT [Hw [t [k [Ht [Hk E]]]]]. split; [exact Hw|].
  exists t, k. repeat split; try lia; exact E.
Qed.

Lemma store_ids_jsonify : forall T ex,
  Forall (stored_record T) ex -> store_ids (map jsonify ex) = store_ids ex.
Proof.
  intros T ex H. unfold store_ids. rewrite map_map. apply map_ext_in.
  intros v Hv. rewrite Forall_forall in H.
  apply (stored_record_jsonify T v (H v Hv)).
Qed.

Lemma invariant_reload : forall T st,
  store_invariant T st -> store_invariant T (reload st).
Proof.
  intros T st [HT [Hrec [Hnd Hsto]]]. unfold reload, mount.
  destruct Hsto as [[Hs He]|Hs]; rewrite Hs.
  - cbn. split; [exact HT|]. split; [constructor|]. split; [constructor|].
    right. reflexivity.
  - rewrite load_persisted.
    + unfold store_invariant. cbn [fst set_expenses console expenses storage].
      repeat split.
      * exact HT.
      * apply Forall_forall. intros v Hv. apply in_map_iff in Hv.
        destruct Hv as [w [<- Hw]]. rewrite Forall_forall in Hrec.
        apply stored_record_jsonify. now apply Hrec.
      * now rewrite (store_ids_jsonify T).
      * now right.
    + rewrite Forall_forall in *. intros v Hv. apply (Hrec v Hv).
Qed.

Lemma invariant_purge : forall T st c,
  store_invariant T st -> store_invariant T (purge st c).
Proof.
  intros T st [|] H; [|exact H]. destruct H as [HT _]. unfold purge.
  split; [exact HT|]. split; [constructor|]. split; [constructor|].
  right. reflexivity.
Qed.

Lemma NoDup_append : forall (A : Type) (l l' : list A),
  NoDup l -> NoDup l' -> (forall x, In x l -> ~ In x l') ->
  NoDup (l ++ l')%list.
Proof.
  intros A l l' Hl Hl' Hd. induction Hl as [|x r Hx Hr IH]; [exact Hl'|].
  cbn. constructor.
  - intro Hin. apply in_app_or in Hin. destruct Hin as [Hin|Hin].
    + contradiction.
    + apply (Hd x); [now left | exact Hin].
  - apply IH. intros y Hy. apply Hd. now right.
Qed.

Lemma invariant_import : forall T0 T st now today importing mapping,
  store_invariant T0 st -> T0 <= T ->
  (forall i, (i < List.length (data importing))%nat -> T0 <= now i < T) ->
  store_invariant T (append st (finishImport now today importing mapping)).
Proof.
  intros T0 T st now today importing mapping [HT0 [Hrec [Hnd _]]] HT Hclock.
  set (batch := finishImport now today importing mapping).
  assert (Hbatch : forall e, In e batch ->
            exists row i, (i < List.length (data importing))%nat /\
                          e = normalize now today mapping row i)
    by (intros e He; now apply finishImport_In).
  unfold append. repeat split; cbn [expenses storage].
  - lia.
  - apply Forall_app. split.
    + rewrite Forall_forall in *. intros v Hv.
      apply stored_record_mono with T0; [exact HT | now apply Hrec].
    + apply Forall_forall. intros v Hv. apply in_map_iff in Hv.
      destruct Hv as [e [<- He]]. destruct (Hbatch e He) as [row [i [Hi ->]]].
      split.
      * apply Expense_to_json_well_formed, normalize_amount_well_formed.
      * exists (now i), (Z.of_nat i). specialize (Hclock i Hi).
        split; [lia|]. split; [lia | reflexivity].
  - unfold store_ids. rewrite map_app. apply NoDup_append.
    + exact Hnd.
    + apply batch_ids_distinct. intros i Hi. specialize (Hclock i Hi). lia.
    + intros x Hx Hx'. apply in_map_iff in Hx. destruct Hx as [v [Ev Hv]].
      rewrite Forall_forall in Hrec.
      destruct (Hrec v Hv) as [_ [t [k [Ht [Hk Eid]]]]].
      apply in_map_iff in Hx'. destruct Hx' as [w [Ew Hw]].
      apply in_map_iff in Hw. destruct Hw as [e [<- He]].
      destruct (Hbatch e He) as [row [i [Hi ->]]].
      rewrite js_get_id in Ew.
      assert (E : id_text t k = id_text (now i) (Z.of_nat i))
        by (rewrite <- normalize_id with (today := today) (mapping := mapping)
                                         (row := row); congruence).
      specialize (Hclock i Hi).
      apply id_text_inj in E; lia.
  - now right.
Qed.

Lemma reachable_invariant : forall T st,
  Reachable T st -> store_invariant T st.
Proof.
  intros T st H. induction H.
  - split; [assumption|]. split; [constructor|]. split; [constructor|].
    left. split; reflexivity.
  - now apply invariant_reload.
  - now apply invariant_purge.
  - eapply invariant_import; eassumption.
Qed.

(** C5 (amended).  As long as the clock is not before the epoch and every
    import reads clock values later than all those read by the imports
    before it, the ids of the stored records are pairwise distinct in
    every state the page reaches by loads, imports and purges. *)
Theorem ids_distinct_under_increasing_clock :
  forall T st, Reachable T st -> NoDup (store_ids (expenses st)).
Proof.
  intros T st H. apply (reachable_invariant T st H).
Qed.

(** Two imports of the example, a second apart, with a page load between. *)
Lemma ids_distinct_under_increasing_clock_witness :
  NoDup (store_ids (expenses
    (append
       (reload
          (append initial
             (finishImport (frozen_clock 1700000000000)
                (frozen_clock 1700000000000) example_importing
                example_mapping)))
       (finishImport (frozen_clock 1700000001000)
          (frozen_clock 1700000001000) example_importing example_mapping)))).
Proof.
  apply (ids_distinct_under_increasing_clock 1700000001001).
  apply R_import with (T0 := 1700000000001).
  - apply R_mount. apply R_import with (T0 := 0).
    + apply R_initial. lia.
    + lia.
    + intros i _. unfold frozen_clock. lia.
  - lia.
  - intros i _. unfold frozen_clock. lia.
Defined.

(** C5 as stated fails: two imports that read the same clock value give
    their first rows the same id. *)
Lemma ids_collide_at_equal_clock :
  ~ (forall st, Reachable_any st -> NoDup (store_ids (expenses st))).
Proof.
  intro H.
  specialize (H _ (A_import _ (frozen_clock 1700000000000)
                     (frozen_clock 1700000000000) example_importing
                     example_mapping
                     (A_import _ (frozen_clock 1700000000000)
                        (frozen_clock 1700000000000) example_importing
                        example_mapping A_initial))).
  vm_compute in H. inversion H as [|? ? Hin _]. apply Hin. now left.
Qed.

(* ================================================================== *)
(** * Further properties of the views *)

(* ------------------------------------------------------------------ *)
(** ** The views read the records of the selected years only *)

Lemma filter_filter_implied : forall (A : Type) (p q : A -> bool) l,
  (forall x, p x = true -> q x = true) ->
  filter p (filter q l) = filter p l.
Proof.
  intros A p q l H. induction l as [|x r IH]; [reflexivity|].
  cbn [filter]. destruct (q x) eqn:Eq.
  - cbn [filter]. now rewrite IH.
  - rewrite IH. destruct (p x) eqn:Ep; [|reflexivity].
    apply H in Ep. congruence.
Qed.

Lemma obj_fill_ext_in : forall (K V : Type) (eqb : K -> K -> bool)
    (f g : K -> V) keys o,
  (forall k, In k keys -> f k = g k) ->
  obj_fill eqb f keys o = obj_fill eqb g keys o.
Proof.
  intros K V eqb f g keys. unfold obj_fill.
  induction keys as [|k r IH]; intros o H; [reflexivity|].
  cbn [fold_left]. rewrite (H k) by now left.
  apply IH. intros k' Hk. apply H. now right.
Qed.

Lemma fold_left_ext_in : forall (A B : Type) (f g : A -> B -> A) l a,
  (forall x b, In b l -> f x b = g x b) ->
  fold_left f l a = fold_left g l a.
Proof.
  intros A B f g l. induction l as [|b r IH]; intros a H; [reflexivity|].
  cbn [fold_left]. rewrite (H a b) by now left.
  apply IH. intros x b' Hb. apply H. now right.
Qed.

Section KeptRecords.
Variable h : Host.
Variable years : list (option Z).
Variable keep : Expense -> bool.
Hypothesis keep_selected : forall e y,
  In y years -> in_year h y e = true -> keep e = true.

Lemma in_year_kept : forall expenses y,
  In y years ->
  filter (in_year h y) (filter keep expenses) = filter (in_year h y) expenses.
Proof.
  intros expenses y Hy. apply filter_filter_implied.
  intros e He. now apply (keep_selected e y).
Qed.

Lemma season_total_kept : forall expenses y m,
  In y years ->
  season_total h (filter keep expenses) y m = season_total h expenses y m.
Proof.
  intros expenses y m Hy. unfold season_total. f_equal.
  apply filter_filter_implied. intros e He. unfold in_year_month in He.
  apply andb_true_iff in He. now apply (keep_selected e y).
Qed.

Lemma category_total_kept : forall expenses cat y,
  In y years ->
  category_total h (filter keep expenses) cat y
  = category_total h expenses cat y.
Proof.
  intros expenses cat y Hy. unfold category_total. f_equal.
  apply filter_filter_implied. intros e He.
  apply andb_true_iff in He. now apply (keep_selected e y).
Qed.

Lemma year_cumulative_kept : forall expenses y,
  In y years ->
  year_cumulative h (filter keep expenses) y = year_cumulative h expenses y.
Proof.
  intros expenses y Hy. unfold year_cumulative. now rewrite in_year_kept.
Qed.

Lemma SeasonalityChart_kept : forall expenses,
  SeasonalityChart h (filter keep expenses) years
  = SeasonalityChart h expenses years.
Proof.
  intro expenses. unfold SeasonalityChart. apply map_ext. intro m. f_equal.
  apply obj_fill_ext_in. intros y Hy. now rewrite season_total_kept.
Qed.

Lemma PaceOfSpendingChart_kept : forall expenses,
  PaceOfSpendingChart h (filter keep expenses) years
  = PaceOfSpendingChart h expenses years.
Proof.
  intro expenses. unfold PaceOfSpendingChart.
  rewrite (obj_fill_ext_in _ _ key_eqb
             (year_cumulative h (filter keep expenses))
             (year_cumulative h expenses) years [])
    by (intros y Hy; now apply year_cumulative_kept).
  reflexivity.
Qed.

Lemma CategoryComparisonChart_kept : forall expenses,
  CategoryComparisonChart h (filter keep expenses) years
  = CategoryComparisonChart h expenses years.
Proof.
  intro expenses. unfold CategoryComparisonChart. do 2 f_equal.
  apply map_ext. intro cat. unfold category_entry. f_equal.
  apply obj_fill_ext_in. intros y Hy. now rewrite category_total_kept.
Qed.

Lemma heatmap_year_kept : forall expenses st y,
  In y years ->
  heatmap_year h (filter keep expenses) st y = heatmap_year h expenses st y.
Proof.
  intros expenses st y Hy. unfold heatmap_year.
  rewrite (fold_left_ext_in _ _ (heatmap_cell h (filter keep expenses) y)
             (heatmap_cell h expenses y)); [reflexivity|].
  intros x m _. unfold heatmap_cell.
  fold (season_total h (filter keep expenses) y m).
  fold (season_total h expenses y m).
  now rewrite season_total_kept.
Qed.

Lemma HeatmapTable_kept : forall expenses,
  HeatmapTable h (filter keep expenses) years = HeatmapTable h expenses years.
Proof.
  intro expenses. unfold HeatmapTable.
  rewrite (fold_left_ext_in _ _ (heatmap_year h (filter keep expenses))
             (heatmap_year h expenses)); [reflexivity|].
  intros st y Hy. now apply heatmap_year_kept.
Qed.

Lemma TransactionBoxPlot_kept : forall expenses,
  TransactionBoxPlot h (filter keep expenses) years
  = TransactionBoxPlot h expenses years.
Proof.
  intro expenses. unfold TransactionBoxPlot. apply map_ext_in.
  intros y Hy. unfold year_amounts. now rewrite in_year_kept.
Qed.

Lemma dashboard_kept : forall expenses,
  dashboard h (filter keep expenses) years = dashboard h expenses years.
Proof.
  intro expenses. unfold dashboard.
  now rewrite SeasonalityChart_kept, PaceOfSpendingChart_kept,
    CategoryComparisonChart_kept, HeatmapTable_kept, TransactionBoxPlot_kept.
Qed.

End KeptRecords.

(** Each of the five views is a function of the records whose year is
    one of the selected years: dropping every other record changes none
    of them. *)
Theorem views_read_selected_years :
  forall h expenses years,
    dashboard h (filter (selected h years) expenses) years
    = dashboard h expenses years.
Proof.
  intros h expenses years. apply dashboard_kept.
  intros e y Hy He. unfold selected. apply existsb_exists.
  now exists y.
Qed.

(** A record whose date the host cannot read has no year ([NaN]); it is
    counted in no view, whatever the selected years. *)
Theorem views_skip_undated_records :
  forall h expenses years,
    (forall e y, dated h e = false -> in_year h y e = false) /\
    dashboard h (filter (dated h) expenses) years
    = dashboard h expenses years.
Proof.
  intros h expenses years.
  assert (H : forall e y, dated h e = false -> in_year h y e = false).
  { intros e y. unfold dated, in_year.
    destruct (new_Date h (date e)); [discriminate | reflexivity]. }
  split; [exact H|]. apply dashboard_kept.
  intros e y _ He. destruct (dated h e) eqn:E; [reflexivity|].
  rewrite (H e y E) in He. discriminate.
Qed.

(* ------------------------------------------------------------------ *)
(** ** The year of the records without a readable date *)

Lemma in_year_NaN : forall h e, in_year h None e = false.
Proof.
  intros h e. unfold in_year.
  now destruct (getFullYear h (new_Date h (date e))).
Qed.

Lemma filter_none : forall (A : Type) (p : A -> bool) l,
  (forall x, p x = false) -> filter p l = [].
Proof.
  intros A p l H. induction l as [|x r IH]; [reflexivity|].
  cbn [filter]. now rewrite H.
Qed.

Lemma season_total_NaN : forall h expenses m,
  season_total h expenses None m = num_zero.
Proof.
  intros h expenses m. unfold season_total. rewrite filter_none; [reflexivity|].
  intro e. unfold in_year_month.
  now destruct (getFullYear h (new_Date h (date e))).
Qed.

Lemma category_total_NaN : forall h expenses cat,
  category_total h expenses cat None = num_zero.
Proof.
  intros h expenses cat. unfold category_total.
  rewrite filter_none; [reflexivity|].
  intro e. rewrite in_year_NaN. apply andb_false_r.
Qed.

Lemma year_cumulative_NaN : forall h expenses,
  year_cumulative h expenses None = repeat num_zero 367.
Proof.
  intros h expenses. unfold year_cumulative.
  rewrite filter_none by apply in_year_NaN. vm_compute. reflexivity.
Qed.

Lemma nth_error_repeat_zero : forall n d,
  (d < n)%nat -> nth_error (repeat num_zero n) d = Some num_zero.
Proof.
  intros n d H. rewrite (nth_error_nth' _ num_zero) by now rewrite repeat_length.
  now rewrite nth_repeat.
Qed.

(** [NaN] is never equal to itself, so when [NaN] is among the years (as
    it is in the list of [App] once a record has a date that cannot be
    read) no record is counted for it: its value is zero in every entry of
    the seasonality, pace and comparison views and in every cell of the
    heatmap, and its box is the one of an empty year. *)
Theorem views_of_NaN_year :
  forall h expenses years,
    In None years ->
    (forall entry, In entry (SeasonalityChart h expenses years) ->
       obj_get key_eqb None (season_values entry) = Some num_zero) /\
    (forall entry, In entry (PaceOfSpendingChart h expenses years) ->
       obj_get key_eqb None (pace_values entry) = Some num_zero) /\
    (forall cat,
       entry_get (category_entry h expenses years cat) None = Some num_zero) /\
    (forall m, (m < 12)%nat ->
       heatmap_get (HeatmapTable h expenses years) None m = Some num_zero) /\
    (forall b, In b (TransactionBoxPlot h expenses years) -> year b = None ->
       box b = getBoxPlotData []).
Proof.
  intros h expenses years Hn. split; [|split; [|split; [|split]]].
  - intros entry He. unfold SeasonalityChart in He.
    apply in_map_iff in He. destruct He as [m [<- _]]. cbn [season_values].
    rewrite (obj_get_fill key_eqb key_eqb_eq) by assumption.
    now rewrite season_total_NaN.
  - intros entry He. unfold PaceOfSpendingChart in He.
    apply in_map_iff in He. destruct He as [i [<- Hi]]. cbn [pace_values].
    apply in_seq in Hi.
    rewrite (obj_get_fill key_eqb key_eqb_eq) by assumption.
    unfold pace_sample.
    rewrite (obj_get_fill key_eqb key_eqb_eq) by assumption.
    rewrite year_cumulative_NaN, nth_error_repeat_zero by lia.
    reflexivity.
  - intro cat. rewrite entry_get_total by assumption.
    now rewrite category_total_NaN.
  - intros m Hm. rewrite heatmap_get_total by assumption.
    now rewrite season_total_NaN.
  - intros b Hb Hy. unfold TransactionBoxPlot in Hb.
    apply in_map_iff in Hb. destruct Hb as [y [<- _]]. cbn [year box] in *.
    subst y. unfold year_amounts.
    now rewrite filter_none by apply in_year_NaN.
Qed.

Lemma views_of_NaN_year_witness :
  In None [Some 2024; None] /\
  entry_get (category_entry utc_host five_expenses [Some 2024; None] "Rent")
    None = Some num_zero.
Proof.
  assert (Hn : In None [Some 2024; None]) by (right; left; reflexivity).
  split; [exact Hn|].
  destruct (views_of_NaN_year utc_host five_expenses [Some 2024; None] Hn)
    as (_ & _ & H & _).
  apply H.
Defined.

(* ------------------------------------------------------------------ *)
(** ** The five-number summary *)

Lemma sorted_nth_le : forall l i j x y,
  Forall (fun x => is_NaN x = false) l ->
  StronglySorted num_le l -> (i <= j)%nat ->
  nth_error l i = Some x -> nth_error l j = Some y -> num_le x y.
Proof.
  intros l i j x y Hn Hs. revert i j.
  induction Hs as [|a r Hr IH Ha]; intros i j Hij Hx Hy.
  - destruct i; discriminate.
  - inversion Hn as [|? ? Hna Hnr]; subst.
    destruct i as [|i], j as [|j]; cbn [nth_error] in Hx, Hy.
    + inversion Hx; inversion Hy; subst. now apply num_le_refl.
    + inversion Hx; subst. rewrite Forall_forall in Ha. apply Ha.
      eapply nth_error_In; eassumption.
    + lia.
    + apply (IH Hnr i j); [lia | assumption | assumption].
Qed.

Lemma quartile_positions : forall n,
  (1 <= n)%nat ->
  (n / 4 <= n / 2)%nat /\ (n / 2 <= (n * 3) / 4)%nat /\
  ((n * 3) / 4 <= n - 1)%nat.
Proof.
  intros n Hn. split; [|split].
  - apply Nat.div_le_compat_l. lia.
  - replace (n / 2)%nat with ((n * 2) / (2 * 2))%nat
      by (rewrite Nat.Div0.div_mul_cancel_r; lia).
    apply Nat.Div0.div_le_mono. lia.
  - assert ((n * 3) / 4 < n)%nat
      by (apply Nat.Div0.div_lt_upper_bound; lia).
    lia.
Qed.

(** The five values of the summary of a non-empty array without [NaN]
    are elements of the array, in ascending order:
    min <= q1 <= median <= q3 <= max. *)
Theorem box_plot_ordered :
  forall data,
    (1 <= List.length data)%nat ->
    Forall (fun x => is_NaN x = false) data ->
    exists mn a b c mx,
      getBoxPlotData data
      = {| min := Some mn; q1 := Some a; median := Some b;
           q3 := Some c; max := Some mx |} /\
      num_le mn a /\ num_le a b /\ num_le b c /\ num_le c mx /\
      In mn data /\ In a data /\ In b data /\ In c data /\ In mx data.
Proof.
  intros data Hn Hnan.
  set (sorted := js_sort (fun a b => num_sub a b) data).
  set (n := List.length data) in *.
  assert (Hlen : List.length sorted = n) by apply js_sort_length.
  assert (Hsorted : StronglySorted num_le sorted) by now apply sort_ascending.
  assert (Hnan' : Forall (fun x => is_NaN x = false) sorted).
  { apply Forall_forall. intros x Hx. rewrite Forall_forall in Hnan.
    apply Hnan. now apply (proj1 (js_sort_In (fun a b => num_sub a b) x data)). }
  assert (Hget : forall k, (k < n)%nat ->
            exists v, nth_error sorted k = Some v /\ In v data).
  { intros k Hk. destruct (nth_error sorted k) eqn:E.
    - eexists. split; [reflexivity|].
      apply (proj1 (js_sort_In (fun a b => num_sub a b) _ data)).
      eapply nth_error_In; eassumption.
    - apply nth_error_None in E. lia. }
  destruct (quartile_positions n Hn) as (P1 & P2 & P3).
  destruct (Hget 0%nat ltac:(lia)) as [mn [Emn Imn]].
  destruct (Hget (n / 4)%nat ltac:(lia)) as [a [Ea Ia]].
  destruct (Hget (n / 2)%nat ltac:(lia)) as [b [Eb Ib]].
  destruct (Hget ((n * 3) / 4)%nat ltac:(lia)) as [c [Ec Ic]].
  destruct (Hget (n - 1)%nat ltac:(lia)) as [mx [Emx Imx]].
  exists mn, a, b, c, mx. split.
  - rewrite getBoxPlotData_nonempty by exact Hn.
    cbv zeta. fold sorted. rewrite Hlen, Emn, Ea, Eb, Ec, Emx. reflexivity.
  - split; [apply (sorted_nth_le sorted 0 (n / 4)); auto; lia|].
    split; [apply (sorted_nth_le sorted (n / 4) (n / 2)); auto|].
    split; [apply (sorted_nth_le sorted (n / 2) ((n * 3) / 4)); auto|].
    split; [apply (sorted_nth_le sorted ((n * 3) / 4) (n - 1)); auto|].
    repeat (split; [assumption|]). assumption.
Qed.

Lemma box_plot_ordered_witness :
  exists mn a b c mx,
    getBoxPlotData (year_amounts utc_host five_expenses (Some 2024))
    = {| min := Some mn; q1 := Some a; median := Some b;
         q3 := Some c; max := Some mx |} /\
    num_le mn a /\ num_le a b /\ num_le b c /\ num_le c mx /\
    In mn (year_amounts utc_host five_expenses (Some 2024)) /\
    In a (year_amounts utc_host five_expenses (Some 2024)) /\
    In b (year_amounts utc_host five_expenses (Some 2024)) /\
    In c (year_amounts utc_host five_expenses (Some 2024)) /\
    In mx (year_amounts utc_host five_expenses (Some 2024)).
Proof.
  apply (box_plot_ordered (year_amounts utc_host five_expenses (Some 2024))).
  - vm_compute. lia.
  - vm_compute. repeat constructor.
Defined.

(** Two canonical decimals of equal value are the same. *)
Lemma canonical_value_inj : forall a b,
  canonical a -> canonical b ->
  dmant a * pow10 (dscale b) = dmant b * pow10 (dscale a) -> a = b.
Proof.
  assert (Hlt : forall ma ka mb kb,
            canonical (Dec mb kb) -> (ka < kb)%nat ->
            ma * pow10 kb = mb * pow10 ka -> False).
  { intros ma ka mb kb Hb Hk E.
    destruct kb as [|kb]; [lia|].
    apply canonical_last_digit in Hb. apply Hb.
    replace (S kb) with ((S kb - ka) + ka)%nat in E by lia.
    rewrite pow10_add, Z.mul_assoc in E.
    pose proof (pow10_pos ka).
    apply Z.mul_cancel_r in E; [|lia].
    replace (S kb - ka)%nat with (S (kb - ka)) in E by lia.
    rewrite pow10_S in E. rewrite <- E.
    replace (ma * (10 * pow10 (kb - ka))) with ((ma * pow10 (kb - ka)) * 10)
      by ring.
    apply Z.mod_mul. lia. }
  intros [ma ka] [mb kb] Ha Hb E. cbn [dmant dscale] in E.
  destruct (Nat.lt_trichotomy ka kb) as [L|[L|L]].
  - exfalso. exact (Hlt ma ka mb kb Hb L E).
  - subst kb. pose proof (pow10_pos ka).
    apply Z.mul_cancel_r in E; [now subst | lia].
  - exfalso. symmetry in E. exact (Hlt mb kb ma ka Ha L E).
Qed.

Lemma num_le_antisym : forall x y,
  well_formed x -> well_formed y -> num_le x y -> num_le y x -> x = y.
Proof.
  intros [| | |a] [| | |b]; cbn [num_le well_formed];
    intros Hx Hy H1 H2; try contradiction; try reflexivity.
  f_equal. apply canonical_value_inj; [apply Hx | apply Hy|].
  unfold dle in *. lia.
Qed.

(** Two ascending arrangements of the same numbers are the same list. *)
Lemma sorted_perm_eq : forall l1 l2,
  Forall (fun x => is_NaN x = false /\ well_formed x) l1 ->
  StronglySorted num_le l1 -> StronglySorted num_le l2 ->
  Permutation l1 l2 -> l1 = l2.
Proof.
  induction l1 as [|x r1 IH]; intros l2 Hw H1 H2 Hp.
  - apply Permutation_nil in Hp. now subst.
  - destruct l2 as [|y r2];
      [apply Permutation_sym, Permutation_nil in Hp; discriminate|].
    inversion Hw as [|? ? [Hnx Hwx] Hwr]; subst.
    inversion H1 as [|? ? S1 F1]; subst.
    inversion H2 as [|? ? S2 F2]; subst.
    rewrite Forall_forall in F1, F2, Hwr.
    assert (Hy : In y (x :: r1))
      by (eapply Permutation_in; [apply Permutation_sym, Hp | now left]).
    assert (Hx : In x (y :: r2))
      by (eapply Permutation_in; [apply Hp | now left]).
    assert (E : x = y).
    { destruct Hy as [Hy|Hy]; [exact Hy|].
      destruct Hx as [Hx|Hx]; [now symmetry|].
      apply num_le_antisym; [assumption | apply Hwr, Hy | now apply F1 | now apply F2]. }
    subst y. f_equal. apply IH; try assumption.
    + now apply Forall_forall.
    + eapply Permutation_cons_inv; eassumption.
Qed.

Lemma getBoxPlotData_perm : forall d1 d2,
  Forall (fun x => is_NaN x = false /\ well_formed x) d1 ->
  Permutation d1 d2 -> getBoxPlotData d1 = getBoxPlotData d2.
Proof.
  intros d1 d2 Hw Hp.
  destruct d1 as [|x1 r1].
  { apply Permutation_nil in Hp. now subst. }
  destruct d2 as [|x2 r2];
    [apply Permutation_sym, Permutation_nil in Hp; discriminate|].
  rewrite !getBoxPlotData_nonempty by (cbn; lia). cbv zeta.
  assert (Hn1 : Forall (fun x => is_NaN x = false) (x1 :: r1)).
  { eapply Forall_impl; [|exact Hw]. now intros a [Ha _]. }
  assert (Hw2 : Forall (fun x => is_NaN x = false /\ well_formed x) (x2 :: r2)).
  { apply Forall_forall. intros a Ha. rewrite Forall_forall in Hw.
    apply Hw. eapply Permutation_in; [apply Permutation_sym, Hp | exact Ha]. }
  assert (Hn2 : Forall (fun x => is_NaN x = false) (x2 :: r2)).
  { eapply Forall_impl; [|exact Hw2]. now intros a [Ha _]. }
  assert (E : js_sort (fun a b => num_sub a b) (x1 :: r1)
              = js_sort (fun a b => num_sub a b) (x2 :: r2)).
  { apply sorted_perm_eq.
    - apply Forall_forall. intros a Ha. rewrite Forall_forall in Hw.
      apply Hw.
      now apply (proj1 (js_sort_In (fun a b => num_sub a b) a (x1 :: r1))).
    - now apply sort_ascending.
    - now apply sort_ascending.
    - eapply perm_trans; [apply Permutation_sym, js_sort_perm|].
      eapply perm_trans; [exact Hp | apply js_sort_perm]. }
  now rewrite E.
Qed.

Lemma filter_perm : forall (A : Type) (p : A -> bool) l1 l2,
  Permutation l1 l2 -> Permutation (filter p l1) (filter p l2).
Proof.
  intros A p l1 l2 H. induction H as [|x l1 l2 H IH|x y l|l1 l2 l3 H1 IH1 H2 IH2].
  - apply perm_nil.
  - cbn [filter]. destruct (p x); [now apply perm_skip | exact IH].
  - cbn [filter]. destruct (p y), (p x); try apply Permutation_refl.
    apply perm_swap.
  - eapply perm_trans; eassumption.
Qed.

(** The distribution view does not depend on the order of the records:
    two stores holding the same records, with amounts that are numbers as
    the import builds them, give the same boxes. *)
Theorem box_plot_order_independent :
  forall h expenses1 expenses2 years,
    Permutation expenses1 expenses2 ->
    Forall (fun e => is_NaN (amount e) = false /\ well_formed (amount e))
           expenses1 ->
    TransactionBoxPlot h expenses1 years = TransactionBoxPlot h expenses2 years.
Proof.
  intros h expenses1 expenses2 years Hp Hw. unfold TransactionBoxPlot.
  apply map_ext. intro y. f_equal. apply getBoxPlotData_perm.
  - unfold year_amounts. apply Forall_forall. intros a Ha.
    apply in_map_iff in Ha. destruct Ha as [e [<- He]].
    apply filter_In in He. rewrite Forall_forall in Hw. now apply Hw.
  - unfold year_amounts. apply Permutation_map. now apply filter_perm.
Qed.

Lemma box_plot_order_independent_witness :
  TransactionBoxPlot utc_host five_expenses [Some 2024; Some 2023]
  = TransactionBoxPlot utc_host (rev five_expenses) [Some 2024; Some 2023].
Proof.
  apply (box_plot_order_independent utc_host five_expenses (rev five_expenses)).
  - apply Permutation_rev.
  - unfold five_expenses.
    repeat (constructor; [split; [reflexivity | apply parseFloat_well_formed]|]).
    constructor.
Defined.

(* ------------------------------------------------------------------ *)
(** ** The maximum of the heatmap and its colours *)

Lemma heatmap_cells_snd : forall h expenses y months row mx,
  snd (fold_left (heatmap_cell h expenses y) months (row, mx))
  = fold_left raise_max (map (season_total h expenses y) months) mx.
Proof.
  intros h expenses y months.
  induction months as [|m r IH]; intros row mx; [reflexivity|].
  cbn [fold_left map]. unfold heatmap_cell at 2. cbn [fst snd]. apply IH.
Qed.

Lemma heatmap_years_snd : forall h expenses years data mx,
  snd (fold_left (heatmap_year h expenses) years (data, mx))
  = fold_left raise_max (grid_cells h expenses years) mx.
Proof.
  intros h expenses years. unfold grid_cells.
  induction years as [|y r IH]; intros data mx; [reflexivity|].
  cbn [fold_left flat_map]. rewrite fold_left_app.
  unfold heatmap_year at 2. cbn [snd].
  pose proof (heatmap_cells_snd h expenses y (seq 0 12) [] mx) as Hmx.
  destruct (fold_left (heatmap_cell h expenses y) (seq 0 12) ([], mx))
    as [row mx'].
  cbn [snd] in Hmx. rewrite <- Hmx. apply IH.
Qed.

Lemma maxVal_cells : forall h expenses years,
  maxVal (HeatmapTable h expenses years)
  = fold_left raise_max (grid_cells h expenses years) num_zero.
Proof.
  intros h expenses years. unfold HeatmapTable.
  pose proof (heatmap_years_snd h expenses years [] num_zero) as H.
  destruct (fold_left (heatmap_year h expenses) years ([], num_zero))
    as [grid mx].
  exact H.
Qed.

Lemma raise_max_le : forall mx t,
  is_NaN mx = false ->
  is_NaN (raise_max mx t) = false /\ num_le mx (raise_max mx t) /\
  num_gtb t (raise_max mx t) = false.
Proof.
  intros mx t Hm. unfold raise_max. destruct (num_gtb t mx) eqn:E.
  - unfold num_gtb in E. split; [|split].
    + destruct mx, t; try discriminate; reflexivity.
    + now apply num_ltb_le.
    + unfold num_gtb. destruct t as [| | |d]; try reflexivity;
        try (destruct mx; discriminate).
      cbn [num_ltb]. destruct (dltb d d) eqn:L; [|reflexivity].
      apply dltb_lt in L. lia.
  - split; [exact Hm|]. split; [now apply num_le_refl | exact E].
Qed.

Lemma num_ltb_not_le : forall x y,
  num_ltb x y = true -> num_le y x -> False.
Proof.
  intros [| | |a] [| | |b]; cbn [num_ltb num_le]; intros H L;
    try discriminate; try contradiction.
  apply dltb_lt in H. unfold dle in L. lia.
Qed.

Lemma num_gtb_le_false : forall t a b,
  num_gtb t a = false -> is_NaN a = false -> num_le a b ->
  num_gtb t b = false.
Proof.
  intros t a b Ht Ha Hab. unfold num_gtb in *.
  destruct (num_ltb b t) eqn:E; [|reflexivity].
  exfalso. apply (num_ltb_not_le b t E).
  assert (Hnt : is_NaN t = false)
    by (destruct b, t; try discriminate; reflexivity).
  apply num_le_trans with a; [|exact Hab].
  now apply num_nltb_le.
Qed.

(** What the running maximum is after a list of cells. *)
Lemma fold_raise_max : forall ts mx,
  is_NaN mx = false ->
  let r := fold_left raise_max ts mx in
  is_NaN r = false /\ num_le mx r /\
  (forall t, In t ts -> num_gtb t r = false) /\
  (r = mx \/ In r ts).
Proof.
  induction ts as [|t ts IH]; intros mx Hm; cbn [fold_left].
  - split; [exact Hm|]. split; [now apply num_le_refl|].
    split; [intros t []| now left].
  - destruct (raise_max_le mx t Hm) as (N1 & L1 & G1).
    destruct (IH (raise_max mx t) N1) as (N2 & L2 & G2 & M2).
    split; [exact N2|]. split; [eapply num_le_trans; eassumption|].
    split.
    + intros t' [<-|Ht']; [|now apply G2].
      eapply num_gtb_le_false; eassumption.
    + destruct M2 as [M2|M2]; [|right; now right].
      rewrite M2. unfold raise_max. destruct (num_gtb t mx); [|now left].
      right. now left.
Qed.

Lemma grid_cells_In : forall h expenses years t,
  In t (grid_cells h expenses years) <->
  exists y m, In y years /\ (m < 12)%nat /\ t = season_total h expenses y m.
Proof.
  intros h expenses years t. unfold grid_cells. rewrite in_flat_map. split.
  - intros [y [Hy Ht]]. apply in_map_iff in Ht. destruct Ht as [m [<- Hm]].
    apply in_seq in Hm. exists y, m. repeat split; [assumption | lia].
  - intros [y [m [Hy [Hm ->]]]]. exists y. split; [assumption|].
    apply in_map_iff. exists m. split; [reflexivity|]. apply in_seq. lia.
Qed.

(** [maxVal] is a number, not below zero; no cell of the grid is greater;
    and it is the value of a cell unless it is zero. *)
Theorem heatmap_maxVal_greatest :
  forall h expenses years,
    let g := HeatmapTable h expenses years in
    is_NaN (maxVal g) = false /\ num_le num_zero (maxVal g) /\
    (forall y m t, heatmap_get g y m = Some t -> In y years -> (m < 12)%nat ->
       num_gtb t (maxVal g) = false) /\
    (maxVal g = num_zero \/
     exists y m, In y years /\ (m < 12)%nat /\
                 heatmap_get g y m = Some (maxVal g)).
Proof.
  intros h expenses years g. unfold g.
  destruct (fold_raise_max (grid_cells h expenses years) num_zero eq_refl)
    as (N & L & G & M).
  rewrite <- maxVal_cells in N, L, G, M.
  split; [exact N|]. split; [exact L|]. split.
  - intros y m t Ht Hy Hm. rewrite heatmap_get_total in Ht by assumption.
    inversion Ht; subst t. apply G. apply grid_cells_In. now exists y, m.
  - destruct M as [M|M]; [now left|]. right.
    apply grid_cells_In in M. destruct M as [y [m [Hy [Hm E]]]].
    exists y, m. split; [assumption|]. split; [assumption|].
    rewrite heatmap_get_total by assumption. now rewrite <- E.
Qed.

Lemma dmul_value : forall a b,
  dmant (dmul a b) * pow10 (dscale a + dscale b)
  = dmant a * dmant b * pow10 (dscale (dmul a b)).
Proof. intros a b. unfold dmul. apply dnorm_value. Qed.

Lemma quot_self_not_below : forall a c,
  0 < dmant a -> dmant c < pow10 (dscale c) ->
  quot_ltb (QFrac a a) c = false.
Proof.
  intros a c Ha Hc. cbn [quot_ltb].
  destruct (dltb a (dmul c a)) eqn:L; [|reflexivity].
  apply dltb_lt in L. pose proof (dmul_value c a) as V.
  pose proof (pow10_pos (dscale a)). pose proof (pow10_pos (dscale c)).
  pose proof (pow10_pos (dscale (dmul c a))) as Pm.
  rewrite pow10_add in V.
  assert (E : dmant a * pow10 (dscale (dmul c a)) * (pow10 (dscale c) * pow10 (dscale a))
              < dmant c * dmant a * pow10 (dscale (dmul c a)) * pow10 (dscale a))
    by (rewrite <- V; nia).
  exfalso.
  assert (0 < dmant a * pow10 (dscale (dmul c a)) * pow10 (dscale a)) by nia.
  nia.
Qed.

(** The colours at the two ends: a cell of value zero is slate, and when
    [maxVal] is positive it is the value of a cell, and the cells holding
    it are red. *)
Theorem heatmap_hottest_cell_red :
  forall h expenses years,
    let g := HeatmapTable h expenses years in
    getColor (maxVal g) num_zero = "bg-slate-50 text-slate-300" /\
    (num_gtb (maxVal g) num_zero = true ->
     getColor (maxVal g) (maxVal g) = "bg-red-500 text-white" /\
     exists y m, In y years /\ (m < 12)%nat /\
                 heatmap_get g y m = Some (maxVal g)).
Proof.
  intros h expenses years g. split; [reflexivity|]. intro Hp. split.
  - destruct (maxVal g) as [| | |a]; try discriminate; [reflexivity|].
    rewrite num_gtb_Fin in Hp. apply Z.ltb_lt in Hp.
    unfold getColor.
    assert (Enz : num_eqb (Fin a) num_zero = false).
    { unfold num_eqb, num_zero, dcompare, dzero. cbn [dmant dscale].
      change (pow10 0) with 1.
      pose proof (pow10_pos (dscale a)).
      destruct (Z.compare_spec (dmant a * 1) (0 * pow10 (dscale a)));
        try reflexivity. lia. }
    rewrite Enz, num_gtb_Fin.
    replace (0 <? dmant a) with true by (symmetry; apply Z.ltb_lt; lia).
    cbv zeta. unfold num_div.
    replace (dmant a =? 0) with false by (symmetry; apply Z.eqb_neq; lia).
    replace (dmant a <? 0) with false by (symmetry; apply Z.ltb_ge; lia).
    rewrite !quot_self_not_below by (try assumption; reflexivity).
    reflexivity.
  - destruct (fold_raise_max (grid_cells h expenses years) num_zero eq_refl)
      as (_ & _ & _ & M).
    rewrite <- maxVal_cells in M. fold g in M.
    destruct M as [M|M]; [rewrite M in Hp; discriminate|].
    apply grid_cells_In in M. destruct M as [y [m [Hy [Hm E]]]].
    exists y, m. split; [assumption|]. split; [assumption|].
    unfold g. rewrite heatmap_get_total by assumption. f_equal.
    symmetry. exact E.
Qed.


(* ================================================================== *)
(** * Further properties of the store *)



Lemma jsonify_is_storable : forall v,
  json_all well_formed v -> storable (jsonify v).
Proof.
  unfold storable.
  intro v. induction v as [ |b|x|s|l IH|l IH] using json_induction;
    intro H; try exact I.
  - cbn [jsonify]. destruct (is_finite x) eqn:E; [|exact I].
    cbn. now split.
  - cbn [jsonify]. apply json_all_arr. apply json_all_arr in H.
    apply Forall_forall. intros y Hy. apply in_map_iff in Hy.
    destruct Hy as [u [<- Hu]]. rewrite Forall_forall in IH, H.
    apply IH; [assumption | now apply H].
  - cbn [jsonify]. apply json_all_obj. apply json_all_obj in H.
    apply Forall_forall. intros y Hy. apply in_map_iff in Hy.
    destruct Hy as [u [<- Hu]]. cbn [snd]. rewrite Forall_forall in IH, H.
    apply IH; [assumption | now apply H].
Qed.

Lemma arr_tail_jsonify : forall r,
  Forall (fun v => JSON_stringify (jsonify v) = JSON_stringify v) r ->
  arr_tail (map jsonify r) = arr_tail r.
Proof.
  induction r as [|y r IH]; intro H; [reflexivity|].
  inversion H as [|? ? Hy Hr]; subst. cbn [map arr_tail].
  now rewrite Hy, IH.
Qed.

Lemma obj_tail_jsonify : forall r,
  Forall (fun kv => JSON_stringify (jsonify (snd kv))
                    = JSON_stringify (snd kv)) r ->
  obj_tail (map (fun kv => (fst kv, jsonify (snd kv))) r) = obj_tail r.
Proof.
  induction r as [|[k y] r IH]; intro H; [reflexivity|].
  inversion H as [|? ? Hy Hr]; subst. cbn [snd] in Hy.
  cbn [map obj_tail fst snd]. now rewrite Hy, IH.
Qed.

(** A value and what comes back from it are printed alike. *)
Lemma stringify_jsonify : forall v,
  JSON_stringify (jsonify v) = JSON_stringify v.
Proof.
  intro v. induction v as [ |b|x|s|l IH|l IH] using json_induction;
    try reflexivity.
  - cbn [jsonify]. destruct (is_finite x) eqn:E; cbn [JSON_stringify];
      now rewrite ?E.
  - cbn [jsonify]. destruct l as [|y r]; [reflexivity|].
    inversion IH as [|? ? Hy Hr]; subst. cbn [map].
    rewrite !stringify_arr, Hy. now rewrite arr_tail_jsonify.
  - cbn [jsonify]. destruct l as [|[k y] r]; [reflexivity|].
    inversion IH as [|? ? Hy Hr]; subst. cbn [snd] in Hy. cbn [map fst snd].
    rewrite !stringify_obj, Hy. now rewrite obj_tail_jsonify.
Qed.

Lemma persist_jsonify : forall ex,
  persist_effect (map jsonify ex) = persist_effect ex.
Proof.
  intro ex. unfold persist_effect.
  change (JArr (map jsonify ex)) with (jsonify (JArr ex)).
  apply stringify_jsonify.
Qed.

(** Loading the page from a written-through state logs nothing, leaves the
    stored text as it is and gives the records back with every number that
    is not finite replaced by [null] (and nothing else changed); loading
    once more changes nothing further. *)
Theorem reload_replaces_non_finite :
  forall st,
    written_through st ->
    Forall (json_all well_formed) (expenses st) ->
    mount (storage st)
    = ({| expenses := map jsonify (expenses st); storage := storage st |}, [])
    /\ reload (reload st) = reload st.
Proof.
  intros st Hs Hw. unfold written_through in Hs.
  assert (E : mount (storage st)
              = ({| expenses := map jsonify (expenses st);
                    storage := storage st |}, [])).
  { unfold mount. rewrite Hs, load_persisted by exact Hw.
    cbn [set_expenses console]. now rewrite persist_jsonify. }
  split; [exact E|].
  unfold reload at 2 3. rewrite E. cbn [fst].
  unfold reload, mount. cbn [storage]. rewrite Hs.
  rewrite <- persist_jsonify.
  rewrite load_persisted.
  - cbn [fst set_expenses]. rewrite persist_jsonify.
    rewrite map_jsonify_storable; [reflexivity|].
    apply Forall_forall. intros v Hv. apply in_map_iff in Hv.
    destruct Hv as [u [<- Hu]]. apply jsonify_is_storable.
    rewrite Forall_forall in Hw. now apply Hw.
  - apply Forall_forall. intros v Hv. apply in_map_iff in Hv.
    destruct Hv as [u [<- Hu]]. apply jsonify_well_formed.
    rewrite Forall_forall in Hw. now apply Hw.
Qed.

Lemma reload_replaces_non_finite_witness :
  mount (storage overflow_state)
  = ({| expenses := map jsonify (expenses overflow_state);
        storage := storage overflow_state |}, [])
  /\ reload (reload overflow_state) = reload overflow_state.
Proof.
  apply (reload_replaces_non_finite overflow_state).
  - reflexivity.
  - vm_compute. repeat constructor.
Defined.

(** A confirmed purge outlives the page: loading it again gives the empty
    store, the storage holding the empty array, and logs nothing. *)
Theorem purge_then_reload :
  forall st,
    mount (storage (purge st true))
    = ({| expenses := []; storage := Some "[]" |}, []) /\
    reload (purge st true) = purge st true.
Proof.
  intro st. split; reflexivity.
Qed.


(* ================================================================== *)
(** * Further properties of the import *)

Lemma str_or_truthy : forall a b,
  str_truthy b = true -> str_truthy (str_or a b) = true.
Proof.
  intros [s|] b H; cbn [str_or]; [|exact H].
  destruct (str_truthy s) eqn:E; assumption.
Qed.

Lemma str_truthy_app : forall a c b, str_truthy (a ++ String c b) = true.
Proof. intros [|x a] c b; reflexivity. Qed.

Lemma toISOString_date_truthy : forall t, str_truthy (toISOString_date t) = true.
Proof.
  intro t. unfold toISOString_date.
  destruct (civil_from_days (Day t)) as [[y m] d].
  apply str_truthy_app.
Qed.

Lemma mapi_nth_error : forall (A B : Type) (f : A -> nat -> B) l i0 y,
  In y (mapi f i0 l) ->
  exists x i, nth_error l i = Some x /\ y = f x (i0 + i)%nat.
Proof.
  intros A B f l. induction l as [|x r IH]; intros i0 y H; [contradiction|].
  cbn [mapi] in H. destruct H as [<-|H].
  - exists x, 0%nat. split; [reflexivity|]. f_equal. lia.
  - destruct (IH (S i0) y H) as [x' [i [Hi E]]].
    exists x', (S i). split; [exact Hi|]. rewrite E. f_equal. lia.
Qed.

Lemma mapi_length : forall (A B : Type) (f : A -> nat -> B) l i0,
  List.length (mapi f i0 l) = List.length l.
Proof.
  intros A B f l. induction l as [|x r IH]; intro i0; [reflexivity|].
  cbn [mapi List.length]. now rewrite IH.
Qed.

(** Every record of a batch is complete: it is the record of one row of
    the file, carrying the index of that row in its id; its date,
    description and category are not empty, its account is "Imported" and
    its amount is a positive number.  A batch has at most one record per
    row. *)
Theorem imported_records_complete :
  forall now today importing mapping,
    let batch := finishImport now today importing mapping in
    Forall (fun e =>
              (exists row i,
                 nth_error (data importing) i = Some row /\
                 e = normalize now today mapping row i /\
                 id e = id_text (now i) (Z.of_nat i)) /\
              str_truthy (date e) = true /\
              str_truthy (description e) = true /\
              str_truthy (category e) = true /\
              account e = "Imported" /\
              is_NaN (amount e) = false /\
              num_gtb (amount e) num_zero = true) batch /\
    (List.length batch <= List.length (data importing))%nat.
Proof.
  intros now today importing mapping batch. split.
  - apply Forall_forall. intros e He. unfold batch, finishImport in He.
    apply filter_In in He. destruct He as [He Hp].
    apply mapi_nth_error in He. destruct He as [row [i [Hi E]]].
    cbn [Nat.add] in E. split; [|split; [|split; [|split; [|split; [|split]]]]].
    + exists row, i. split; [exact Hi|]. split; [exact E|].
      rewrite E. reflexivity.
    + rewrite E. cbn [normalize date].
      apply str_or_truthy, toISOString_date_truthy.
    + rewrite E. cbn [normalize description]. now apply str_or_truthy.
    + rewrite E. cbn [normalize category]. now apply str_or_truthy.
    + rewrite E. reflexivity.
    + destruct (amount e); [discriminate Hp | reflexivity..].
    + exact Hp.
  - unfold batch, finishImport.
    eapply Nat.le_trans; [apply filter_length_le|].
    now rewrite mapi_length.
Qed.

(** The pre-selected header of a field is always one of the detected
    headers; there is none only when the file has no header at all. *)
Theorem default_mapping_is_a_header :
  forall fields field,
    header_of fields (default_mapping fields field) /\
    (default_mapping fields field = None <-> fields = []).
Proof.
  intros fields field.
  assert (Hh : header_of fields (hd_error fields))
    by (destruct fields; [reflexivity | now left]).
  assert (Hd : header_of fields (default_mapping fields field)).
  { unfold default_mapping.
    destruct (find _ fields) as [f|] eqn:E; [|exact Hh].
    destruct (str_truthy f); [|exact Hh].
    apply find_some in E. apply E. }
  split; [exact Hd|]. split.
  - intro E. rewrite E in Hd. exact Hd.
  - intros ->. reflexivity.
Qed.

(* ------------------------------------------------------------------ *)
(** ** The years of the dashboard and the distribution view *)

(** Every year [App] lists is the year of some record, so in the
    dashboard a box is the summary of at least one amount, the year [NaN]
    apart: the zero box of [getBoxPlotData] is shown for that year only. *)
Theorem listed_years_have_records :
  forall h expenses,
    Forall (fun b => year_amounts h expenses (year b) = [] <-> year b = None)
           (TransactionBoxPlot h expenses (App_years h expenses)).
Proof.
  intros h expenses. apply Forall_forall. intros b Hb.
  unfold TransactionBoxPlot in Hb. apply in_map_iff in Hb.
  destruct Hb as [y [<- Hy]]. cbn [year].
  unfold App_years in Hy.
  apply (proj1 (js_sort_In _ y _)) in Hy.
  apply distinct_In in Hy. destruct Hy as [[]|Hy].
  apply in_map_iff in Hy. destruct Hy as [e [Ey He]].
  split.
  - intro En. destruct y as [z|]; [|reflexivity]. exfalso.
    assert (Hin : In (amount e) (year_amounts h expenses (Some z))).
    { unfold year_amounts. apply in_map. apply filter_In.
      split; [exact He|]. unfold in_year. rewrite Ey. cbn. apply Z.eqb_refl. }
    rewrite En in Hin. contradiction.
  - intros ->. unfold year_amounts.
    rewrite filter_none; [reflexivity|]. intro e'. unfold in_year.
    now destruct (getFullYear h (new_Date h (date e'))).
Qed.

(* ================================================================== *)
(** * Rounding: [parseFloat(x.toFixed(f))] *)

Lemma digit_head_facts : forall c,
  is_digit c = true ->
  is_space c = false /\ Ascii.eqb c "-" = false /\ Ascii.eqb c "+" = false /\
  Ascii.eqb c "I" = false /\ Ascii.eqb c "." = false.
Proof.
  intros c H.
  assert (R : 48 <= code c <= 57).
  { unfold is_digit in H. apply andb_true_iff in H. destruct H as [H1 H2].
    apply Z.leb_le in H1. apply Z.leb_le in H2. lia. }
  split.
  { unfold is_space. apply orb_false_iff. split.
    - apply andb_false_iff. right. apply Z.leb_gt. lia.
    - apply Z.eqb_neq. lia. }
  split; [apply eqb_code_neq; change (code "-") with 45; lia|].
  split; [apply eqb_code_neq; change (code "+") with 43; lia|].
  split; [apply eqb_code_neq; change (code "I") with 73; lia|].
  apply eqb_code_neq; change (code ".") with 46; lia.
Qed.

Lemma read_exponent_text : forall ex,
  read_exponent (exp_text ex) = (exp_value ex, EmptyString).
Proof.
  intros [e|]; [|reflexivity]. cbn [exp_text exp_value].
  assert (He : 0 <= Z.abs e) by lia.
  destruct (digits_of_spec (Z.abs e) He) as [Hd [Hv _]].
  pose proof (digits_of_nonempty (Z.abs e) He) as Hne.
  change ("e" ++ ?x) with (String "e" x).
  cbn [read_exponent Ascii.eqb Bool.eqb orb].
  destruct (e <? 0) eqn:Es;
    [change ("-" ++ ?x) with (String "-" x)
    |change ("+" ++ ?x) with (String "+" x)];
    cbn [read_sign Ascii.eqb Bool.eqb];
    rewrite <- (append_nil_r (digits_of (Z.abs e)));
    rewrite (span_digits_app _ EmptyString Hd I), append_nil_r;
    (destruct (digits_of (Z.abs e)) as [|c r] eqn:Ed; [contradiction|]);
    rewrite Hv; f_equal;
    [apply Z.ltb_lt in Es | apply Z.ltb_ge in Es]; lia.
Qed.

(** Reading a decimal numeral laid out as integer part, fraction and
    exponent. *)
Lemma read_unsigned_text : forall ip fp ex,
  ip <> EmptyString ->
  string_forallb is_digit ip = true -> string_forallb is_digit fp = true ->
  read_unsigned (ip ++ frac_text fp ++ exp_text ex)
  = Some (digits_value 0 (ip ++ fp),
          exp_value ex - Z.of_nat (String.length fp), EmptyString).
Proof.
  intros ip fp ex Hne Hi Hf. unfold read_unsigned.
  assert (Hex : no_digit_head (exp_text ex)) by (destruct ex; exact I || reflexivity).
  assert (Hfr : no_digit_head (frac_text fp ++ exp_text ex))
    by (destruct fp; [exact Hex | reflexivity]).
  rewrite (span_digits_app ip _ Hi Hfr).
  destruct fp as [|c fp].
  - cbn [frac_text String.append].
    assert (E : match exp_text ex with
                | String c r =>
                    if Ascii.eqb c "." then span_digits r
                    else (EmptyString, exp_text ex)
                | EmptyString => (EmptyString, exp_text ex)
                end = (EmptyString, exp_text ex))
      by (destruct ex; reflexivity).
    rewrite E. destruct ip as [|a ip]; [contradiction|].
    rewrite read_exponent_text. reflexivity.
  - cbn [frac_text].
    change (("." ++ String c fp) ++ exp_text ex)
      with (String "." (String c fp ++ exp_text ex)).
    cbn [Ascii.eqb Bool.eqb]. cbv iota.
    rewrite (span_digits_app (String c fp) _ Hf Hex).
    destruct ip as [|a ip]; [contradiction|].
    rewrite read_exponent_text. reflexivity.
Qed.

Lemma parseFloat_text : forall (neg : bool) ip fp ex,
  ip <> EmptyString ->
  string_forallb is_digit ip = true -> string_forallb is_digit fp = true ->
  parseFloat ((if neg then "-" else "") ++ ip ++ frac_text fp ++ exp_text ex)
  = fin (dec_sci (if neg then - digits_value 0 (ip ++ fp)
                  else digits_value 0 (ip ++ fp))
                 (exp_value ex - Z.of_nat (String.length fp))).
Proof.
  intros neg ip fp ex Hne Hi Hf.
  pose proof (read_unsigned_text ip fp ex Hne Hi Hf) as R.
  destruct ip as [|a ip]; [contradiction|].
  cbn [string_forallb] in Hi. apply andb_true_iff in Hi. destruct Hi as [Ha Hi].
  destruct (digit_head_facts a Ha) as (S1 & S2 & S3 & S4 & S5).
  set (text := String a ip ++ frac_text fp ++ exp_text ex) in *.
  assert (Et : text = String a (ip ++ frac_text fp ++ exp_text ex))
    by reflexivity.
  assert (Si : startsWith text "Infinity" = false)
    by (rewrite Et; cbn [startsWith]; now rewrite S4).
  unfold parseFloat. destruct neg.
  - change ("-" ++ text) with (String "-" text).
    assert (K1 : skip_spaces (String "-" text) = String "-" text)
      by reflexivity.
    assert (K2 : read_sign (String "-" text) = (true, text)) by reflexivity.
    rewrite K1, K2, Si, R. reflexivity.
  - change ("" ++ text) with text.
    assert (K1 : skip_spaces text = text)
      by (rewrite Et; cbn [skip_spaces]; now rewrite S1).
    assert (K2 : read_sign text = (false, text))
      by (rewrite Et; cbn [read_sign]; now rewrite S2, S3).
    rewrite K1, K2, Si, R. reflexivity.
Qed.

Lemma parseFloat_plain : forall (neg : bool) ip fp,
  ip <> EmptyString ->
  string_forallb is_digit ip = true -> string_forallb is_digit fp = true ->
  parseFloat ((if neg then "-" else "") ++ ip ++ frac_text fp)
  = fin (dec_sci (if neg then - digits_value 0 (ip ++ fp)
                  else digits_value 0 (ip ++ fp))
                 (- Z.of_nat (String.length fp))).
Proof.
  intros neg ip fp Hne Hi Hf.
  assert (E : ip ++ frac_text fp = ip ++ frac_text fp ++ exp_text None)
    by (cbn [exp_text]; now rewrite append_nil_r).
  rewrite E, parseFloat_text by assumption.
  cbn [exp_value]. do 2 f_equal.
Qed.


Lemma round_scaled_nonneg : forall a f, 0 <= dmant a -> 0 <= round_scaled a f.
Proof.
  intros a f H. unfold round_scaled.
  destruct (dscale a <=? f)%nat.
  - pose proof (pow10_pos (f - dscale a)). nia.
  - pose proof (pow10_pos (dscale a - f)) as P.
    apply Z.div_pos; [|lia].
    assert (0 <= pow10 (dscale a - f) / 2) by (apply Z.div_pos; lia). lia.
Qed.

Lemma pad_zeros_digits : forall n m,
  string_forallb is_digit m = true ->
  string_forallb is_digit (pad_zeros n m) = true /\
  digits_value 0 (pad_zeros n m) = digits_value 0 m /\
  (n <= String.length (pad_zeros n m))%nat.
Proof.
  intros n m H. unfold pad_zeros. split; [|split].
  - rewrite string_forallb_app, forallb_zeros. exact H.
  - rewrite digits_value_app, digits_value_zeros. reflexivity.
  - rewrite length_append, length_repeat_char. lia.
Qed.

(** What [parseFloat] reads from the text [toFixed] prints, below 1e21. *)
Lemma parseFloat_toFixed : forall d f,
  fixed_range (Fin d) = true ->
  parseFloat (toFixed (Fin d) f)
  = fin (dnorm (if dmant d <? 0 then - round_scaled (dabs d) f
                else round_scaled (dabs d) f) f).
Proof.
  intros d f Hr. cbn [fixed_range] in Hr. apply negb_true_iff in Hr.
  unfold toFixed. rewrite Hr.
  set (n := round_scaled (dabs d) f).
  assert (Hn : 0 <= n)
    by (apply round_scaled_nonneg; destruct d; cbn; lia).
  destruct (digits_of_spec n Hn) as (Hd & Hv & _ & _).
  pose proof (digits_of_nonempty n Hn) as Hne.
  set (neg := dmant d <? 0).
  replace (if neg then "-" else "") with (if neg then "-" else "")%string
    by reflexivity.
  destruct f as [|f'].
  - pose proof (parseFloat_plain neg (digits_of n) EmptyString Hne Hd eq_refl)
      as P.
    cbn [frac_text] in P.
    rewrite !append_nil_r, Hv in P. rewrite P. cbn [String.length Z.of_nat].
    f_equal. unfold dec_sci. cbn [Z.opp Z.leb Z.compare dnorm].
    destruct neg; f_equal; lia.
  - set (f := S f') in *.
    destruct (pad_zeros_digits (S f) (digits_of n) Hd) as (Pd & Pv & Pl).
    set (m' := pad_zeros (S f) (digits_of n)) in *.
    set (k := String.length m') in *.
    destruct (forallb_take_drop is_digit (k - f) m' Pd) as [Ti Tf].
    assert (Li : String.length (take (k - f) m') = (k - f)%nat)
      by (apply length_take; unfold k; lia).
    assert (Lf : String.length (drop (k - f) m') = f)
      by (rewrite length_drop; fold k; lia).
    assert (Ni : take (k - f) m' <> EmptyString).
    { intro E. rewrite E in Li. cbn [String.length] in Li. lia. }
    pose proof (parseFloat_plain neg _ _ Ni Ti Tf) as P.
    rewrite take_drop, Pv, Hv, Lf in P.
    destruct (drop (k - f) m') as [|c r] eqn:Ed;
      [cbn [String.length] in Lf; unfold f in Lf; discriminate|].
    cbn [frac_text] in P. rewrite P. f_equal. unfold dec_sci.
    replace (0 <=? - Z.of_nat f) with false
      by (symmetry; apply Z.leb_gt; unfold f; lia).
    rewrite Z.opp_involutive, Nat2Z.id. reflexivity.
Qed.

Lemma dnorm_scale_up : forall j m k,
  dnorm (m * pow10 j) (k + j) = dnorm m k.
Proof.
  induction j as [|j IH]; intros m k.
  - change (pow10 0) with 1. now rewrite Z.mul_1_r, Nat.add_0_r.
  - replace (k + S j)%nat with (S (k + j)) by lia. cbn [dnorm].
    rewrite pow10_S.
    replace (m * (10 * pow10 j)) with ((m * pow10 j) * 10) by ring.
    rewrite Z.mod_mul by lia. cbn [Z.eqb].
    rewrite Z.div_mul by lia. apply IH.
Qed.

Lemma ten_21_below_overflow : 10 ^ 21 < overflow_bound.
Proof. reflexivity. Qed.

Lemma fixed_range_spec : forall d,
  fixed_range (Fin d) = true <->
  Z.abs (dmant d) < 10 ^ 21 * pow10 (dscale d).
Proof.
  intro d. cbn [fixed_range]. rewrite negb_true_iff, dleb_nle, dle_of_Z_l.
  destruct d as [m k]. cbn [dabs dmant dscale]. lia.
Qed.

(** The value of a rounding stays where [fin] changes nothing. *)
Lemma fin_small : forall m k,
  Z.abs m <= 10 ^ 21 * pow10 k -> fin (Dec m k) = Fin (Dec m k).
Proof.
  intros m k H. pose proof ten_21_below_overflow as B.
  pose proof (pow10_pos k) as P.
  destruct (fin_cases (Dec m k)) as [[_ C]|[[_ C]|[E _]]];
    cbn [dmant dscale] in *; [nia | nia | exact E].
Qed.

(** What rounding to [f] decimals does to a decimal in the fixed range:
    the result is a finite number with at most [f] decimals, at most half
    a unit of the last decimal away, and the number itself when it has no
    more than [f] decimals. *)
Lemma rounding_spec : forall d f,
  fixed_range (Fin d) = true ->
  exists r,
    parseFloat (toFixed (Fin d) f) = Fin r /\
    (dscale r <= f)%nat /\ canonical r /\
    dist_le (Fin r) (Fin d) (half_unit f) /\
    (canonical d -> (dscale d <= f)%nat -> r = d).
Proof.
  intros [m k] f Hr.
  set (n := round_scaled (Dec (Z.abs m) k) f).
  set (sn := if m <? 0 then - n else n).
  assert (E0 : parseFloat (toFixed (Fin (Dec m k)) f) = fin (dnorm sn f))
    by (rewrite parseFloat_toFixed by exact Hr; reflexivity).
  rewrite E0. clear E0.
  apply fixed_range_spec in Hr. cbn [dmant dscale] in Hr.
  pose proof (pow10_pos k) as Pk. pose proof (pow10_pos f) as Pf.
  (* the rounded integer against the scaled magnitude *)
  assert (Hn : 0 <= n /\
               Z.abs (2 * n * pow10 k - 2 * Z.abs m * pow10 f) <= pow10 k /\
               ((k <= f)%nat -> n = Z.abs m * pow10 (f - k))).
  { unfold n, round_scaled. cbn [dmant dscale].
    destruct (k <=? f)%nat eqn:E.
    - apply Nat.leb_le in E.
      assert (Ef : pow10 f = pow10 (f - k) * pow10 k)
        by (rewrite <- pow10_add; f_equal; lia).
      pose proof (pow10_pos (f - k)).
      split; [nia|]. split; [|reflexivity].
      rewrite Ef. replace (2 * (Z.abs m * pow10 (f - k)) * pow10 k
                           - 2 * Z.abs m * (pow10 (f - k) * pow10 k))
        with 0 by ring. cbn. lia.
    - apply Nat.leb_gt in E.
      set (p := pow10 (k - f)). assert (Pp : 0 < p) by apply pow10_pos.
      assert (Ek : pow10 k = p * pow10 f)
        by (unfold p; rewrite <- pow10_add; f_equal; lia).
      assert (Ep : p = 10 * pow10 (k - f - 1)).
      { unfold p. rewrite <- pow10_S. f_equal. lia. }
      pose proof (pow10_pos (k - f - 1)) as Pq.
      assert (Eh : p / 2 = 5 * pow10 (k - f - 1)).
      { rewrite Ep. replace (10 * pow10 (k - f - 1))
          with ((5 * pow10 (k - f - 1)) * 2) by ring.
        apply Z.div_mul. lia. }
      pose proof (Z.div_mod (Z.abs m + p / 2) p ltac:(lia)) as D.
      pose proof (Z.mod_pos_bound (Z.abs m + p / 2) p Pp) as M.
      set (q := (Z.abs m + p / 2) / p) in *.
      split; [apply Z.div_pos; lia|]. split; [|lia].
      rewrite Ek.
      replace (2 * q * (p * pow10 f) - 2 * Z.abs m * pow10 f)
        with ((2 * (p * q) - 2 * Z.abs m) * pow10 f) by ring.
      rewrite Z.abs_mul, (Z.abs_eq (pow10 f)) by lia.
      apply Z.mul_le_mono_nonneg_r; [lia|]. lia. }
  destruct Hn as (Hn0 & Hnd & Hne).
  (* no overflow *)
  pose proof (dnorm_value f sn) as V.
  pose proof (dnorm_scale_le f sn) as Sl.
  pose proof (dnorm_canonical f sn) as Cn.
  assert (Er : dnorm sn f = dnorm sn f) by reflexivity.
  set (r := dnorm sn f) in V, Sl, Cn, Er at 1 |- *.
  pose proof (pow10_pos (dscale r)) as Pr.
  assert (Hsn : Z.abs sn = n) by (unfold sn; destruct (m <? 0); lia).
  assert (Hbound : Z.abs (dmant r) <= 10 ^ 21 * pow10 (dscale r)).
  { assert (2 * n * pow10 k <= 2 * Z.abs m * pow10 f + pow10 k) by lia.
    assert (Hn' : n <= 10 ^ 21 * pow10 f) by nia.
    assert (Z.abs (dmant r) * pow10 f = n * pow10 (dscale r)).
    { rewrite <- Hsn.
      destruct (Z.abs_spec (dmant r)) as [[? ->]|[? ->]],
               (Z.abs_spec sn) as [[? ->]|[? ->]]; nia. }
    nia. }
  clearbody r. destruct r as [mr kr]. cbn [dmant dscale] in *.
  exists (Dec mr kr).
  split; [now apply fin_small|]. split; [exact Sl|]. split; [exact Cn|].
  split.
  - cbn [dist_le half_unit dmant dscale].
    (* |mr * 10^k - m * 10^kr| * 10^(f+1) <= 5 * 10^(kr + k) *)
    rewrite pow10_add, pow10_S.
    assert (Esign : mr * pow10 k - m * pow10 kr
                    = (if m <? 0 then -1 else 1)
                      * (Z.abs mr * pow10 k - Z.abs m * pow10 kr)).
    { assert (Hs : mr * pow10 f = sn * pow10 kr) by exact V.
      unfold sn in Hs. destruct (m <? 0) eqn:Em.
      - apply Z.ltb_lt in Em. assert (mr <= 0) by nia.
        rewrite (Z.abs_neq mr), (Z.abs_neq m) by lia. ring.
      - apply Z.ltb_ge in Em. assert (0 <= mr) by nia.
        rewrite (Z.abs_eq mr), (Z.abs_eq m) by lia. ring. }
    rewrite Esign, Z.abs_mul.
    replace (Z.abs (if m <? 0 then -1 else 1)) with 1
      by (destruct (m <? 0); reflexivity).
    rewrite Z.mul_1_l.
    assert (Ea : Z.abs mr * pow10 f = n * pow10 kr).
    { rewrite <- Hsn.
      destruct (Z.abs_spec mr) as [[? ->]|[? ->]],
               (Z.abs_spec sn) as [[? ->]|[? ->]]; nia. }
    assert (Ed : (Z.abs mr * pow10 k - Z.abs m * pow10 kr) * (2 * pow10 f)
                 = (2 * n * pow10 k - 2 * Z.abs m * pow10 f) * pow10 kr).
    { transitivity (2 * (Z.abs mr * pow10 f) * pow10 k
                    - 2 * Z.abs m * pow10 f * pow10 kr); [ring|].
      rewrite Ea. ring. }
    assert (Hd : Z.abs (Z.abs mr * pow10 k - Z.abs m * pow10 kr) * (2 * pow10 f)
                 <= pow10 k * pow10 kr).
    { rewrite <- (Z.abs_eq (2 * pow10 f)) at 1 by lia.
      rewrite <- Z.abs_mul, Ed, Z.abs_mul, (Z.abs_eq (pow10 kr)) by lia.
      apply Z.mul_le_mono_nonneg_r; lia. }
    nia.
  - intros Hc Hk. specialize (Hne Hk).
    assert (Es : sn = m * pow10 (f - k)).
    { unfold sn. rewrite Hne. destruct (m <? 0) eqn:Em.
      - apply Z.ltb_lt in Em. rewrite Z.abs_neq by lia. ring.
      - apply Z.ltb_ge in Em. rewrite Z.abs_eq by lia. ring. }
    rewrite Er, Es.
    replace f with (k + (f - k))%nat at 2 by lia.
    rewrite dnorm_scale_up. exact Hc.
Qed.


Lemma num_add_well_formed : forall x y, well_formed (num_add x y).
Proof.
  intros [| | |a] [| | |b]; try exact I.
  cbn [num_add]. apply fin_well_formed. unfold dadd. apply dnorm_canonical.
Qed.




Lemma toFixed_truthy : forall d f,
  fixed_range (Fin d) = true -> str_truthy (toFixed (Fin d) f) = true.
Proof.
  intros d f Hr. cbn [fixed_range] in Hr. apply negb_true_iff in Hr.
  unfold toFixed. rewrite Hr.
  assert (Hn : 0 <= round_scaled (dabs d) f)
    by (apply round_scaled_nonneg; destruct d; cbn; lia).
  pose proof (digits_of_nonempty _ Hn) as Hne.
  destruct (dmant d <? 0); [destruct f; reflexivity|].
  destruct f as [|f'].
  - now apply str_truthy_nonempty.
  - cbv zeta. apply (str_truthy_app (EmptyString ++ take _ _) "." (drop _ _)).
Qed.

(** A sample of the pace view is the cumulative total of its day rounded
    to a whole number: for a total in the range where [toFixed] prints
    plain decimals it has no decimals and is at most one half away. *)
Theorem pace_sample_is_rounded_total :
  forall h expenses years y i c,
    In y years -> (i < 74)%nat ->
    nth_error (year_cumulative h expenses y) (i * 5) = Some c ->
    fixed_range c = true ->
    exists entry s,
      nth_error (PaceOfSpendingChart h expenses years) i = Some entry /\
      day entry = Z.of_nat (i * 5) /\
      obj_get key_eqb y (pace_values entry) = Some s /\
      decimals_le 0 s /\ dist_le s c (half_unit 0).
Proof.
  intros h expenses years y i c Hy Hi Hc Hr.
  destruct c as [| | |d]; try discriminate.
  destruct (rounding_spec d 0 Hr) as (r & Er & Hs & _ & Hd & _).
  eexists. exists (Fin r). split; [|split; [|split; [|split]]].
  - unfold PaceOfSpendingChart.
    rewrite nth_error_map, nth_error_seq0 by assumption. reflexivity.
  - reflexivity.
  - cbn [pace_values].
    rewrite (obj_get_fill key_eqb key_eqb_eq) by assumption.
    unfold pace_sample.
    rewrite (obj_get_fill key_eqb key_eqb_eq) by assumption.
    rewrite Hc. cbn [option_map str_or].
    rewrite toFixed_truthy by exact Hr. now rewrite Er.
  - exact Hs.
  - exact Hd.
Qed.

Lemma pace_sample_is_rounded_total_witness :
  exists entry s,
    nth_error (PaceOfSpendingChart utc_host five_expenses [Some 2024]) 10
    = Some entry /\
    day entry = Z.of_nat (10 * 5) /\
    obj_get key_eqb (Some 2024) (pace_values entry) = Some s /\
    decimals_le 0 s /\ dist_le s (Fin (Dec 425 1)) (half_unit 0).
Proof.
  apply (pace_sample_is_rounded_total utc_host five_expenses [Some 2024]
           (Some 2024) 10%nat (Fin (Dec 425 1))).
  - left. reflexivity.
  - lia.
  - vm_compute. reflexivity.
  - vm_compute. reflexivity.
Defined.


(* ------------------------------------------------------------------ *)
(** ** The pace of spending never decreases *)

(** Beyond the range of plain decimals [toFixed] prints the number as
    [String] does, and it reads back as itself. *)
Lemma parseFloat_toFixed_large : forall d f,
  canonical d -> fin d = Fin d ->
  dleb (dec_of_Z (10 ^ 21)) (dabs d) = true ->
  parseFloat (toFixed (Fin d) f) = Fin d /\
  str_truthy (toFixed (Fin d) f) = true.
Proof.
  intros d f Hc Hf Hl. unfold toFixed. rewrite Hl.
  assert (Hp : 0 < dmant (dabs d)).
  { apply dleb_le, dle_of_Z_l in Hl.
    pose proof (pow10_pos (dscale (dabs d))). nia. }
  destruct (pos_dec_text (dabs d) (canonical_abs d Hc) Hp)
    as (ip & fp & ex & Et & Hi & Hh & Hfp & Ev).
  assert (Hne : ip <> EmptyString).
  { destruct Hh as [->|Hh]; [discriminate|].
    destruct ip; [contradiction | discriminate]. }
  rewrite Et. split.
  - rewrite (parseFloat_text (dmant d <? 0) ip fp ex Hne Hi Hfp).
    destruct (dmant d <? 0) eqn:Es.
    + apply Z.ltb_lt in Es. rewrite dec_sci_neg, Ev, dneg_dabs by exact Es.
      exact Hf.
    + apply Z.ltb_ge in Es. rewrite Ev.
      assert (E : dabs d = d).
      { clear - Es. destruct d as [m k]. unfold dabs.
        cbn [dmant dscale] in *. f_equal. lia. }
      rewrite E. exact Hf.
  - destruct (dmant d <? 0); [reflexivity|].
    destruct ip as [|c ip]; [contradiction | reflexivity].
Qed.

(** The integer [toFixed] prints for a decimal that is not negative. *)
Lemma round_scaled_bounds : forall m k f,
  0 <= m ->
  let n := round_scaled (Dec m k) f in
  0 <= n /\
  2 * n * pow10 k <= 2 * m * pow10 f + pow10 k /\
  2 * m * pow10 f + pow10 k < 2 * (n + 1) * pow10 k.
Proof.
  intros m k f Hm n. unfold n, round_scaled. cbn [dmant dscale].
  pose proof (pow10_pos k) as Pk. pose proof (pow10_pos f) as Pf.
  destruct (k <=? f)%nat eqn:E.
  - apply Nat.leb_le in E.
    assert (Ef : pow10 f = pow10 (f - k) * pow10 k)
      by (rewrite <- pow10_add; f_equal; lia).
    pose proof (pow10_pos (f - k)). rewrite Ef. split; [nia|]. split; nia.
  - apply Nat.leb_gt in E.
    set (p := pow10 (k - f)). assert (Pp : 0 < p) by apply pow10_pos.
    assert (Ek : pow10 k = p * pow10 f)
      by (unfold p; rewrite <- pow10_add; f_equal; lia).
    assert (Ep : p = 10 * pow10 (k - f - 1)).
    { unfold p. rewrite <- pow10_S. f_equal. lia. }
    pose proof (pow10_pos (k - f - 1)) as Pq.
    assert (Eh : p / 2 = 5 * pow10 (k - f - 1)).
    { rewrite Ep. replace (10 * pow10 (k - f - 1))
        with ((5 * pow10 (k - f - 1)) * 2) by ring.
      apply Z.div_mul. lia. }
    pose proof (Z.div_mod (m + p / 2) p ltac:(lia)) as D.
    pose proof (Z.mod_pos_bound (m + p / 2) p Pp) as M.
    set (q := (m + p / 2) / p) in *.
    split; [apply Z.div_pos; lia|]. rewrite Ek.
    split.
    + replace (2 * q * (p * pow10 f)) with ((2 * (p * q)) * pow10 f) by ring.
      replace (2 * m * pow10 f + p * pow10 f) with ((2 * m + p) * pow10 f)
        by ring.
      apply Z.mul_le_mono_nonneg_r; lia.
    + replace (2 * (q + 1) * (p * pow10 f))
        with ((2 * (p * q) + 2 * p) * pow10 f) by ring.
      replace (2 * m * pow10 f + p * pow10 f) with ((2 * m + p) * pow10 f)
        by ring.
      apply Z.mul_lt_mono_pos_r; lia.
Qed.

(** [parseFloat(x.toFixed(0))] of a number that is not negative. *)
Lemma round0_nonneg : forall m k,
  0 <= m -> fixed_range (Fin (Dec m k)) = true ->
  parseFloat (toFixed (Fin (Dec m k)) 0)
  = Fin (Dec (round_scaled (Dec m k) 0) 0) /\
  round_scaled (Dec m k) 0 <= 10 ^ 21.
Proof.
  intros m k Hm Hr. rewrite parseFloat_toFixed by exact Hr.
  unfold dabs. cbn [dmant dscale]. rewrite Z.abs_eq by lia.
  replace (m <? 0) with false by (symmetry; apply Z.ltb_ge; lia).
  cbn [dnorm].
  apply fixed_range_spec in Hr. cbn [dmant dscale] in Hr.
  rewrite Z.abs_eq in Hr by lia.
  destruct (round_scaled_bounds m k 0 Hm) as (N0 & N1 & N2).
  change (pow10 0) with 1 in *.
  pose proof (pow10_pos k) as Pk.
  assert (Hb : round_scaled (Dec m k) 0 <= 10 ^ 21) by nia.
  split; [|exact Hb].
  apply fin_small. change (pow10 0) with 1. lia.
Qed.

Lemma nonneg_Fin : forall m k, num_le num_zero (Fin (Dec m k)) <-> 0 <= m.
Proof.
  intros m k. unfold num_zero. cbn [num_le]. unfold dle, dzero.
  cbn [dmant dscale]. change (pow10 0) with 1. lia.
Qed.

Lemma round0_mono : forall x y,
  well_formed x -> well_formed y ->
  num_le num_zero x -> num_le x y ->
  num_le (parseFloat (toFixed x 0)) (parseFloat (toFixed y 0)) /\
  str_truthy (toFixed x 0) = true.
Proof.
  intros [| | |[ma ka]] [| | |[mb kb]] Wx Wy H0 Hxy;
    try contradiction.
  - split; reflexivity.
  - assert (Ha : 0 <= ma) by now apply nonneg_Fin in H0.
    change (toFixed PInf 0) with "Infinity".
    change (parseFloat "Infinity") with PInf.
    destruct (fixed_range (Fin (Dec ma ka))) eqn:Ra.
    + destruct (round0_nonneg ma ka Ha Ra) as [-> _].
      split; [exact I | now apply toFixed_truthy].
    + cbn [fixed_range] in Ra. apply negb_false_iff in Ra.
      destruct Wx as [Cx Fx].
      destruct (parseFloat_toFixed_large _ 0 Cx Fx Ra) as [-> Tr].
      split; [exact I | exact Tr].
  - assert (Ha : 0 <= ma) by now apply nonneg_Fin in H0.
    pose proof (pow10_pos ka) as Pa. pose proof (pow10_pos kb) as Pb.
    pose proof Hxy as Hxy'. cbn [num_le] in Hxy. unfold dle in Hxy.
    cbn [dmant dscale] in Hxy.
    assert (Hb : 0 <= mb) by nia.
    destruct Wx as [Cx Fx]. destruct Wy as [Cy Fy].
    destruct (fixed_range (Fin (Dec ma ka))) eqn:Ra.
    + destruct (round0_nonneg ma ka Ha Ra) as [-> Ba].
      split; [|now apply toFixed_truthy].
      destruct (round_scaled_bounds ma ka 0 Ha) as (A0 & A1 & A2).
      change (pow10 0) with 1 in *.
      destruct (fixed_range (Fin (Dec mb kb))) eqn:Rb.
      * destruct (round0_nonneg mb kb Hb Rb) as [-> _].
        destruct (round_scaled_bounds mb kb 0 Hb) as (B0 & B1 & B2).
        change (pow10 0) with 1 in *.
        cbn [num_le]. unfold dle. cbn [dmant dscale].
        change (pow10 0) with 1.
        set (na := round_scaled (Dec ma ka) 0) in *.
        set (nb := round_scaled (Dec mb kb) 0) in *.
        assert (2 * na * pow10 ka * pow10 kb
                < 2 * (nb + 1) * pow10 kb * pow10 ka) by nia.
        assert (na < nb + 1) by nia. lia.
      * cbn [fixed_range] in Rb. apply negb_false_iff in Rb.
        destruct (parseFloat_toFixed_large _ 0 Cy Fy Rb) as [-> _].
        apply dleb_le, dle_of_Z_l in Rb. unfold dabs in Rb.
        cbn [dmant dscale] in Rb.
        rewrite Z.abs_eq in Rb by lia.
        cbn [num_le]. unfold dle. cbn [dmant dscale].
        change (pow10 0) with 1. nia.
    + cbn [fixed_range] in Ra. apply negb_false_iff in Ra.
      destruct (parseFloat_toFixed_large _ 0 Cx Fx Ra) as [-> Tr].
      split; [|exact Tr].
      assert (Rb : dleb (dec_of_Z (10 ^ 21)) (dabs (Dec mb kb)) = true).
      { apply dleb_le, dle_of_Z_l. apply dleb_le, dle_of_Z_l in Ra.
        unfold dabs in *. cbn [dmant dscale] in *.
        rewrite (Z.abs_eq ma) in Ra by lia. rewrite (Z.abs_eq mb) by lia.
        assert (10 ^ 21 * pow10 ka * pow10 kb <= mb * pow10 ka) by nia.
        nia. }
      destruct (parseFloat_toFixed_large _ 0 Cy Fy Rb) as [-> _].
      exact Hxy'.
Qed.

(** Adding an amount that is not negative does not lower a total. *)
Lemma num_add_nonneg_le : forall x a,
  num_le num_zero x -> num_le num_zero a ->
  num_le x (num_add x a) /\ num_le num_zero (num_add x a).
Proof.
  intros x a Hx Ha.
  assert (H : num_le x (num_add x a)).
  { destruct x as [| | |[mx kx]], a as [| | |[ma ka]];
      try contradiction; try exact I.
    cbn [num_add]. apply nonneg_Fin in Hx. apply nonneg_Fin in Ha.
    pose proof (pow10_pos kx) as Px. pose proof (pow10_pos ka) as Pa.
    unfold dadd. cbn [dmant dscale].
    set (K := Nat.max kx ka).
    set (X := mx * pow10 (K - kx) + ma * pow10 (K - ka)).
    pose proof (pow10_pos (K - kx)) as P1. pose proof (pow10_pos (K - ka)) as P2.
    assert (HX : mx * pow10 (K - kx) <= X) by (unfold X; nia).
    pose proof (dnorm_value K X) as V.
    pose proof (pow10_pos (dscale (dnorm X K))) as Pr.
    pose proof (pow10_pos K) as PK.
    assert (EK : pow10 K = pow10 (K - kx) * pow10 kx)
      by (rewrite <- pow10_add; f_equal; lia).
    pose proof overflow_bound_pos as B.
    destruct (fin_cases (dnorm X K)) as [[-> _]|[[-> C]|[-> _]]].
    - exact I.
    - exfalso. assert (0 <= dmant (dnorm X K)) by nia. nia.
    - cbn [num_le]. unfold dle. cbn [dmant dscale].
      set (r := dnorm X K) in *.
      assert (mx * pow10 (dscale r) * pow10 (K - kx)
              <= dmant r * pow10 kx * pow10 (K - kx)).
      { replace (dmant r * pow10 kx * pow10 (K - kx))
          with (dmant r * (pow10 (K - kx) * pow10 kx)) by ring.
        rewrite <- EK, V. nia. }
      nia. }
  split; [exact H | apply num_le_trans with x; assumption].
Qed.

Lemma add_at_nonneg : forall i v arr,
  num_le num_zero v -> Forall (num_le num_zero) arr ->
  Forall (num_le num_zero) (add_at i v arr) /\
  List.length (add_at i v arr) = List.length arr.
Proof.
  intros i v arr Hv. revert i.
  induction arr as [|a r IH]; intros i H;
    [destruct i; cbn [add_at]; (split; [constructor | reflexivity])|].
  inversion H as [|? ? Ha Hr]; subst.
  destruct i as [|i]; cbn [add_at List.length].
  - split; [|reflexivity]. constructor; [|exact Hr].
    now apply num_add_nonneg_le.
  - destruct (IH i Hr) as [F L]. split; [now constructor | now rewrite L].
Qed.

Lemma buckets_nonneg : forall h l arr,
  Forall (fun e => num_le num_zero (amount e)) l ->
  Forall (num_le num_zero) arr ->
  Forall (num_le num_zero) (fold_left (pace_bucket h) l arr) /\
  List.length (fold_left (pace_bucket h) l arr) = List.length arr.
Proof.
  intros h l. induction l as [|e r IH]; intros arr Hl Ha;
    [split; [exact Ha | reflexivity]|].
  inversion Hl as [|? ? He Hr]; subst. cbn [fold_left].
  assert (Hb : Forall (num_le num_zero) (pace_bucket h arr e) /\
               List.length (pace_bucket h arr e) = List.length arr).
  { unfold pace_bucket.
    destruct (getDayOfYear h (new_Date h (date e))) as [d|];
      [|split; [exact Ha | reflexivity]].
    destruct ((0 <=? d) && (d <=? 366));
      [|split; [exact Ha | reflexivity]].
    now apply add_at_nonneg. }
  destruct Hb as [Hb Lb]. destruct (IH _ Hr Hb) as [F L].
  split; [exact F | now rewrite L].
Qed.

Lemma cumulate_sorted : forall arr curr,
  num_le num_zero curr -> Forall (num_le num_zero) arr ->
  StronglySorted num_le (cumulate curr arr) /\
  Forall (num_le curr) (cumulate curr arr) /\
  Forall well_formed (cumulate curr arr) /\
  List.length (cumulate curr arr) = List.length arr.
Proof.
  induction arr as [|a r IH]; intros curr Hc Ha.
  - cbn. repeat split; constructor.
  - inversion Ha as [|? ? H0 Hr]; subst. cbn [cumulate]. cbv zeta.
    destruct (num_add_nonneg_le curr a Hc H0) as [L N].
    destruct (IH (num_add curr a) N Hr) as (S & F & W & Ln).
    split; [now constructor|]. split; [|split].
    + constructor; [exact L|].
      eapply Forall_impl; [|exact F]. intros c Hcc.
      eapply num_le_trans; eassumption.
    + constructor; [apply num_add_well_formed | exact W].
    + cbn [List.length]. now rewrite Ln.
Qed.

Lemma num_le_not_NaN : forall x y, num_le x y -> is_NaN y = false.
Proof. intros [| | |a] [| | |b] H; try contradiction; reflexivity. Qed.

(** With amounts that are not negative, the values of a year in the pace
    view never decrease from one sampled day to a later one. *)
Theorem pace_never_decreases :
  forall h expenses years y i j si sj,
    Forall (fun e => num_le num_zero (amount e)) expenses ->
    In y years -> (i <= j)%nat ->
    pace_value (PaceOfSpendingChart h expenses years) i y = Some si ->
    pace_value (PaceOfSpendingChart h expenses years) j y = Some sj ->
    num_le si sj.
Proof.
  intros h expenses years y i j si sj Hamt Hy Hij Hi Hj.
  set (cum := year_cumulative h expenses y).
  assert (Hcum : StronglySorted num_le cum /\
                 Forall (num_le num_zero) cum /\ Forall well_formed cum /\
                 List.length cum = 367%nat).
  { unfold cum, year_cumulative.
    destruct (buckets_nonneg h (filter (in_year h y) expenses)
                (repeat num_zero 367)) as [Fb Lb].
    - apply Forall_forall. intros e He. apply filter_In in He.
      rewrite Forall_forall in Hamt. now apply Hamt.
    - apply Forall_forall. intros x Hx. apply repeat_spec in Hx. subst x.
      now apply num_le_refl.
    - destruct (cumulate_sorted _ num_zero (num_le_refl num_zero eq_refl) Fb)
        as (S & F & W & L).
      rewrite Lb, repeat_length in L. now repeat split. }
  destruct Hcum as (Hs & Hn & Hw & Hl).
  assert (Hsample : forall k s,
            pace_value (PaceOfSpendingChart h expenses years) k y = Some s ->
            (k < 74)%nat /\
            exists c, nth_error cum (k * 5) = Some c /\
                      s = parseFloat (toFixed c 0)).
  { intros k s Hk. unfold pace_value, PaceOfSpendingChart in Hk.
    rewrite nth_error_map in Hk.
    destruct (nth_error (seq 0 74) k) as [k'|] eqn:Ek; [|discriminate].
    assert (Hk74 : (k < 74)%nat).
    { assert (Hk' : nth_error (seq 0 74) k <> None) by congruence.
      apply nth_error_Some in Hk'. now rewrite length_seq in Hk'. }
    rewrite nth_error_seq0 in Ek by exact Hk74. inversion Ek; subst k'.
    split; [exact Hk74|].
    cbn [option_map pace_values] in Hk.
    rewrite (obj_get_fill key_eqb key_eqb_eq) in Hk by assumption.
    unfold pace_sample in Hk.
    rewrite (obj_get_fill key_eqb key_eqb_eq) in Hk by assumption.
    fold cum in Hk.
    destruct (nth_error cum (k * 5)) as [c|] eqn:Ec.
    - exists c. split; [reflexivity|]. cbn [option_map str_or] in Hk.
      assert (Hc : In c cum) by (eapply nth_error_In; eassumption).
      rewrite Forall_forall in Hn, Hw.
      destruct (round0_mono c c (Hw c Hc) (Hw c Hc) (Hn c Hc)
                  (num_le_refl c (num_le_not_NaN _ _ (Hn c Hc)))) as [_ Tr].
      rewrite Tr in Hk. congruence.
    - apply nth_error_None in Ec. lia. }
  destruct (Hsample i si Hi) as (Hi74 & ci & Eci & ->).
  destruct (Hsample j sj Hj) as (Hj74 & cj & Ecj & ->).
  assert (Hci : In ci cum) by (eapply nth_error_In; eassumption).
  assert (Hcj : In cj cum) by (eapply nth_error_In; eassumption).
  rewrite Forall_forall in Hn, Hw.
  apply round0_mono; [now apply Hw | now apply Hw | now apply Hn|].
  apply (sorted_nth_le cum (i * 5) (j * 5)); try assumption; [|lia].
  apply Forall_forall. intros x Hx. eapply num_le_not_NaN. apply Hn, Hx.
Qed.

Lemma pace_never_decreases_witness :
  num_le (Fin (Dec 30 0)) (Fin (Dec 1243 0)).
Proof.
  apply (pace_never_decreases utc_host five_expenses [Some 2024; Some 2023]
           (Some 2024) 2%nat 11%nat).
  - unfold five_expenses. repeat constructor; vm_compute; discriminate.
  - left. reflexivity.
  - lia.
  - vm_compute. reflexivity.
  - vm_compute. reflexivity.
Defined.

(* ================================================================== *)
(** * The calendar of the reference host *)

(** The two checks run over the whole cycle. *)
Lemma cycle_days_checked : all_below 146097 cycle_day_ok = true.
Proof. vm_cast_no_check (eq_refl true). Qed.

Lemma cycle_dates_checked :
  all_below 400 (fun y =>
    all_below 12 (fun m =>
      all_below 31 (fun d => cycle_date_ok (y, m + 1, d + 1)))) = true.
Proof. vm_cast_no_check (eq_refl true). Qed.


Lemma all_below_spec : forall n f,
  all_below n f = true -> forall z, 0 <= z < Z.pos n -> f z = true.
Proof.
  intros n f. unfold all_below.
  set (F := fun st : Z * bool => (fst st + 1, snd st && f (fst st))).
  assert (H : forall p,
            fst (Pos.iter F (0, true) p) = Z.pos p /\
            (snd (Pos.iter F (0, true) p) = true ->
             forall z, 0 <= z < Z.pos p -> f z = true)).
  { induction p as [|p IH] using Pos.peano_ind.
    - cbn. split; [reflexivity|]. intros H z Hz.
      assert (z = 0) by lia. subst z. exact H.
    - rewrite Pos.iter_succ. destruct IH as [E IH].
      destruct (Pos.iter F (0, true) p) as [c b]. cbn [fst snd] in *.
      unfold F. cbn [fst snd]. subst c. split; [lia|].
      intros H z Hz. apply andb_true_iff in H. destruct H as [Hb Hf].
      destruct (Z.eq_dec z (Z.pos p)) as [->|Hne]; [exact Hf|].
      apply IH; [exact Hb | lia]. }
  intros Hn. apply (H n). exact Hn.
Qed.

Lemma cycle_date_checked : forall y m d,
  0 <= y < 400 -> 0 <= m < 12 -> 0 <= d < 31 ->
  cycle_date_ok (y, m + 1, d + 1) = true.
Proof.
  intros y m d Hy Hm Hd.
  exact (all_below_spec 31 _
           (all_below_spec 12 _
              (all_below_spec 400 _ cycle_dates_checked y Hy) m Hm) d Hd).
Qed.

(** The calendar repeats every 400 years, that is every 146097 days. *)
Lemma civil_from_days_shift : forall z e,
  civil_from_days (z + 146097 * e)
  = let '(y, m, d) := civil_from_days z in (y + 400 * e, m, d).
Proof.
  intros z e. unfold civil_from_days.
  replace (z + 146097 * e + 719468) with (z + 719468 + e * 146097) by ring.
  rewrite Z.div_add by lia.
  set (z' := z + 719468).
  replace (z' + e * 146097 - (z' / 146097 + e) * 146097)
    with (z' - z' / 146097 * 146097) by ring.
  cbv zeta. f_equal. f_equal. ring.
Qed.

Lemma days_from_civil_shift : forall y m d e,
  days_from_civil (y + 400 * e) m d = days_from_civil y m d + 146097 * e.
Proof.
  intros y m d e. unfold days_from_civil.
  set (y' := if m <=? 2 then y - 1 else y).
  replace (if m <=? 2 then y + 400 * e - 1 else y + 400 * e)
    with (y' + e * 400) by (unfold y'; destruct (m <=? 2); ring).
  rewrite Z.div_add by lia. cbv zeta.
  replace (y' + e * 400 - (y' / 400 + e) * 400) with (y' - y' / 400 * 400)
    by ring.
  ring.
Qed.

Lemma is_leap_shift : forall y e, is_leap (y + 400 * e) = is_leap y.
Proof.
  intros y e. unfold is_leap.
  replace (y + 400 * e) with (y + (100 * e) * 4) at 1 by ring.
  replace (y + 400 * e) with (y + (4 * e) * 100) at 1 by ring.
  replace (y + 400 * e) with (y + e * 400) by ring.
  now rewrite !Z.mod_add by lia.
Qed.

Lemma days_in_month_shift : forall y m e,
  days_in_month (y + 400 * e) m = days_in_month y m.
Proof. intros. unfold days_in_month. now rewrite is_leap_shift. Qed.

Lemma ordinal_day_shift : forall y m d e,
  ordinal_day (y + 400 * e) m d = ordinal_day y m d.
Proof.
  intros. unfold ordinal_day. rewrite !days_from_civil_shift. ring.
Qed.

(** Every day number is the day of one date of the calendar, which leads
    back to it; the ordinal of the date lies within its year. *)
Lemma civil_from_days_spec : forall z,
  let '(y, m, d) := civil_from_days z in
  calendar_date y m d = true /\ days_from_civil y m d = z /\
  1 <= ordinal_day y m d <= days_in_year y.
Proof.
  intro z.
  set (e := (z + 719468) / 146097). set (doe := (z + 719468) mod 146097).
  assert (Ez : z = doe - 719468 + 146097 * e).
  { pose proof (Z.div_mod (z + 719468) 146097 ltac:(lia)). unfold doe, e. lia. }
  assert (Hd : 0 <= doe < 146097) by (apply Z.mod_pos_bound; lia).
  pose proof (all_below_spec _ _ cycle_days_checked doe Hd) as C.
  unfold cycle_day_ok in C. cbv zeta in C.
  rewrite Ez, civil_from_days_shift.
  destruct (civil_from_days (doe - 719468)) as [[y m] d].
  rewrite !andb_true_iff in C.
  destruct C as [[[Hc Hr] Ho1] Ho2].
  apply Z.eqb_eq in Hr. apply Z.leb_le in Ho1. apply Z.leb_le in Ho2.
  fold (ordinal_day y m d) in Ho1, Ho2.
  unfold calendar_date, days_in_year in *.
  rewrite days_in_month_shift, days_from_civil_shift, ordinal_day_shift,
    is_leap_shift.
  split; [exact Hc|]. split; lia.
Qed.

(** A date of the calendar is the date of its day number. *)
Lemma days_from_civil_spec : forall y m d,
  calendar_date y m d = true ->
  civil_from_days (days_from_civil y m d) = (y, m, d).
Proof.
  intros y m d Hc.
  set (e := y / 400). set (y0 := y mod 400).
  assert (Ey : y = y0 + 400 * e).
  { pose proof (Z.div_mod y 400 ltac:(lia)). unfold y0, e. lia. }
  assert (Hy : 0 <= y0 < 400) by (apply Z.mod_pos_bound; lia).
  assert (Hc0 : calendar_date y0 m d = true).
  { unfold calendar_date in *. rewrite Ey, days_in_month_shift in Hc.
    exact Hc. }
  pose proof Hc0 as Hb. unfold calendar_date in Hb.
  rewrite !andb_true_iff in Hb. destruct Hb as [[[Hm1 Hm2] Hd1] Hd2].
  apply Z.leb_le in Hm1. apply Z.leb_le in Hm2. apply Z.leb_le in Hd1.
  apply Z.leb_le in Hd2.
  assert (Hd31 : d <= 31).
  { unfold days_in_month in Hd2.
    destruct (m =? 2); [destruct (is_leap y0); lia|].
    destruct ((m =? 4) || (m =? 6) || (m =? 9) || (m =? 11)); lia. }
  pose proof (cycle_date_checked y0 (m - 1) (d - 1) Hy ltac:(lia) ltac:(lia))
    as C3.
  replace (m - 1 + 1) with m in C3 by ring.
  replace (d - 1 + 1) with d in C3 by ring.
  unfold cycle_date_ok in C3. rewrite Hc0 in C3. cbn [negb orb] in C3.
  rewrite Ey, days_from_civil_shift, civil_from_days_shift.
  destruct (civil_from_days (days_from_civil y0 m d)) as [[y' m'] d'].
  rewrite !andb_true_iff in C3. destruct C3 as [[Ey' Em'] Ed'].
  apply Z.eqb_eq in Ey'. apply Z.eqb_eq in Em'. apply Z.eqb_eq in Ed'.
  now rewrite Ey', Em', Ed'.
Qed.


(* ------------------------------------------------------------------ *)
(** ** Dates in the reference host *)

Lemma calendar_date_bounds : forall y m d,
  calendar_date y m d = true -> 1 <= m <= 12 /\ 1 <= d <= 31.
Proof.
  intros y m d H. unfold calendar_date in H.
  rewrite !andb_true_iff in H. destruct H as [[[Hm1 Hm2] Hd1] Hd2].
  apply Z.leb_le in Hm1. apply Z.leb_le in Hm2. apply Z.leb_le in Hd1.
  apply Z.leb_le in Hd2. split; [lia|]. split; [lia|].
  unfold days_in_month in Hd2.
  destruct (m =? 2); [destruct (is_leap y); lia|].
  destruct ((m =? 4) || (m =? 6) || (m =? 9) || (m =? 11)); lia.
Qed.

Lemma valid_ymd_calendar : forall y m d t,
  valid_ymd y m d = Some t ->
  calendar_date y m d = true /\ t = days_from_civil y m d * msPerDay.
Proof.
  intros y m d t H. unfold valid_ymd in H. fold (calendar_date y m d) in H.
  destruct (calendar_date y m d); [|discriminate].
  inversion H. now split.
Qed.

Lemma Day_of_days : forall z, Day (z * msPerDay) = z.
Proof. intro z. unfold Day. apply Z.div_mul. discriminate. Qed.

(** January 1 of the years 0 to 9999 is within 3.7 million days of the
    epoch. *)
Lemma new_year_bounds : forall y,
  0 <= y <= 9999 -> -720000 <= days_from_civil y 1 1 <= 3700000.
Proof.
  intros y Hy. unfold days_from_civil.
  change (1 <=? 2) with true. change (2 <? 1) with false. cbv iota zeta.
  change ((153 * (1 + 9) + 2) / 5) with 306.
  pose proof (Z.div_mod (y - 1) 400 ltac:(lia)) as D.
  pose proof (Z.mod_pos_bound (y - 1) 400 ltac:(lia)) as M.
  set (era := (y - 1) / 400) in *.
  replace (y - 1 - era * 400) with ((y - 1) mod 400) by lia.
  set (yoe := (y - 1) mod 400) in *.
  assert (0 <= yoe / 4 < 100).
  { split; [apply Z.div_pos; lia|].
    apply Z.div_lt_upper_bound; lia. }
  assert (0 <= yoe / 100 < 4).
  { split; [apply Z.div_pos; lia|].
    apply Z.div_lt_upper_bound; lia. }
  lia.
Qed.

(** In the reference host, a date of the years 100 to 9999 has the year
    and the month it is written with, and [getDayOfYear] gives its ordinal
    in the year: 1 for January 1, up to 365, or 366 in a leap year. *)
Theorem getDayOfYear_is_ordinal :
  forall y m d t,
    100 <= y <= 9999 ->
    valid_ymd y m d = Some t ->
    getFullYear utc_host (Some t) = Some y /\
    getMonth utc_host (Some t) = Some (m - 1) /\
    getDayOfYear utc_host (Some t) = Some (ordinal_day y m d) /\
    1 <= ordinal_day y m d <= days_in_year y.
Proof.
  intros y m d t Hy Hv.
  destruct (valid_ymd_calendar y m d t Hv) as [Hc ->].
  pose proof (days_from_civil_spec y m d Hc) as Hr.
  pose proof (civil_from_days_spec (days_from_civil y m d)) as Hs.
  rewrite Hr in Hs. destruct Hs as (_ & _ & Ho).
  assert (Ey : getFullYear utc_host (Some (days_from_civil y m d * msPerDay))
               = Some y).
  { cbn [getFullYear option_map]. unfold LocalTime, YearFromTime.
    cbn [utc_host LocalTZA]. rewrite Z.add_0_r, Day_of_days, Hr. reflexivity. }
  split; [exact Ey|]. split; [|split; [|exact Ho]].
  - cbn [getMonth option_map]. unfold LocalTime, MonthFromTime.
    cbn [utc_host LocalTZA]. rewrite Z.add_0_r, Day_of_days, Hr. reflexivity.
  - pose proof (new_year_bounds y ltac:(lia)) as B.
    set (j := days_from_civil y 1 1) in *.
    assert (Em : MakeDay y 0 0 = j - 1).
    { unfold MakeDay, j.
      replace (y + 0 / 12) with y by (change (0 / 12) with 0; lia).
      change (0 mod 12 + 1) with 1. lia. }
    assert (Es : new_Date_ymd utc_host (Some y) 0 0
                 = Some ((j - 1) * msPerDay)).
    { unfold new_Date_ymd.
      replace ((0 <=? y) && (y <=? 99)) with false
        by (symmetry; apply andb_false_iff; right; apply Z.leb_gt; lia).
      unfold UTC. cbn [utc_host LocalTZA]. rewrite Z.sub_0_r, Em.
      unfold TimeClip.
      replace (Z.abs ((j - 1) * msPerDay) <=? 8640000000000000) with true
        by (symmetry; apply Z.leb_le; unfold msPerDay; lia).
      reflexivity. }
    unfold getDayOfYear. rewrite Ey, Es. cbn [getTime]. f_equal.
    unfold ordinal_day. fold j.
    replace (days_from_civil y m d * msPerDay - (j - 1) * msPerDay)
      with ((days_from_civil y m d - j + 1) * msPerDay) by ring.
    apply Z.div_mul. discriminate.
Qed.

Lemma getDayOfYear_is_ordinal_witness :
  getFullYear utc_host (Some 1709164800000) = Some 2024 /\
  getMonth utc_host (Some 1709164800000) = Some (2 - 1) /\
  getDayOfYear utc_host (Some 1709164800000) = Some (ordinal_day 2024 2 29) /\
  1 <= ordinal_day 2024 2 29 <= days_in_year 2024.
Proof.
  apply (getDayOfYear_is_ordinal 2024 2 29 1709164800000).
  - lia.
  - vm_compute. reflexivity.
Defined.


(* ------------------------------------------------------------------ *)
(** ** The default date of an imported row *)

Lemma pad4_checked :
  all_below 10000
    (fun v => (String.length (pad_zeros 4 (digits_of v)) =? 4)%nat) = true.
Proof. vm_cast_no_check (eq_refl true). Qed.

Lemma pad2_checked :
  all_below 100
    (fun v => (String.length (pad_zeros 2 (digits_of v)) =? 2)%nat) = true.
Proof. vm_cast_no_check (eq_refl true). Qed.

Lemma take_app_length : forall p r, take (String.length p) (p ++ r) = p.
Proof. induction p as [|c p IH]; intro r; [now destruct r|]. cbn. now rewrite IH. Qed.

Lemma drop_app_length : forall p r, drop (String.length p) (p ++ r) = r.
Proof. induction p as [|c p IH]; intro r; [now destruct r|]. cbn. apply IH. Qed.

Lemma read_digits_padded : forall n v rest,
  0 <= v ->
  String.length (pad_zeros n (digits_of v)) = n ->
  read_digits n (pad_zeros n (digits_of v) ++ rest) = Some (v, rest).
Proof.
  intros n v rest Hv Hl. unfold read_digits.
  destruct (digits_of_spec v Hv) as (Hd & Hval & _ & _).
  destruct (pad_zeros_digits n (digits_of v) Hd) as (Pd & Pv & _).
  set (p := pad_zeros n (digits_of v)) in *. clearbody p. subst n.
  rewrite take_app_length, drop_app_length.
  rewrite Nat.eqb_refl, Pd, Pv, Hval. reflexivity.
Qed.

(** The reference host reads the date-only text of a calendar date of the
    years 0 to 9999 as the midnight that begins it. *)
Lemma iso_date_parse_text : forall y m d,
  0 <= y <= 9999 -> calendar_date y m d = true ->
  iso_date_parse (pad_zeros 4 (digits_of y) ++ "-" ++
                  pad_zeros 2 (digits_of m) ++ "-" ++
                  pad_zeros 2 (digits_of d))
  = Some (days_from_civil y m d * msPerDay).
Proof.
  intros y m d Hy Hc.
  destruct (calendar_date_bounds y m d Hc) as [Hm Hd].
  pose proof (all_below_spec _ _ pad4_checked y ltac:(lia)) as Ly.
  pose proof (all_below_spec _ _ pad2_checked m ltac:(lia)) as Lm.
  pose proof (all_below_spec _ _ pad2_checked d ltac:(lia)) as Ld.
  cbv beta in Ly, Lm, Ld.
  apply Nat.eqb_eq in Ly. apply Nat.eqb_eq in Lm. apply Nat.eqb_eq in Ld.
  set (Y := pad_zeros 4 (digits_of y)) in *.
  set (M := pad_zeros 2 (digits_of m)) in *.
  set (D := pad_zeros 2 (digits_of d)) in *.
  assert (R1 : read_digits 4 (Y ++ String "-" (M ++ String "-" D))
               = Some (y, String "-" (M ++ String "-" D)))
    by (apply read_digits_padded; [lia | exact Ly]).
  assert (R2 : read_digits 2 (M ++ String "-" D) = Some (m, String "-" D))
    by (apply read_digits_padded; [lia | exact Lm]).
  assert (R3 : read_digits 2 D = Some (d, EmptyString)).
  { rewrite <- (append_nil_r D) at 1.
    apply read_digits_padded; [lia | exact Ld]. }
  change (Y ++ "-" ++ M ++ "-" ++ D)
    with (Y ++ String "-" (M ++ String "-" D)).
  unfold iso_date_parse. rewrite R1. cbv iota beta.
  rewrite R2. cbv iota beta. rewrite R3. cbv iota beta.
  unfold valid_ymd. fold (calendar_date y m d). now rewrite Hc.
Qed.

(** A row without a date gets the date of the day of the import, as text;
    the reference host reads that text back as the midnight that begins
    the day, so the record counts in the year of that day. *)
Theorem imported_default_date :
  forall now today mapping row i,
    row_get (Mapping.date mapping) row = None \/
    row_get (Mapping.date mapping) row = Some EmptyString ->
    0 <= YearFromTime (today i) <= 9999 ->
    let e := normalize now today mapping row i in
    date e = toISOString_date (today i) /\
    new_Date utc_host (date e) = Some (Day (today i) * msPerDay) /\
    getFullYear utc_host (new_Date utc_host (date e))
    = Some (YearFromTime (today i)).
Proof.
  intros now today mapping row i Hrow Hy e.
  assert (Ed : date e = toISOString_date (today i)).
  { unfold e. cbn [normalize date].
    destruct Hrow as [-> | ->]; reflexivity. }
  assert (En : new_Date utc_host (toISOString_date (today i))
               = Some (Day (today i) * msPerDay)).
  { unfold new_Date. cbn [utc_host Date_parse]. unfold toISOString_date.
    unfold YearFromTime in Hy.
    pose proof (civil_from_days_spec (Day (today i))) as Hs.
    destruct (civil_from_days (Day (today i))) as [[y m] d].
    destruct Hs as (Hc & Hr & _).
    replace ((0 <=? y) && (y <=? 9999)) with true
      by (symmetry; apply andb_true_iff; split; apply Z.leb_le; lia).
    rewrite iso_date_parse_text by assumption. now rewrite Hr. }
  rewrite Ed, En. split; [reflexivity|]. split; [reflexivity|].
  cbn [getFullYear option_map]. unfold LocalTime.
  cbn [utc_host LocalTZA]. rewrite Z.add_0_r.
  unfold YearFromTime. now rewrite Day_of_days.
Qed.

Lemma imported_default_date_witness :
  let e := normalize (frozen_clock 1700000000000) (frozen_clock 1700000000000)
             example_mapping [("Amount", "12")] 0 in
  date e = toISOString_date (frozen_clock 1700000000000 0%nat) /\
  new_Date utc_host (date e)
  = Some (Day (frozen_clock 1700000000000 0%nat) * msPerDay) /\
  getFullYear utc_host (new_Date utc_host (date e))
  = Some (YearFromTime (frozen_clock 1700000000000 0%nat)).
Proof.
  apply (imported_default_date (frozen_clock 1700000000000)
           (frozen_clock 1700000000000) example_mapping [("Amount", "12")] 0).
  - left. reflexivity.
  - vm_compute. split; discriminate.
Defined.

(* ================================================================== *)
(** * Further properties of the sorted views and of the years *)

Section StableSort.
Context {A : Type} (cmp : A -> A -> number) (p : A -> bool).

Lemma sort_insert_filter : forall x l,
  (forall y, In y l -> num_gtb (cmp x y) num_zero = true ->
             p x = true -> p y = false) ->
  filter p (sort_insert cmp x l) = filter p (x :: l).
Proof.
  intros x l. induction l as [|y r IH]; intro H; [reflexivity|].
  cbn [sort_insert]. destruct (num_gtb (cmp x y) num_zero) eqn:E;
    [|reflexivity].
  cbn [filter]. rewrite IH by (intros z Hz; apply H; now right).
  cbn [filter]. destruct (p x) eqn:Px; [|reflexivity].
  now rewrite (H y (or_introl eq_refl) E eq_refl).
Qed.

(** The sort is stable: elements the comparator never puts apart keep
    their order. *)
Lemma js_sort_stable : forall l,
  (forall x y, In x l -> In y l -> num_gtb (cmp x y) num_zero = true ->
               p x = true -> p y = false) ->
  filter p (js_sort cmp l) = filter p l.
Proof.
  induction l as [|x r IH]; intro H; [reflexivity|].
  cbn [js_sort fold_right]. fold (js_sort cmp r).
  rewrite sort_insert_filter.
  - cbn [filter]. rewrite IH; [reflexivity|].
    intros a b Ha Hb. apply H; now right.
  - intros y Hy. apply H; [now left|]. right.
    now apply (proj1 (js_sort_In cmp y r)).
Qed.

End StableSort.

Lemma num_ltb_not_tied : forall a b v,
  num_ltb a b = true -> num_eqb a v = true -> num_eqb b v = false.
Proof.
  intros [| | |a] [| | |b] [| | |v]; cbn [num_ltb num_eqb]; intros L E;
    try discriminate; try reflexivity.
  apply dltb_lt in L. unfold dcompare in *.
  destruct (Z.compare_spec (dmant a * pow10 (dscale v))
                           (dmant v * pow10 (dscale a))) as [Ea| |];
    try discriminate.
  destruct (Z.compare_spec (dmant b * pow10 (dscale v))
                           (dmant v * pow10 (dscale b))) as [Eb| |];
    try reflexivity.
  exfalso.
  pose proof (pow10_pos (dscale a)). pose proof (pow10_pos (dscale b)).
  pose proof (pow10_pos (dscale v)).
  assert (dmant a * pow10 (dscale b) * pow10 (dscale v)
          = dmant b * pow10 (dscale a) * pow10 (dscale v)) by nia.
  nia.
Qed.

(** Rows with the same value for the first selected year come in the
    order of [CATEGORIES]: among them the sort changes nothing. *)
Theorem category_ties_keep_order :
  forall h expenses years v,
    filter (tied_at (hd_error years) v)
      (CategoryComparisonChart h expenses years)
    = filter (tied_at (hd_error years) v)
        (map (category_entry h expenses years)
           (filter (shown h expenses years) CATEGORIES)).
Proof.
  intros h expenses years v. unfold CategoryComparisonChart.
  rewrite js_sort_stable.
  - rewrite filter_map_comm.
    rewrite (filter_ext _ (shown h expenses years)); [reflexivity|].
    intro cat. apply entry_shown.
  - intros x y _ _ G Px. unfold tied_at in *.
    rewrite num_sub_gt in G by apply sort_key_not_NaN.
    eapply num_ltb_not_tied; eassumption.
Qed.

Lemma distinct_NoDup : forall l seen,
  NoDup seen -> NoDup (distinct l seen).
Proof.
  induction l as [|x r IH]; intros seen H; cbn [distinct]; [exact H|].
  apply IH. destruct (existsb (key_eqb x) seen) eqn:E; [exact H|].
  apply NoDup_append; [exact H | constructor; [intros [] | constructor]|].
  intros y Hy [Exy|[]]. subst y.
  assert (existsb (key_eqb x) seen = true)
    by (apply existsb_exists; exists x; split;
        [exact Hy | now apply key_eqb_eq]).
  congruence.
Qed.

(** The years [App] lists are the years of the records ([NaN] for a date
    that cannot be read), each of them once; without records there is no
    year. *)
Theorem App_years_distinct :
  forall h expenses,
    NoDup (App_years h expenses) /\
    (forall y, In y (App_years h expenses) <->
               exists e, In e expenses /\
                         getFullYear h (new_Date h (date e)) = y) /\
    (expenses = [] -> App_years h expenses = []).
Proof.
  intros h expenses. split; [|split].
  - unfold App_years.
    eapply Permutation_NoDup; [apply js_sort_perm|].
    apply distinct_NoDup. constructor.
  - intro y. unfold App_years. rewrite js_sort_In, distinct_In, in_map_iff.
    split.
    + intros [[]|[e [E He]]]. now exists e.
    + intros [e [He E]]. right. now exists e.
  - intros ->. reflexivity.
Qed.
